(** * Elections Scraper: a shallow embedding of [main.py]

    The scraper downloads a district page of volby.cz, finds the
    municipalities linked from it, scrapes the summary numbers and the party
    votes of each one and writes one CSV file.

    The embedding follows the Python source function by function.  Python
    values are modelled as follows:
    - [str] is a list of Unicode code points;
    - [int] is [Z];
    - a [dict] is an insertion-ordered association list;
    - a parsed page (BeautifulSoup) is a tree of tags and strings;
    - [sys.exit] and uncaught exceptions end a computation, and the
      observable effects (console, network, file system) are collected in
      a trace of events. *)

From Stdlib Require Import Strings.String Strings.Ascii.
From Stdlib Require Import Numbers.DecimalString Numbers.DecimalPos.
From Stdlib Require Import Numbers.DecimalFacts.
From Stdlib Require Import List NArith ZArith Bool Lia.
From Stdlib Require Import Sorting.Permutation.
Import ListNotations.

Set Implicit Arguments.

(* ================================================================= *)
(** ** Python strings *)

Module PyStr.

(** A Python [str] is a sequence of code points. *)
Definition codepoint := N.
Definition str := list codepoint.

(** Literals are written as UTF-8 text and decoded to code points by [u]. *)
Fixpoint utf8_decode (bs : list N) : str :=
  match bs with
  | [] => []
  | b :: r =>
      if (b <? 0x80)%N then b :: utf8_decode r
      else if (b <? 0xE0)%N then
        match r with
        | c1 :: r1 => ((b mod 0x20) * 0x40 + c1 mod 0x40)%N :: utf8_decode r1
        | _ => []
        end
      else if (b <? 0xF0)%N then
        match r with
        | c1 :: c2 :: r2 =>
            ((b mod 0x10) * 0x1000 + (c1 mod 0x40) * 0x40 + c2 mod 0x40)%N
              :: utf8_decode r2
        | _ => []
        end
      else
        match r with
        | c1 :: c2 :: c3 :: r3 =>
            ((b mod 0x08) * 0x40000 + (c1 mod 0x40) * 0x1000
             + (c2 mod 0x40) * 0x40 + c3 mod 0x40)%N :: utf8_decode r3
        | _ => []
        end
  end.

Definition u (s : string) : str :=
  utf8_decode (List.map N_of_ascii (list_ascii_of_string s)).

(** [a == b] *)
Fixpoint eqb (a b : str) : bool :=
  match a, b with
  | [], [] => true
  | x :: a', y :: b' => (x =? y)%N && eqb a' b'
  | _, _ => false
  end.

(** [s.startswith(p)] *)
Fixpoint startswith (s p : str) {struct p} : bool :=
  match p, s with
  | [], _ => true
  | y :: p', x :: s' => (x =? y)%N && startswith s' p'
  | _ :: _, [] => false
  end.

(** [s.endswith(p)]: the last [len(p)] code points of [s] are [p]. *)
Definition endswith (s p : str) : bool :=
  (length p <=? length s)%nat && eqb (skipn (length s - length p) s) p.

(** [sub in s] *)
Fixpoint contains (sub s : str) : bool :=
  startswith s sub ||
  match s with
  | [] => false
  | _ :: s' => contains sub s'
  end.

(** [s.replace(c, "")] for a one-character string [c]. *)
Definition remove_char (c : codepoint) (s : str) : str :=
  filter (fun x => negb (x =? c)%N) s.

(** [sep.join(parts)] *)
Fixpoint join (sep : str) (parts : list str) : str :=
  match parts with
  | [] => []
  | [p] => p
  | p :: rest => p ++ sep ++ join sep rest
  end.

Definition in_ranges (tbl : list (N * N)) (c : codepoint) : bool :=
  existsb (fun r => (fst r <=? c)%N && (c <=? snd r)%N) tbl.

(** The code points that [str.strip()] and [str.isspace()] treat as
    whitespace (the complete list of CPython). *)
Definition whitespace_table : list (N * N) :=
  [ (0x09, 0x0D); (0x1C, 0x20); (0x85, 0x85); (0xA0, 0xA0);
    (0x1680, 0x1680); (0x2000, 0x200A); (0x2028, 0x2029);
    (0x202F, 0x202F); (0x205F, 0x205F); (0x3000, 0x3000) ]%N.

Definition isspace_cp : codepoint -> bool := in_ranges whitespace_table.

(** Code points with Numeric_Type=Decimal (Unicode 14.0, the database of
    CPython 3.11).  Every range is a union of runs of ten consecutive code
    points with the values 0 to 9; these are the digits [int()] accepts. *)
Definition decimal_table : list (N * N) :=
  [ (0x30, 0x39); (0x660, 0x669); (0x6F0, 0x6F9); (0x7C0, 0x7C9);
    (0x966, 0x96F); (0x9E6, 0x9EF); (0xA66, 0xA6F); (0xAE6, 0xAEF);
    (0xB66, 0xB6F); (0xBE6, 0xBEF); (0xC66, 0xC6F); (0xCE6, 0xCEF);
    (0xD66, 0xD6F); (0xDE6, 0xDEF); (0xE50, 0xE59); (0xED0, 0xED9);
    (0xF20, 0xF29); (0x1040, 0x1049); (0x1090, 0x1099); (0x17E0, 0x17E9);
    (0x1810, 0x1819); (0x1946, 0x194F); (0x19D0, 0x19D9); (0x1A80, 0x1A89);
    (0x1A90, 0x1A99); (0x1B50, 0x1B59); (0x1BB0, 0x1BB9); (0x1C40, 0x1C49);
    (0x1C50, 0x1C59); (0xA620, 0xA629); (0xA8D0, 0xA8D9); (0xA900, 0xA909);
    (0xA9D0, 0xA9D9); (0xA9F0, 0xA9F9); (0xAA50, 0xAA59); (0xABF0, 0xABF9);
    (0xFF10, 0xFF19); (0x104A0, 0x104A9); (0x10D30, 0x10D39);
    (0x11066, 0x1106F); (0x110F0, 0x110F9); (0x11136, 0x1113F);
    (0x111D0, 0x111D9); (0x112F0, 0x112F9); (0x11450, 0x11459);
    (0x114D0, 0x114D9); (0x11650, 0x11659); (0x116C0, 0x116C9);
    (0x11730, 0x11739); (0x118E0, 0x118E9); (0x11950, 0x11959);
    (0x11C50, 0x11C59); (0x11D50, 0x11D59); (0x11DA0, 0x11DA9);
    (0x16A60, 0x16A69); (0x16AC0, 0x16AC9); (0x16B50, 0x16B59);
    (0x1D7CE, 0x1D7FF); (0x1E140, 0x1E149); (0x1E2F0, 0x1E2F9);
    (0x1E950, 0x1E959); (0x1FBF0, 0x1FBF9) ]%N.

(** Code points with Numeric_Type=Digit: superscripts, subscripts, circled
    digits and the like.  [str.isdigit()] accepts them, [int()] does not. *)
Definition digit_only_table : list (N * N) :=
  [ (0xB2, 0xB3); (0xB9, 0xB9); (0x1369, 0x1371); (0x19DA, 0x19DA);
    (0x2070, 0x2070); (0x2074, 0x2079); (0x2080, 0x2089); (0x2460, 0x2468);
    (0x2474, 0x247C); (0x2488, 0x2490); (0x24EA, 0x24EA); (0x24F5, 0x24FD);
    (0x24FF, 0x24FF); (0x2776, 0x277E); (0x2780, 0x2788); (0x278A, 0x2792);
    (0x10A40, 0x10A43); (0x10E60, 0x10E68); (0x11052, 0x1105A);
    (0x1F100, 0x1F10A) ]%N.

Definition isdecimal_cp : codepoint -> bool := in_ranges decimal_table.

Definition isdigit_cp (c : codepoint) : bool :=
  isdecimal_cp c || in_ranges digit_only_table c.

(** The value of a decimal digit: its offset in its run of ten. *)
Definition decimal_value (c : codepoint) : option Z :=
  match find (fun r => (fst r <=? c)%N && (c <=? snd r)%N) decimal_table with
  | Some r => Some (Z.of_N ((c - fst r) mod 10))
  | None => None
  end.

(** [s.isdigit()]: at least one character and all of them digits. *)
Definition isdigit (s : str) : bool :=
  match s with
  | [] => false
  | _ => forallb isdigit_cp s
  end.

(** [s.strip()] *)
Fixpoint lstrip (s : str) : str :=
  match s with
  | c :: s' => if isspace_cp c then lstrip s' else s
  | [] => []
  end.

Definition rstrip (s : str) : str := rev (lstrip (rev s)).

Definition strip (s : str) : str := rstrip (lstrip s).

(** The interpreter refuses to convert between [str] and [int] when more
    digits are involved than [sys.get_int_max_str_digits()] allows, 4300
    unless it is configured otherwise: [int(s)] counts the digit characters
    of [s], leading zeros included, and [str(n)] the digits of its
    result. *)
Definition max_str_digits : Z := 4300.

(** [int(s)] on a string of digits, most significant first: [None] stands
    for [ValueError].  The program calls [int] only behind [isdigit], so
    signs, underscores and surrounding blanks never reach it. *)
Fixpoint int_digits (acc : Z) (s : str) : option Z :=
  match s with
  | [] => Some acc
  | c :: s' =>
      match decimal_value c with
      | Some d => int_digits (10 * acc + d) s'
      | None => None
      end
  end.

Definition int (s : str) : option Z :=
  match s with
  | [] => None
  | _ =>
      if (max_str_digits <? Z.of_nat (length s))%Z then None
      else int_digits 0 s
  end.

(** The decimal numeral of an integer. *)
Definition of_int (n : Z) : str :=
  u (NilZero.string_of_int (Z.to_int n)).

(** [str(n)] for an [int], and [n] formatted in an f-string: the numeral,
    or [None] for the [ValueError] of a number with too many digits. *)
Definition str_of_int (n : Z) : option str :=
  if (max_str_digits <? Z.of_nat (length (of_int (Z.abs n))))%Z then None
  else Some (of_int n).

(** [c.lower()] for one character.  The table is exact below U+0180 (Basic
    Latin, Latin-1 Supplement, Latin Extended-A); above, the model leaves
    a code point unchanged.  In CPython's database the only code points
    whose lowercase form contains one of [.], [c], [s], [v] are those four
    and [C], [S], [V], which is all the program's use of [lower] depends
    on. *)
Definition lower_cp (c : codepoint) : list codepoint :=
  (if (0x41 <=? c) && (c <=? 0x5A) then [c + 32]
   else if (0xC0 <=? c) && (c <=? 0xDE) && negb (c =? 0xD7) then [c + 32]
   else if c =? 0x130 then [0x69; 0x307]
   else if c =? 0x178 then [0xFF]
   else if (((0x100 <=? c) && (c <=? 0x12F)) || ((0x132 <=? c) && (c <=? 0x137))
            || ((0x14A <=? c) && (c <=? 0x177))) && N.even c then [c + 1]
   else if (((0x139 <=? c) && (c <=? 0x148)) || ((0x179 <=? c) && (c <=? 0x17E)))
           && N.odd c then [c + 1]
   else [c])%N.

(** [s.lower()] *)
Definition lower (s : str) : str := flat_map lower_cp s.

End PyStr.

Import PyStr.

(* ================================================================= *)
(** ** Effects: termination, exceptions and the trace of events *)

Module Py.

(** The exceptions the program can end with: [OSError] stands for its
    subclasses [open] raises ([FileNotFoundError], [IsADirectoryError],
    [PermissionError]). *)
Inductive exn := ValueError | RequestException | OSError.

(** How a computation ends early: [sys.exit(code)] or an exception that
    nothing catches. *)
Inductive halt :=
| SysExit (code : Z)
| Uncaught (e : exn).

Inductive result (A : Type) :=
| Ret (a : A)
| Halt (h : halt).
Arguments Ret {A} a.
Arguments Halt {A} h.

(** What the process does to the outside: a line on the console, a GET
    request, a file created with some content. *)
Inductive event :=
| Print (line : str)
| HttpGet (url : str)
| FileWrite (path content : str).

Definition M (A : Type) : Type := (list event * result A)%type.

Definition ret {A} (a : A) : M A := ([], Ret a).

Definition bind {A B} (m : M A) (f : A -> M B) : M B :=
  match m with
  | (t, Ret a) => let (t', r) := f a in (t ++ t', r)
  | (t, Halt h) => (t, Halt h)
  end.

Definition print (line : str) : M unit := ([Print line], Ret tt).
Definition request (url : str) : M unit := ([HttpGet url], Ret tt).
Definition raise {A} (e : exn) : M A := ([], Halt (Uncaught e)).
Definition sys_exit {A} (code : Z) : M A := ([], Halt (SysExit code)).

(** [for x in xs: s = body(s, x)] *)
Fixpoint for_each {A S} (xs : list A) (body : S -> A -> M S) (s : S) : M S :=
  match xs with
  | [] => ret s
  | x :: xs' => bind (body s x) (for_each xs' body)
  end.

(** The exit status the shell sees. *)
Definition exit_status {A} (m : M A) : Z :=
  match snd m with
  | Ret _ => 0
  | Halt (SysExit c) => c
  | Halt (Uncaught _) => 1
  end.

Definition is_write (e : event) : bool :=
  match e with FileWrite _ _ => true | _ => false end.

Definition is_get (e : event) : bool :=
  match e with HttpGet _ => true | _ => false end.

End Py.

Import Py.

Notation "x <- m ;; k" := (bind m (fun x => k))
  (at level 61, m at next level, right associativity).
Notation "' pat <- m ;; k" := (bind m (fun x => match x with pat => k end))
  (at level 61, pat pattern, m at next level, right associativity).
Notation "m ;;; k" := (bind m (fun _ => k))
  (at level 61, right associativity).

(* ================================================================= *)
(** ** Python dicts *)

Module Dict.

(** A [dict] with [str] keys keeps its keys in insertion order; assigning
    to a key that is present replaces the value and leaves the key where
    it is. *)
Definition t (V : Type) : Type := list (str * V).

Fixpoint get {V} (d : t V) (k : str) : option V :=
  match d with
  | [] => None
  | (k', v) :: d' => if PyStr.eqb k' k then Some v else get d' k
  end.

(** [k in d] *)
Definition mem {V} (k : str) (d : t V) : bool :=
  match get d k with Some _ => true | None => false end.

(** [d[k] = v] *)
Fixpoint set {V} (d : t V) (k : str) (v : V) : t V :=
  match d with
  | [] => [(k, v)]
  | (k', v') :: d' =>
      if PyStr.eqb k' k then (k', v) :: d' else (k', v') :: set d' k v
  end.

(** [d.get(k, default)] *)
Definition get_default {V} (d : t V) (k : str) (default : V) : V :=
  match get d k with Some v => v | None => default end.

Definition keys {V} (d : t V) : list str := map fst d.
Definition values {V} (d : t V) : list V := map snd d.

End Dict.

(* ================================================================= *)
(** ** Parsed pages *)

Module Soup.

(** The attributes the program looks at.  BeautifulSoup keeps [class] and
    the [headers] of a cell as lists of tokens. *)
Record attrs := Attrs {
  href : option str;
  classes : list str;
  headers : list str
}.

Definition no_attrs : attrs := Attrs None [] [].

(** A page element: a string of text or a tag with children.  The page
    itself is a tag (BeautifulSoup names it [[document]]). *)
#[warnings="-register-all"]
Inductive node :=
| Text (s : str)
| Tag (name : str) (a : attrs) (children : list node).

Definition is_tag (names : list str) (n : node) : bool :=
  match n with
  | Tag nm _ _ => existsb (PyStr.eqb nm) names
  | Text _ => false
  end.

Definition attrs_of (n : node) : attrs :=
  match n with
  | Tag _ a _ => a
  | Text _ => no_attrs
  end.

(** The descendants of [n] in document order, each with its chain of
    ancestors, nearest first. *)
Fixpoint walk (anc : list node) (n : node) : list (node * list node) :=
  match n with
  | Text _ => []
  | Tag _ _ ks => flat_map (fun k => (k, n :: anc) :: walk (n :: anc) k) ks
  end.

Definition descendants (n : node) : list node := map fst (walk [] n).

(** The strings below [n], in document order. *)
Fixpoint strings (n : node) : list str :=
  match n with
  | Text s => [s]
  | Tag _ _ ks => flat_map strings ks
  end.

(** [n.get_text()] *)
Definition get_text (n : node) : str := concat (strings n).

(** [n.get_text(sep, strip=True)]: every string is stripped, the empty ones
    are left out, the rest is joined with [sep]. *)
Definition get_text_strip (sep : str) (n : node) : str :=
  join sep (filter (fun s => negb (PyStr.eqb s [])) (map strip (strings n))).

(** [n.find_all(names)] *)
Definition find_all (names : list str) (n : node) : list node :=
  filter (is_tag names) (descendants n).

(** [a.find_parent(name)], on the chain of ancestors of [a] *)
Definition find_parent (name : str) (ancestors : list node) : option node :=
  find (is_tag [name]) ancestors.

(** [soup.select("a[href]")], each link with its ancestors *)
Definition select_a_href (soup : node) : list (node * list node) :=
  filter (fun p => is_tag [u "a"] (fst p) &&
                   match href (attrs_of (fst p)) with Some _ => true | None => false end)
         (walk [] soup).

(** [soup.select("table tr")]: the rows that have a table above them *)
Definition select_table_tr (soup : node) : list node :=
  map fst (filter (fun p => is_tag [u "tr"] (fst p) &&
                            existsb (is_tag [u "table"]) (snd p))
                  (walk [] soup)).

(** [row.select_one("td.<cls>")] *)
Definition select_one_td_class (cls : str) (row : node) : option node :=
  find (fun n => is_tag [u "td"] n && existsb (PyStr.eqb cls) (classes (attrs_of n)))
       (descendants row).

(** [soup.find("td", attrs={"headers": h})] *)
Definition find_td_headers (h : str) (soup : node) : option node :=
  find (fun n => is_tag [u "td"] n && existsb (PyStr.eqb h) (headers (attrs_of n)))
       (descendants soup).

End Soup.

Import Soup.

(* ================================================================= *)
(** ** The CSV writer *)

Module Csv.

(** A cell of a row: the writer receives strings and ints. *)
Inductive value :=
| VStr (s : str)
| VInt (n : Z).

(** The text of a cell: a string as it is, an [int] through [str],
    which refuses a number with too many digits. *)
Definition to_str (v : value) : option str :=
  match v with
  | VStr s => Some s
  | VInt n => str_of_int n
  end.

(** The texts of the cells of a record, [None] when one is refused. *)
Fixpoint to_strs (cells : list value) : option (list str) :=
  match cells with
  | [] => Some []
  | v :: cells' =>
      match to_str v, to_strs cells' with
      | Some s, Some ss => Some (s :: ss)
      | _, _ => None
      end
  end.

Definition comma : codepoint := 44%N.
Definition dquote : codepoint := 34%N.
Definition CR : codepoint := 13%N.
Definition LF : codepoint := 10%N.

(** The default dialect: a field is quoted when it holds the delimiter,
    the quote character or a character of the line terminator, and a quote
    character inside it is doubled. *)
Definition special (c : codepoint) : bool :=
  ((c =? comma) || (c =? dquote) || (c =? CR) || (c =? LF))%N.

Definition quoted (field : str) : str :=
  dquote :: flat_map (fun c => if (c =? dquote)%N then [c; c] else [c]) field
         ++ [dquote].

Definition format_field (field : str) : str :=
  if existsb special field then quoted field else field.

(** One record, ended by the line terminator; a record of one empty field
    is written as a pair of quotes. *)
Definition format_row (fields : list str) : str :=
  match fields with
  | [[]] => [dquote; dquote; CR; LF]
  | _ => join [comma] (map format_field fields) ++ [CR; LF]
  end.

(** [DictWriter._dict_to_list]: a key outside [fieldnames] is a
    [ValueError]; a missing key gives the empty string. *)
Definition dict_to_list (fieldnames : list str) (rowdict : Dict.t value)
  : result (list value) :=
  if forallb (fun k => existsb (PyStr.eqb k) fieldnames) (Dict.keys rowdict)
  then Ret (map (fun k => Dict.get_default rowdict k (VStr [])) fieldnames)
  else Halt (Uncaught ValueError).

(** [writer.writerow(rowdict)]: the text appended to the file, or the
    [ValueError] of a key outside the field names or of a cell that cannot
    be converted; nothing of the record is written then. *)
Definition writerow (fieldnames : list str) (rowdict : Dict.t value)
  : result str :=
  match dict_to_list fieldnames rowdict with
  | Ret cells =>
      match to_strs cells with
      | Some texts => Ret (format_row texts)
      | None => Halt (Uncaught ValueError)
      end
  | Halt h => Halt h
  end.

(** [writer.writeheader()] *)
Definition writeheader (fieldnames : list str) : str :=
  format_row fieldnames.

End Csv.

Import Csv.

(* ================================================================= *)
(** ** The program *)

(** The network, [urllib.parse.urljoin] and the file system are given from
    outside: what a GET of a URL answers (a status code and the parsed
    page, or a failed connection), how a reference is resolved against a
    base URL, and whether a path can be opened for writing (it cannot when
    its directory is missing, when it names a directory, or without the
    permission). *)
Inductive response :=
| Response (status_code : Z) (page : node)
| ConnectionFailed.

Record world := World {
  http_get : str -> response;
  urljoin : str -> str -> str;
  can_open : str -> bool
}.

Definition SEPARATOR : str := repeat 45%N 47.

(** [die(message)]: print the message and leave with code 1. *)
Definition die {A} (message : str) : M A :=
  print message ;;; sys_exit 1.

Definition parse_args (argv : list str) : M (str * str) :=
  if negb (length argv =? 3)%nat then
    die (u "Usage: python main.py <URL> <output.csv>")
  else
    let url := strip (nth 1 argv []) in
    let out_csv := strip (nth 2 argv []) in
    if negb (startswith url (u "http://") || startswith url (u "https://")) then
      die (u "Error: First argument must be a valid URL starting with http(s).")
    else if negb (contains (u "volby.cz") url) then
      die (u "Error: URL must point to volby.cz.")
    else if negb (endswith (lower out_csv) (u ".csv")) then
      die (u "Error: Second argument must be a .csv file name.")
    else ret (url, out_csv).

Definition fetch_soup (W : world) (url : str) : M node :=
  request url ;;;
  match http_get W url with
  | ConnectionFailed => raise RequestException
  | Response status_code page =>
      if negb (status_code =? 200)%Z then
        match str_of_int status_code with
        | Some code =>
            die (u "Error: Unable to download page (HTTP " ++ code ++ u ").")
        | None => raise ValueError
        end
      else ret page
  end.

Definition nbsp : codepoint := 0xA0%N.
Definition space : codepoint := 0x20%N.

Definition clean_number (text : str) : M Z :=
  let t := strip (remove_char space (remove_char nbsp text)) in
  if isdigit t then
    match int t with
    | Some n => ret n
    | None => raise ValueError
    end
  else ret 0%Z.

(** An entry of the list of municipalities: a dict with the keys [code],
    [name] and [url]. *)
Record municipality := Municipality {
  code : str;
  name : str;
  url : str
}.

(** The body of the loop over the links of the district page. *)
Definition collect_link (W : world) (base_url : str)
    (municipalities : list municipality) (link : node * list node)
  : list municipality :=
  let (a, ancestors) := link in
  let href := match href (attrs_of a) with Some h => h | None => [] end in
  if negb (contains (u "xobec=") href) then municipalities
  else
    let code := get_text_strip [] a in
    if negb (isdigit code) then municipalities
    else
      match find_parent (u "tr") ancestors with
      | None => municipalities
      | Some tr =>
          let tds := find_all [u "td"] tr in
          if (length tds <? 2)%nat then municipalities
          else
            let name := get_text_strip (u " ") (nth 1 tds (Text [])) in
            let detail_url := urljoin W base_url href in
            municipalities ++ [Municipality code name detail_url]
      end.

Definition collect_municipalities (W : world) (district_soup : node)
    (base_url : str) : list municipality :=
  fold_left (collect_link W base_url) (select_a_href district_soup) [].

(** The second loop: [unique[m["code"]] = m]. *)
Definition unique_by_code (municipalities : list municipality)
  : Dict.t municipality :=
  fold_left (fun unique m => Dict.set unique (code m) m) municipalities [].

Definition no_municipalities : str :=
  u "Error: No municipalities found on the provided URL. Is it a district page?".

Definition find_municipalities (W : world) (district_soup : node)
    (base_url : str) : M (list municipality) :=
  let municipalities := collect_municipalities W district_soup base_url in
  let unique := unique_by_code municipalities in
  let result := Dict.values unique in
  match result with
  | [] => die no_municipalities
  | _ => ret result
  end.

(** The three summary numbers; [found] in the source is a dict with
    exactly these keys. *)
Inductive field := registered | envelopes | valid.

Record summary := Summary {
  s_registered : Z;
  s_envelopes : Z;
  s_valid : Z
}.

Definition found_get (found : summary) (key : field) : Z :=
  match key with
  | registered => s_registered found
  | envelopes => s_envelopes found
  | valid => s_valid found
  end.

Definition found_set (found : summary) (key : field) (v : Z) : summary :=
  match key with
  | registered => Summary v (s_envelopes found) (s_valid found)
  | envelopes => Summary (s_registered found) v (s_valid found)
  | valid => Summary (s_registered found) (s_envelopes found) v
  end.

Definition labels : list (str * field) :=
  [ (u "Voliči v seznamu", registered);
    (u "Vydané obálky", envelopes);
    (u "Platné hlasy", valid) ].

Definition by_headers (muni_soup : node) (h : str) : M Z :=
  match find_td_headers h muni_soup with
  | Some td => clean_number (get_text td)
  | None => ret 0%Z
  end.

(** The inner loop of the fallback, over the labels, for one row. *)
Definition match_label (cells : list str) (found : summary)
    (entry : str * field) : M summary :=
  let (label, key) := entry in
  if contains label (nth 0 cells []) && (found_get found key =? 0)%Z then
    v <- clean_number (nth 1 cells []) ;;
    ret (found_set found key v)
  else ret found.

(** The outer loop of the fallback, over the rows of the page. *)
Definition scan_row (found : summary) (row : node) : M summary :=
  let cells := map (get_text_strip (u " ")) (find_all [u "td"; u "th"] row) in
  if (length cells <? 2)%nat then ret found
  else for_each labels (match_label cells) found.

Definition extract_summary_numbers (muni_soup : node) : M summary :=
  r <- by_headers muni_soup (u "sa2") ;;
  e <- by_headers muni_soup (u "sa3") ;;
  v <- by_headers muni_soup (u "sa6") ;;
  if negb (negb (r =? 0)%Z && negb (e =? 0)%Z && negb (v =? 0)%Z) then
    for_each (select_table_tr muni_soup) scan_row (Summary r e v)
  else ret (Summary r e v).

(** The body of the loop over the rows in [extract_party_votes]; the state
    is the pair of [party_order] and [votes]. *)
Definition party_row (state : list str * Dict.t Z) (row : node)
  : M (list str * Dict.t Z) :=
  let (party_order, votes) := state in
  match select_one_td_class (u "overflow_name") row with
  | None => ret state
  | Some name_td =>
      let party := get_text_strip (u " ") name_td in
      let tds := find_all [u "td"] row in
      if (length tds <? 3)%nat then ret state
      else
        vote_val <- clean_number (get_text (nth 2 tds (Text []))) ;;
        if negb (PyStr.eqb party []) && negb (Dict.mem party votes) then
          ret (party_order ++ [party], Dict.set votes party vote_val)
        else ret state
  end.

Definition no_party_results : str :=
  u "Error: Could not extract party results from municipality page.".

Definition extract_party_votes (muni_soup : node) : M (list str * Dict.t Z) :=
  state <- for_each (select_table_tr muni_soup) party_row ([], []) ;;
  match snd state with
  | [] => die no_party_results
  | _ => ret state
  end.

(** The flat row of one municipality (the dict [row] of the source). *)
Record row := Row {
  r_code : str;
  r_location : str;
  r_registered : Z;
  r_envelopes : Z;
  r_valid : Z;
  _party_order : list str;
  _party_votes : Dict.t Z
}.

Definition scrape_municipality (W : world) (m : municipality) : M row :=
  soup <- fetch_soup W (url m) ;;
  s <- extract_summary_numbers soup ;;
  ' (party_order, party_votes) <- extract_party_votes soup ;;
  ret (Row (code m) (name m) (s_registered s) (s_envelopes s) (s_valid s)
           party_order party_votes).

Definition fixed_columns : list str :=
  [u "code"; u "location"; u "registered"; u "envelopes"; u "valid"].

(** [r[k]] for one of the fixed columns *)
Definition row_get (r : row) (k : str) : value :=
  if PyStr.eqb k (u "code") then VStr (r_code r)
  else if PyStr.eqb k (u "location") then VStr (r_location r)
  else if PyStr.eqb k (u "registered") then VInt (r_registered r)
  else if PyStr.eqb k (u "envelopes") then VInt (r_envelopes r)
  else VInt (r_valid r).

(** The dict [out] built for one row. *)
Definition out_dict (r : row) (party_cols : list str) : Dict.t value :=
  let out := fold_left (fun out k => Dict.set out k (row_get r k)) fixed_columns [] in
  let votes := _party_votes r in
  fold_left (fun out p => Dict.set out p (VInt (Dict.get_default votes p 0%Z)))
            party_cols out.

(** The loop over the rows in [write_csv]; [content] is what the file holds
    so far. *)
Fixpoint write_rows (fieldnames party_cols : list str) (rows : list row)
    (content : str) : str * result unit :=
  match rows with
  | [] => (content, Ret tt)
  | r :: rows' =>
      match writerow fieldnames (out_dict r party_cols) with
      | Ret line => write_rows fieldnames party_cols rows' (content ++ line)
      | Halt h => (content, Halt h)
      end
  end.

(** The file is opened for writing, which can fail with an [OSError] and
    then leaves no file; otherwise the header and the rows are written in
    turn, and the event records what the file holds when it is closed,
    also when a row has raised. *)
Definition write_csv (W : world) (rows : list row) (party_cols : list str)
    (out_csv : str) : M unit :=
  let fieldnames := fixed_columns ++ party_cols in
  if can_open W out_csv then
    let (content, r) :=
      write_rows fieldnames party_cols rows (writeheader fieldnames) in
    ([FileWrite out_csv content], r)
  else raise OSError.

(** The body of the loop of [main]; the state is [rows] and [party_cols],
    [i] counts from 1.  The counts [i] and [total] come from [enumerate]
    and [len], which stay below the size of a machine word, so their
    numerals are never refused. *)
Definition scrape_step (W : world) (total : nat)
    (state : list row * list str) (im : nat * municipality)
  : M (list row * list str) :=
  let (rows, party_cols) := state in
  let (i, m) := im in
  print (u "[" ++ of_int (Z.of_nat i) ++ u "/" ++ of_int (Z.of_nat total)
         ++ u "] Scraping: " ++ name m ++ u " (" ++ code m ++ u ")") ;;;
  data <- scrape_municipality W m ;;
  let party_cols :=
    match party_cols with
    | [] => _party_order data
    | _ => party_cols
    end in
  ret (rows ++ [data], party_cols).

(** [enumerate(xs, start=1)] *)
Definition enumerate1 {A} (xs : list A) : list (nat * A) :=
  combine (seq 1 (length xs)) xs.

(** [len(municipalities)] is a count as well, see [scrape_step]. *)
Definition main (W : world) (argv : list str) : M unit :=
  ' (url, out_csv) <- parse_args argv ;;
  print SEPARATOR ;;;
  print (u "Downloading district page...") ;;;
  district_soup <- fetch_soup W url ;;
  municipalities <- find_municipalities W district_soup url ;;
  print (u "Found " ++ of_int (Z.of_nat (length municipalities))
         ++ u " municipalities.") ;;;
  print SEPARATOR ;;;
  ' (rows, party_cols) <-
      for_each (enumerate1 municipalities)
               (scrape_step W (length municipalities)) ([], []) ;;
  write_csv W rows party_cols out_csv ;;;
  print SEPARATOR ;;;
  print (u "Done. Saved: " ++ out_csv).

(* ================================================================= *)
(** ** Sample pages *)

Module Sample.

Definition el (name : string) (children : list node) : node :=
  Tag (u name) no_attrs children.

Definition td_text (s : string) : node := el "td" [Text (u s)].

(** A link to a municipality page in a cell. *)
Definition link_cell (target code : string) : node :=
  el "td" [Tag (u "a") (Attrs (Some (u target)) [] []) [Text (u code)]].

Definition page (body : list node) : node :=
  Tag (u "[document]") no_attrs [el "html" [el "body" body]].

Definition district_page : node :=
  page [el "table"
    [ el "tr" [link_cell "ps311?xobec=500054" "500054"; td_text "Alfa";
               link_cell "ps311?xobec=500054" "X"];
      el "tr" [link_cell "ps311?xobec=500062" "500062"; td_text "Beta";
               link_cell "ps311?xobec=500062" "X"] ]].

Definition number_cell (h s : string) : node :=
  Tag (u "td") (Attrs None [u "cislo"] [u h]) [Text (u s)].

Definition party_line (num party votes : string) : node :=
  el "tr" [ td_text num;
            Tag (u "td") (Attrs None [u "overflow_name"] []) [Text (u party)];
            td_text votes ].

Definition municipality_page : node :=
  page [ el "table"
           [el "tr" [number_cell "sa2" "100"; number_cell "sa3" "80";
                     number_cell "sa6" "75"]];
         el "table"
           [party_line "1" "Strana X" "40"; party_line "2" "Strana Y" "35"] ].

Definition base : str := u "https://www.volby.cz/pls/ps2017nss/ps32?xnumnuts=2101".

(** A stand-in for [urljoin]: the reference replaces what follows the last
    slash of the base. *)
Fixpoint last_slash (s : str) : str :=
  match s with
  | [] => []
  | c :: s' =>
      if existsb (N.eqb 47) s' then c :: last_slash s'
      else if (c =? 47)%N then [c] else []
  end.

Definition join_url (base ref : str) : str := last_slash base ++ ref.

Definition web : world :=
  World (fun url =>
           if PyStr.eqb url base then Response 200 district_page
           else if contains (u "xobec=") url then Response 200 municipality_page
           else Response 404 (page []))
        join_url
        (fun _ => true).

Definition argv : list str := [u "main.py"; base; u "out.csv"].

(** A district page that lists the code 500054 twice, with two names. *)
Definition district_page_dup : node :=
  page [el "table"
    [ el "tr" [link_cell "ps311?xobec=500054" "500054"; td_text "Alfa"];
      el "tr" [link_cell "ps311?xobec=500062" "500062"; td_text "Beta"];
      el "tr" [link_cell "ps311?xobec=500054" "500054"; td_text "Alfa II"] ]].



(** A page without the [headers] markers, with labelled rows. *)
Definition label_line (label value : string) : node :=
  el "tr" [el "th" [Text (u label)]; td_text value].

Definition fallback_page : node :=
  page [el "table" [label_line "Voliči v seznamu" "1 234"]].

(** A page whose cell for the registered voters holds a superscript two. *)
Definition superscript_page : node :=
  page [el "table" [el "tr" [number_cell "sa2" "²"]]].

(** A page that reports zero registered voters in the marked cell and has
    a labelled row as well, and the same page without the marked cell. *)
Definition zero_page : node :=
  page [ el "table"
           [el "tr" [number_cell "sa2" "0"; number_cell "sa3" "80";
                     number_cell "sa6" "75"]];
         el "table" [label_line "Voliči v seznamu celkem" "55"] ].

Definition absent_page : node :=
  page [ el "table"
           [el "tr" [number_cell "sa3" "80"; number_cell "sa6" "75"]];
         el "table" [label_line "Voliči v seznamu celkem" "55"] ].

(** A second municipality page with another set of parties, and a web that
    serves it for the code 500062. *)
Definition municipality_page_2 : node :=
  page [ el "table"
           [el "tr" [number_cell "sa2" "200"; number_cell "sa3" "150";
                     number_cell "sa6" "140"]];
         el "table"
           [party_line "1" "Strana Y" "90"; party_line "2" "Strana Z" "50"] ].

Definition web2 : world :=
  World (fun url =>
           if PyStr.eqb url base then Response 200 district_page
           else if contains (u "xobec=500062") url then Response 200 municipality_page_2
           else if contains (u "xobec=") url then Response 200 municipality_page
           else Response 404 (page []))
        join_url
        (fun _ => true).

(** A web whose pages hold no link at all. *)
Definition web_empty : world :=
  World (fun _ => Response 200 (page [])) join_url (fun _ => true).

(** The file the end-to-end scenario is expected to produce. *)
Definition expected_file : str :=
  u "code,location,registered,envelopes,valid,Strana X,Strana Y" ++ [CR; LF]
  ++ u "500054,Alfa,100,80,75,40,35" ++ [CR; LF]
  ++ u "500062,Beta,100,80,75,40,35" ++ [CR; LF].

End Sample.

(* ================================================================= *)
(** ** Vocabulary of the properties *)

Definition str_eq_dec (a b : str) : {a = b} + {a <> b} :=
  list_eq_dec N.eq_dec a b.

(** The ASCII digits and the number a string of them denotes. *)
Definition ascii_digit (c : codepoint) : Prop := (48 <= c <= 57)%N.

Fixpoint decimal (acc : Z) (s : str) : Z :=
  match s with
  | [] => acc
  | c :: s' => decimal (10 * acc + (Z.of_N c - 48)) s'
  end.

(** What the validation is said to check, in words that do not mention
    the string functions of the program. *)
Definition has_prefix (p s : str) : Prop := exists rest, s = p ++ rest.

Definition occurs_in (sub s : str) : Prop := exists pre post, s = pre ++ sub ++ post.

(** [s] ends with a dot and the letters c, s, v, each in either case. *)
Definition ends_with_csv_ci (s : str) : Prop :=
  exists stem d c1 c2 c3,
    s = stem ++ [d; c1; c2; c3] /\
    d = 46%N /\ (c1 = 99 \/ c1 = 67)%N /\ (c2 = 115 \/ c2 = 83)%N /\
    (c3 = 118 \/ c3 = 86)%N.

Definition accepts (argv : list str) (url out_csv : str) : Prop :=
  exists prog a1 a2,
    argv = [prog; a1; a2] /\ url = strip a1 /\ out_csv = strip a2 /\
    (has_prefix (u "http://") url \/ has_prefix (u "https://") url) /\
    occurs_in (u "volby.cz") url /\
    ends_with_csv_ci out_csv.

(** What the Locator is said to do with one hyperlink: keep it when its
    target holds the parameter and its text is numeric, then ask for the
    enclosing row and two cells. *)
Definition link_href (a : node) : str :=
  match href (attrs_of a) with Some h => h | None => [] end.

Definition retained (a : node) : bool :=
  contains (u "xobec=") (link_href a) && isdigit (get_text_strip [] a).

Definition link_entry (W : world) (base_url : str) (link : node * list node)
  : option municipality :=
  if retained (fst link) then
    match find_parent (u "tr") (snd link) with
    | Some tr =>
        let tds := find_all [u "td"] tr in
        if (2 <=? length tds)%nat then
          Some (Municipality (get_text_strip [] (fst link))
                             (get_text_strip (u " ") (nth 1 tds (Text [])))
                             (urljoin W base_url (link_href (fst link))))
        else None
    | None => None
    end
  else None.

Definition entries (W : world) (base_url : str) (link : node * list node)
  : list municipality :=
  match link_entry W base_url link with Some m => [m] | None => [] end.

(** The distinct elements of a list in the order of their first
    occurrence. *)
Fixpoint first_seen (l : list str) : list str :=
  match l with
  | [] => []
  | c :: l' => c :: filter (fun x => negb (PyStr.eqb x c)) (first_seen l')
  end.

(** The last entry of a list that carries a given code. *)
Definition last_with_code (c : str) (ms : list municipality) : option municipality :=
  find (fun m => PyStr.eqb (code m) c) (rev ms).

(** A computation is quiet when it writes no file and, if it leaves through
    [sys.exit], does so with code 1. *)
Definition quiet {A} (m : M A) : Prop :=
  filter is_write (fst m) = [] /\
  forall c, snd m = Halt (SysExit c) -> c = 1%Z.






(** The number a text normalizes to, where it does. *)
Definition clean_value (text : str) : Z :=
  match clean_number text with
  | (_, Ret n) => n
  | (_, Halt _) => 0%Z
  end.




(** [b] keeps what [a] has found: every field that is not zero in [a] has
    the same value in [b]. *)
Definition keeps (a b : summary) : Prop :=
  forall key, found_get a key <> 0%Z -> found_get b key = found_get a key.

(** The party columns after the loop: those it started with, or else the
    party order of the first row it added. *)
Definition columns_after (party_cols : list str) (new : list row) : list str :=
  match party_cols, new with
  | [], first :: _ => _party_order first
  | _, _ => party_cols
  end.

Definition done_lines (out_csv : str) : list event :=
  [Print SEPARATOR; Print (u "Done. Saved: " ++ out_csv)].

(** The files a computation has written, with their content. *)
Definition written {A} (m : M A) : list (str * str) :=
  flat_map (fun e => match e with FileWrite p c => [(p, c)] | _ => [] end) (fst m).

(** The text of a cell the writer has accepted. *)
Definition cell_text (v : value) : str :=
  match v with
  | VStr s => s
  | VInt n => of_int n
  end.

(** A number [str] accepts, and a summary and a row made of such
    numbers. *)
Definition fits (n : Z) : Prop := str_of_int n = Some (of_int n).

Definition summary_fits (s : summary) : Prop :=
  fits (s_registered s) /\ fits (s_envelopes s) /\ fits (s_valid s).

Definition row_fits (r : row) : Prop :=
  summary_fits (Summary (r_registered r) (r_envelopes r) (r_valid r)) /\
  Forall (fun kv => fits (snd kv)) (_party_votes r).

(** The record of a row under given party columns, in the words of the
    design: a cell for each of the five fixed columns, then for each party
    column the votes of that party in the row, 0 where the row has none.
    A fixed cell shows the field of the row, unless a party column has
    that very name: then it shows the votes of that party. *)
Definition fixed_cell (party_cols : list str) (r : row) (k : str) : str :=
  if existsb (PyStr.eqb k) party_cols
  then of_int (Dict.get_default (_party_votes r) k 0%Z)
  else cell_text (row_get r k).

Definition projection (party_cols : list str) (r : row) : list str :=
  map (fixed_cell party_cols r) fixed_columns
  ++ map (fun p => of_int (Dict.get_default (_party_votes r) p 0%Z)) party_cols.

(** The same row with another mapping of votes. *)
Definition with_votes (r : row) (votes : Dict.t Z) : row :=
  Row (r_code r) (r_location r) (r_registered r) (r_envelopes r) (r_valid r)
      (_party_order r) votes.

(* ================================================================= *)
(** ** Vocabulary of the further properties *)

(** A computation is silent when it returns without having printed,
    requested or written anything. *)
Definition silent {A} (m : M A) : Prop :=
  forall t a, m = (t, Ret a) -> t = [].

(** A computation without effect on the outside that returns or ends with
    a [ValueError]. *)
Definition returns_or_value_error {A} (m : M A) : Prop :=
  (exists a, m = ret a) \/ m = raise ValueError.

(** The remainder [clean_number] looks at. *)
Definition remainder (text : str) : str :=
  strip (remove_char space (remove_char nbsp text)).

(** The three numbers of a summary are not negative. *)
Definition nonneg_summary (s : summary) : Prop :=
  (0 <= s_registered s)%Z /\ (0 <= s_envelopes s)%Z /\ (0 <= s_valid s)%Z.

(** What [extract_party_votes] maintains between two rows: the order lists
    the keys of the mapping, without repetition and without an empty name,
    and no count is negative. *)
Definition party_state_ok (state : list str * Dict.t Z) : Prop :=
  Dict.keys (snd state) = fst state /\
  NoDup (fst state) /\
  ~ In [] (fst state) /\
  Forall (fun kv => (0 <= snd kv)%Z) (snd state).

(** The texts of the cells of a row, as the fallback scan reads them. *)
Definition cell_texts (row : node) : list str :=
  map (get_text_strip (u " ")) (find_all [u "td"; u "th"] row).

Definition label_of (key : field) : str :=
  match key with
  | registered => u "Voliči v seznamu"
  | envelopes => u "Vydané obálky"
  | valid => u "Platné hlasy"
  end.

(** A row is labelled for a field when it has two cells and the first
    contains the label of the field. *)
Definition labelled (key : field) (row : node) : bool :=
  (2 <=? length (cell_texts row))%nat
  && contains (label_of key) (nth 0 (cell_texts row) []).

(** The number in the second cell of a row. *)
Definition labelled_value (row : node) : Z :=
  clean_value (nth 1 (cell_texts row) []).

Fixpoint first_nonzero (vs : list Z) : Z :=
  match vs with
  | [] => 0%Z
  | v :: vs' => if (v =? 0)%Z then first_nonzero vs' else v
  end.

(** The value of a field after the fallback: the primary value when it is
    not zero, else the first number that is not zero among the rows
    labelled for the field, else zero. *)
Definition fallback (key : field) (primary : Z) (rows : list node) : Z :=
  if (primary =? 0)%Z
  then first_nonzero (map labelled_value (filter (labelled key) rows))
  else primary.

(** The second cell of a labelled row normalizes to a number. *)
Definition scan_cleans (row : node) : Prop :=
  forall key, labelled key row = true ->
              exists n, clean_number (nth 1 (cell_texts row) []) = ret n.

Definition scan_cleansb (row : node) : bool :=
  negb (labelled registered row || labelled envelopes row || labelled valid row)
  || match snd (clean_number (nth 1 (cell_texts row) [])) with
     | Ret _ => true
     | Halt _ => false
     end.

(** The value of a field after the scan of one row, and after the scan of
    a list of rows. *)
Definition scan_value (key : field) (found : summary) (row : node) : Z :=
  if labelled key row && (found_get found key =? 0)%Z
  then labelled_value row
  else found_get found key.

Definition fill (key : field) (v : Z) (rows : list node) : Z :=
  fold_left (fun v row => if labelled key row && (v =? 0)%Z
                          then labelled_value row else v) rows v.

(** What holds of every row the scraper builds. *)
Definition row_ok (r : row) : Prop :=
  nonneg_summary (Summary (r_registered r) (r_envelopes r) (r_valid r)) /\
  party_state_ok (_party_order r, _party_votes r) /\
  _party_order r <> [].

(** The texts of the cells of a data row. *)
Definition row_texts (party_cols : list str) (r : row) : list str :=
  [ r_code r; r_location r; of_int (r_registered r); of_int (r_envelopes r);
    of_int (r_valid r) ]
  ++ map (fun p => of_int (Dict.get_default (_party_votes r) p 0%Z)) party_cols.

(** The line printed before a municipality is scraped, and what the loop
    of [main] does for one municipality that is scraped without failure. *)
Definition progress_line (i total : nat) (m : municipality) : str :=
  u "[" ++ of_int (Z.of_nat i) ++ u "/" ++ of_int (Z.of_nat total)
  ++ u "] Scraping: " ++ name m ++ u " (" ++ code m ++ u ")".

Definition scrape_events (total : nat) (im : nat * municipality) : list event :=
  [Print (progress_line (fst im) total (snd im)); HttpGet (url (snd im))].

(** A municipality of the sample district and the row scraped for it. *)
Definition sample_municipality : municipality :=
  Municipality (u "500054") (u "Alfa")
    (u "https://www.volby.cz/pls/ps2017nss/ps311?xobec=500054").

Definition sample_row : row :=
  Row (u "500054") (u "Alfa") 100 80 75 [u "Strana X"; u "Strana Y"]
      [(u "Strana X", 40%Z); (u "Strana Y", 35%Z)].

(** The messages the program prints before it leaves with [sys.exit]. *)
Definition fatal_messages : list str :=
  [ u "Usage: python main.py <URL> <output.csv>";
    u "Error: First argument must be a valid URL starting with http(s).";
    u "Error: URL must point to volby.cz.";
    u "Error: Second argument must be a .csv file name.";
    no_municipalities;
    no_party_results ].

Definition fatal_message (msg : str) : Prop :=
  In msg fatal_messages \/
  exists status_code,
    msg = u "Error: Unable to download page (HTTP " ++ of_int status_code ++ u ").".

(** Every [sys.exit] of a computation has code 1 and comes right after one
    of the fatal messages has been printed. *)
Definition announced {A} (m : M A) : Prop :=
  forall c, snd m = Halt (SysExit c) ->
            c = 1%Z /\ exists pre msg, fst m = pre ++ [Print msg] /\ fatal_message msg.

(** A computation that makes no request. *)
Definition no_requests {A} (m : M A) : Prop := filter is_get (fst m) = [].

(** A municipality that can be scraped: fetching its page and extracting
    from it returns a row. *)
Definition scrapes (W : world) (m : municipality) : bool :=
  match snd (scrape_municipality W m) with
  | Ret _ => true
  | Halt _ => false
  end.

Definition get_of (m : municipality) : event := HttpGet (url m).

(** The second municipality of the sample district, and a web that serves
    the district page and answers 404 for every other page. *)
Definition second_municipality : municipality :=
  Municipality (u "500062") (u "Beta")
    (u "https://www.volby.cz/pls/ps2017nss/ps311?xobec=500062").

Definition failing_web : world :=
  World (fun url => if PyStr.eqb url Sample.base
                    then Response 200 Sample.district_page
                    else Response 404 (Sample.page []))
        Sample.join_url
        (fun _ => true).

(* ================================================================= *)
(** ** Facts about strings *)

Example u_ascii : u "xobec=" = [120; 111; 98; 101; 99; 61]%N.
Proof. reflexivity. Qed.

Example u_czech : u "Voliči" = [86; 111; 108; 105; 0x10D; 105]%N.
Proof. reflexivity. Qed.

Example of_int_ex : of_int 1234 = u "1234" /\ of_int 0 = u "0".
Proof. split; reflexivity. Qed.

Lemma eqb_eq (a b : str) : PyStr.eqb a b = true <-> a = b.
Proof.
  revert b; induction a as [|x a IH]; intros [|y b]; simpl; split;
    try congruence; try reflexivity.
  - intros H. apply andb_true_iff in H as [Hx Hab].
    apply N.eqb_eq in Hx. apply IH in Hab. congruence.
  - intros H. injection H as -> ->.
    rewrite N.eqb_refl. simpl. now apply IH.
Qed.

Lemma eqb_refl (a : str) : PyStr.eqb a a = true.
Proof. now apply eqb_eq. Qed.

Lemma eqb_neq (a b : str) : PyStr.eqb a b = false <-> a <> b.
Proof.
  split.
  - intros H E. apply eqb_eq in E. congruence.
  - intros H. destruct (PyStr.eqb a b) eqn:E; [|reflexivity].
    apply eqb_eq in E. contradiction.
Qed.

Lemma existsb_eqb_In (k : str) (l : list str) :
  existsb (PyStr.eqb k) l = true <-> In k l.
Proof.
  rewrite existsb_exists. split.
  - intros [x [Hx E]]. apply eqb_eq in E. now subst.
  - intros H. exists k. split; [assumption | apply eqb_refl].
Qed.

(** [startswith] decides "is a prefix of". *)
Lemma startswith_spec (s p : str) :
  startswith s p = true <-> exists rest, s = p ++ rest.
Proof.
  revert s; induction p as [|y p IH]; intros s; simpl.
  - split; [intros _; now exists s | reflexivity].
  - destruct s as [|x s].
    + split; [discriminate | intros [r Hr]; discriminate].
    + rewrite andb_true_iff, N.eqb_eq, IH. split.
      * intros [-> [r ->]]. now exists r.
      * intros [r Hr]. injection Hr as -> ->. split; [reflexivity | now exists r].
Qed.

(** [contains] decides "occurs somewhere in". *)
Lemma contains_spec (sub s : str) :
  contains sub s = true <-> exists pre post, s = pre ++ sub ++ post.
Proof.
  induction s as [|x s IH]; simpl.
  - rewrite orb_false_r, startswith_spec. split.
    + intros [r Hr]. now exists [], r.
    + intros [pre [post H]]. destruct pre; [now exists post|discriminate].
  - rewrite orb_true_iff, IH, startswith_spec. split.
    + intros [[r Hr] | [pre [post H]]].
      * now exists [], r.
      * exists (x :: pre), post. simpl. now rewrite H.
    + intros [[|y pre] [post H]].
      * left. now exists post.
      * right. injection H as -> ->. now exists pre, post.
Qed.

(** [endswith] decides "is a suffix of". *)
Lemma endswith_spec (s p : str) :
  endswith s p = true <-> exists stem, s = stem ++ p.
Proof.
  unfold endswith. rewrite andb_true_iff, Nat.leb_le, eqb_eq. split.
  - intros [Hlen Hs]. exists (firstn (length s - length p) s).
    pose proof (firstn_skipn (length s - length p) s) as E.
    rewrite Hs in E. now symmetry.
  - intros [stem ->]. rewrite length_app. split; [lia|].
    replace (length stem + length p - length p)%nat with (length stem + 0)%nat by lia.
    rewrite skipn_app, Nat.add_0_r, skipn_all.
    replace (length stem - length stem)%nat with 0%nat by lia. reflexivity.
Qed.

(** [strip] removes whitespace at both ends and nothing else, and what it
    leaves neither starts nor ends with whitespace. *)
Lemma lstrip_spec (s : str) :
  exists ws,
    s = ws ++ lstrip s /\
    Forall (fun c => isspace_cp c = true) ws /\
    forall c rest, lstrip s = c :: rest -> isspace_cp c = false.
Proof.
  induction s as [|x s [ws [Hs [Hws Hhead]]]]; simpl.
  - exists []. repeat split; [constructor | discriminate].
  - destruct (isspace_cp x) eqn:E.
    + exists (x :: ws). repeat split.
      * simpl. now rewrite <- Hs.
      * now constructor.
      * exact Hhead.
    + exists []. repeat split; [constructor|].
      intros c rest H. now injection H as <- _.
Qed.

Lemma rstrip_spec (s : str) :
  exists ws,
    s = rstrip s ++ ws /\
    Forall (fun c => isspace_cp c = true) ws /\
    forall c stem, rstrip s = stem ++ [c] -> isspace_cp c = false.
Proof.
  unfold rstrip. destruct (lstrip_spec (rev s)) as [ws [Hs [Hws Hhead]]].
  exists (rev ws). repeat split.
  - rewrite <- rev_app_distr, <- Hs. now rewrite rev_involutive.
  - now apply Forall_rev.
  - intros c stem H. apply (f_equal (@rev _)) in H.
    rewrite rev_involutive, rev_unit in H. now apply Hhead in H.
Qed.

Lemma strip_spec (s : str) :
  exists l r,
    s = l ++ strip s ++ r /\
    Forall (fun c => isspace_cp c = true) l /\
    Forall (fun c => isspace_cp c = true) r /\
    (forall c rest, strip s = c :: rest -> isspace_cp c = false) /\
    (forall c stem, strip s = stem ++ [c] -> isspace_cp c = false).
Proof.
  unfold strip.
  destruct (lstrip_spec s) as [l [Hl [Hwl Hhead]]].
  destruct (rstrip_spec (lstrip s)) as [r [Hr [Hwr Hlast]]].
  exists l, r. repeat split; try assumption.
  - now rewrite <- Hr.
  - intros c rest H. rewrite H in Hr. simpl in Hr. now apply Hhead in Hr.
Qed.

(* ================================================================= *)
(** ** Numeric normalization *)

Lemma decimal_value_nonneg (c : codepoint) (d : Z) :
  decimal_value c = Some d -> (0 <= d)%Z.
Proof.
  unfold decimal_value. destruct (find _ _); [|discriminate].
  intros H. injection H as <-. apply N2Z.is_nonneg.
Qed.

Lemma int_digits_nonneg (s : str) (acc n : Z) :
  (0 <= acc)%Z -> int_digits acc s = Some n -> (0 <= n)%Z.
Proof.
  revert acc; induction s as [|c s IH]; simpl; intros acc Hacc H.
  - now injection H as <-.
  - destruct (decimal_value c) as [d|] eqn:Hd; [|discriminate].
    apply decimal_value_nonneg in Hd. apply (IH (10 * acc + d)%Z); [lia | assumption].
Qed.

(** [int] returns for a string that is not empty, has at most 4300
    characters and consists of decimal digits. *)
Lemma int_some (s : str) (n : Z) :
  int s = Some n <->
  s <> [] /\ (Z.of_nat (length s) <= max_str_digits)%Z /\ int_digits 0 s = Some n.
Proof.
  unfold int. destruct s as [|c s]; [split; [discriminate | now intros [H _]]|].
  destruct (max_str_digits <? _)%Z eqn:E.
  - apply Z.ltb_lt in E. split; [discriminate | intros [_ [H _]]; lia].
  - apply Z.ltb_ge in E. split; [intros H; repeat split; [discriminate | lia | exact H]|].
    now intros [_ [_ H]].
Qed.

Lemma int_none (s : str) :
  int s = None <->
  s = [] \/ (max_str_digits < Z.of_nat (length s))%Z \/ int_digits 0 s = None.
Proof.
  unfold int. destruct s as [|c s]; [split; [now left | reflexivity]|].
  destruct (max_str_digits <? _)%Z eqn:E.
  - apply Z.ltb_lt in E. split; [now right; left | reflexivity].
  - apply Z.ltb_ge in E. split; [now right; right|].
    intros [H | [H | H]]; [discriminate H | lia | exact H].
Qed.

(** [clean_number] has no effect on the outside, and it ends in one of two
    ways: with a number that is not negative, or with a [ValueError]. *)
Lemma clean_number_cases (text : str) :
  (exists n, clean_number text = ret n /\ (0 <= n)%Z)
  \/ clean_number text = raise ValueError.
Proof.
  unfold clean_number.
  destruct (isdigit _); [|left; exists 0%Z; split; [reflexivity | lia]].
  destruct (int _) as [n|] eqn:Hn; [left | now right].
  exists n. split; [reflexivity|].
  apply int_some in Hn as [_ [_ Hn]].
  now apply int_digits_nonneg in Hn.
Qed.

Lemma clean_number_nonneg (text : str) (n : Z) :
  clean_number text = ret n -> (0 <= n)%Z.
Proof.
  intros H. destruct (clean_number_cases text) as [[m [E Hm]] | E];
    rewrite E in H; [|discriminate].
  injection H as <-. assumption.
Qed.

(** Text made of plain and non-breaking spaces only normalizes to zero. *)
Lemma clean_number_blank (text : str) :
  Forall (fun c => c = space \/ c = nbsp) text -> clean_number text = ret 0%Z.
Proof.
  intros H. unfold clean_number.
  assert (E : remove_char space (remove_char nbsp text) = []).
  { induction H as [|c l [-> | ->] _ IH]; simpl; auto. }
  rewrite E. reflexivity.
Qed.

Lemma decimal_value_ascii (c : codepoint) :
  ascii_digit c -> decimal_value c = Some (Z.of_N c - 48)%Z.
Proof.
  intros [H1 H2]. unfold decimal_value, decimal_table. simpl find.
  assert (E1 : (48 <=? c)%N = true) by now apply N.leb_le.
  assert (E2 : (c <=? 57)%N = true) by now apply N.leb_le.
  rewrite E1, E2. simpl. f_equal.
  rewrite N.mod_small by lia. lia.
Qed.

Lemma int_digits_ascii (s : str) (acc : Z) :
  Forall ascii_digit s -> int_digits acc s = Some (decimal acc s).
Proof.
  intros H; revert acc; induction H as [|c s Hc _ IH]; intros acc; simpl.
  - reflexivity.
  - rewrite (decimal_value_ascii Hc). apply IH.
Qed.

Lemma isspace_ascii_digit (c : codepoint) : ascii_digit c -> isspace_cp c = false.
Proof.
  intros [H1 H2]. unfold isspace_cp, in_ranges, whitespace_table. simpl.
  repeat rewrite orb_false_iff. repeat split; try reflexivity;
    apply andb_false_iff;
    ((left; apply N.leb_gt; lia) || (right; apply N.leb_gt; lia)).
Qed.

Lemma isdigit_ascii_digit (c : codepoint) : ascii_digit c -> isdigit_cp c = true.
Proof.
  intros [H1 H2]. unfold isdigit_cp, isdecimal_cp, in_ranges, decimal_table.
  simpl existsb.
  assert (E1 : (48 <=? c)%N = true) by now apply N.leb_le.
  assert (E2 : (c <=? 57)%N = true) by now apply N.leb_le.
  rewrite E1, E2. reflexivity.
Qed.

Lemma lstrip_no_space (s : str) : Forall (fun c => isspace_cp c = false) s -> lstrip s = s.
Proof. intros H. destruct H as [|c s Hc _]; simpl; [reflexivity | now rewrite Hc]. Qed.

Lemma strip_no_space (s : str) : Forall (fun c => isspace_cp c = false) s -> strip s = s.
Proof.
  intros H. unfold strip, rstrip. rewrite (lstrip_no_space H).
  rewrite lstrip_no_space; [apply rev_involutive|].
  apply Forall_forall. intros c Hc. apply in_rev in Hc.
  revert c Hc. now apply Forall_forall.
Qed.

Lemma remove_char_absent (c : codepoint) (s : str) :
  ~ In c s -> remove_char c s = s.
Proof.
  intros H. unfold remove_char. induction s as [|x s IH]; simpl; [reflexivity|].
  destruct (x =? c)%N eqn:E.
  - apply N.eqb_eq in E. subst. exfalso. apply H. now left.
  - simpl. f_equal. apply IH. intros Hin. apply H. now right.
Qed.

(** An already clean decimal string of at most 4300 digits normalizes to
    the number it denotes. *)
Lemma clean_number_decimal (s : str) :
  s <> [] -> (Z.of_nat (length s) <= max_str_digits)%Z -> Forall ascii_digit s ->
  clean_number s = ret (decimal 0 s) /\ (0 <= decimal 0 s)%Z.
Proof.
  intros Hne Hlen H.
  assert (Hsp : Forall (fun c => isspace_cp c = false) s).
  { eapply Forall_impl; [|exact H]. apply isspace_ascii_digit. }
  assert (Hn : ~ In nbsp s).
  { intros Hin. rewrite Forall_forall in H. apply H in Hin.
    unfold ascii_digit, nbsp in Hin. lia. }
  assert (Hs : ~ In space s).
  { intros Hin. rewrite Forall_forall in H. apply H in Hin.
    unfold ascii_digit, space in Hin. lia. }
  assert (E : clean_number s = ret (decimal 0 s)).
  { unfold clean_number.
    rewrite (@remove_char_absent nbsp s Hn), (@remove_char_absent space s Hs).
    rewrite (strip_no_space Hsp).
    assert (Hd : isdigit s = true).
    { unfold isdigit. destruct s; [contradiction|].
      apply forallb_forall. intros x Hx. apply isdigit_ascii_digit.
      rewrite Forall_forall in H. now apply H. }
    rewrite Hd.
    assert (Hi : int s = Some (decimal 0 s))
      by (apply int_some; repeat split; [exact Hne | exact Hlen | now apply int_digits_ascii]).
    now rewrite Hi. }
  split; [exact E | now apply clean_number_nonneg in E].
Qed.

(** The text of a number in decimal is clean, and normalizing it gives
    the number back. *)
Lemma digits_ascii (d : Decimal.uint) :
  Forall ascii_digit (u (NilEmpty.string_of_uint d)).
Proof.
  induction d; try (constructor; [unfold ascii_digit; simpl; lia | exact IHd]).
  constructor.
Qed.

Lemma u_cons_ascii (c : ascii) (s : string) :
  (N_of_ascii c < 0x80)%N -> u (String c s) = N_of_ascii c :: u s.
Proof.
  intros H. unfold u. cbn [list_ascii_of_string map utf8_decode].
  apply N.ltb_lt in H. now rewrite H.
Qed.

Lemma decimal_of_uint_acc (d : Decimal.uint) (p : positive) :
  decimal (Z.pos p) (u (NilEmpty.string_of_uint d)) = Z.pos (Pos.of_uint_acc d p).
Proof.
  revert p; induction d; intros p; try reflexivity;
    cbn [Pos.of_uint_acc NilEmpty.string_of_uint];
    rewrite u_cons_ascii by (cbn; lia); cbn [decimal];
    rewrite <- IHd; f_equal;
    match goal with
    | |- context [Z.of_N (N_of_ascii ?c)] =>
        let v := eval vm_compute in (Z.of_N (N_of_ascii c)) in
        change (Z.of_N (N_of_ascii c)) with v
    end; lia.
Qed.

Lemma decimal_of_uint (d : Decimal.uint) :
  decimal 0 (u (NilEmpty.string_of_uint d)) = Z.of_N (Pos.of_uint d).
Proof.
  induction d; try reflexivity;
    cbn [Pos.of_uint Z.of_N NilEmpty.string_of_uint];
    rewrite u_cons_ascii by (cbn; lia); cbn [decimal];
    try exact IHd; rewrite <- decimal_of_uint_acc; reflexivity.
Qed.

(** A string of [k] digits denotes a number below [10 ^ k], and at least
    [10 ^ (k - 1)] when its first digit is not zero. *)
Lemma decimal_value_digit (c : codepoint) (d : Z) :
  decimal_value c = Some d -> (0 <= d <= 9)%Z.
Proof.
  unfold decimal_value. destruct (find _ _) as [r|]; [|discriminate].
  intros H. injection H as <-.
  pose proof (N.mod_lt (c - fst r) 10 ltac:(discriminate)) as Hm.
  set (x := ((c - fst r) mod 10)%N) in *. clearbody x. lia.
Qed.

Lemma int_digits_upper (s : str) (acc n : Z) :
  (0 <= acc)%Z -> int_digits acc s = Some n ->
  (n < (acc + 1) * 10 ^ Z.of_nat (length s))%Z.
Proof.
  revert acc; induction s as [|c s IH]; intros acc Hacc H.
  - cbn [int_digits] in H. injection H as <-. cbn [length].
    change (10 ^ Z.of_nat 0)%Z with 1%Z. lia.
  - cbn [int_digits] in H. destruct (decimal_value c) as [d|] eqn:Hd; [|discriminate].
    apply decimal_value_digit in Hd.
    apply IH in H; [|lia].
    cbn [length]. rewrite Nat2Z.inj_succ, Z.pow_succ_r by lia.
    assert (0 < 10 ^ Z.of_nat (length s))%Z by (apply Z.pow_pos_nonneg; lia).
    nia.
Qed.

Lemma decimal_lower (s : str) (acc : Z) :
  Forall ascii_digit s -> (0 <= acc)%Z ->
  (acc * 10 ^ Z.of_nat (length s) <= decimal acc s)%Z.
Proof.
  intros H; revert acc; induction H as [|c s [H1 H2] _ IH]; intros acc Hacc.
  - cbn [length decimal]. change (10 ^ Z.of_nat 0)%Z with 1%Z. lia.
  - cbn [length decimal]. rewrite Nat2Z.inj_succ, Z.pow_succ_r by lia.
    specialize (IH (10 * acc + (Z.of_N c - 48))%Z ltac:(lia)).
    assert (0 <= 10 ^ Z.of_nat (length s))%Z by (apply Z.pow_nonneg; lia).
    nia.
Qed.

(** The numeral of a positive number does not start with a zero. *)
Lemma to_uint_head (p : positive) :
  Decimal.nzhead (Pos.to_uint p) = Pos.to_uint p.
Proof.
  pose proof (Unsigned.to_of (Pos.to_uint p)) as H.
  rewrite Unsigned.of_to in H. cbn [N.to_uint] in H.
  pose proof (Unsigned.to_uint_nonzero p) as Hz.
  unfold Decimal.unorm in H. destruct (Decimal.nzhead (Pos.to_uint p)) eqn:E;
    try (symmetry; exact H).
  exfalso. apply Hz. exact H.
Qed.

(** A number below [10 ^ k] has a numeral of at most [k] digits. *)
Lemma of_int_length (n : Z) (k : nat) :
  (0 <= n < 10 ^ Z.of_nat k)%Z -> (1 <= k)%nat -> (length (of_int n) <= k)%nat.
Proof.
  intros [H0 Hk] H1. destruct n as [|p|p]; [cbn; lia | | lia].
  unfold of_int. cbn [Z.to_int NilZero.string_of_int].
  pose proof (Unsigned.to_uint_nonnil p) as Hnil.
  pose proof (to_uint_head p) as Hh.
  pose proof (decimal_of_uint (Pos.to_uint p)) as Hv.
  rewrite Unsigned.of_to in Hv. cbn [Z.of_N] in Hv.
  pose proof (digits_ascii (Pos.to_uint p)) as Hd.
  destruct (Pos.to_uint p) as [|d|d|d|d|d|d|d|d|d|d] eqn:E; [contradiction| ..];
    unfold NilZero.string_of_uint.
  1: { exfalso. cbn [Decimal.nzhead] in Hh. pose proof (nb_digits_nzhead d) as Hn'.
       rewrite Hh in Hn'. cbn [Decimal.nb_digits] in Hn'. lia. }
  all: cbn [NilEmpty.string_of_uint] in *;
    rewrite u_cons_ascii in * by (cbn; lia);
    apply Forall_inv_tail in Hd; cbn [decimal] in Hv;
    match type of Hv with
    | context [Z.of_N (N_of_ascii ?c)] =>
        let v := eval vm_compute in (Z.of_N (N_of_ascii c)) in
        change (Z.of_N (N_of_ascii c)) with v in Hv
    end;
    match type of Hv with
    | decimal ?a ?s = _ => pose proof (@decimal_lower s a Hd ltac:(lia)) as Hl
    end;
    cbn [length];
    set (L := length (u (NilEmpty.string_of_uint d))) in *;
    assert (10 ^ Z.of_nat L < 10 ^ Z.of_nat k)%Z
      by (assert (0 < 10 ^ Z.of_nat L)%Z by (apply Z.pow_pos_nonneg; lia); nia);
    assert (Z.of_nat L < Z.of_nat k)%Z by (apply (Z.pow_lt_mono_r_iff 10); lia);
    lia.
Qed.

Lemma of_int_value (n : Z) :
  (0 <= n)%Z ->
  of_int n <> [] /\ Forall ascii_digit (of_int n) /\ decimal 0 (of_int n) = n.
Proof.
  intros Hn. destruct n as [|p|p]; [| | lia].
  - repeat split; [discriminate|].
    repeat constructor; unfold ascii_digit; cbn; lia.
  - unfold of_int. cbn [Z.to_int NilZero.string_of_int].
    pose proof (Unsigned.to_uint_nonnil p) as Hnil.
    pose proof (decimal_of_uint (Pos.to_uint p)) as Hv.
    rewrite Unsigned.of_to in Hv. cbn [Z.of_N] in Hv.
    pose proof (digits_ascii (Pos.to_uint p)) as Hd.
    destruct (Pos.to_uint p) as [|d|d|d|d|d|d|d|d|d|d] eqn:E; [contradiction| ..];
      unfold NilZero.string_of_uint; (repeat split; [|exact Hd | exact Hv]);
      cbn [NilEmpty.string_of_uint]; rewrite u_cons_ascii by (cbn; lia);
      discriminate.
Qed.

(** [str] and the f-strings accept a number that is not negative exactly
    when it is below [10 ^ 4300], and give its numeral. *)
Lemma str_of_int_some (n : Z) :
  (0 <= n)%Z ->
  (str_of_int n = Some (of_int n) <-> (n < 10 ^ max_str_digits)%Z) /\
  (str_of_int n = None <-> (10 ^ max_str_digits <= n)%Z).
Proof.
  intros Hn. destruct (of_int_value Hn) as [Hne [Hd Hv]].
  unfold str_of_int. rewrite (Z.abs_eq n Hn).
  destruct (max_str_digits <? _)%Z eqn:E.
  - apply Z.ltb_lt in E.
    assert (Hge : (10 ^ max_str_digits <= n)%Z).
    { destruct (of_int n) as [|c s] eqn:Es; [contradiction|].
      cbn [decimal] in Hv. apply Forall_inv in Hd as Hc. apply Forall_inv_tail in Hd.
      destruct (Z.lt_ge_cases n (10 ^ max_str_digits)) as [Hlt|]; [|assumption].
      exfalso.
      assert (Hl : (length (of_int n) <= 4300)%nat).
      { apply of_int_length; [|lia]. split; [exact Hn|].
        replace (Z.of_nat 4300) with max_str_digits by reflexivity. exact Hlt. }
      rewrite Es in Hl. unfold max_str_digits in E. lia. }
    split; split; try discriminate; intros; try assumption; try reflexivity; lia.
  - apply Z.ltb_ge in E.
    assert (Hlt : (n < 10 ^ max_str_digits)%Z).
    { rewrite <- Hv at 1.
      pose proof (@int_digits_upper (of_int n) 0 (decimal 0 (of_int n))
                    ltac:(lia) (int_digits_ascii 0 Hd)) as Hu.
      assert (10 ^ Z.of_nat (length (of_int n)) <= 10 ^ max_str_digits)%Z
        by (apply Z.pow_le_mono_r; lia).
      lia. }
    split; split; try discriminate; intros; try assumption; try reflexivity; lia.
Qed.

Lemma str_of_int_inv (n : Z) (s : str) : str_of_int n = Some s -> s = of_int n.
Proof.
  unfold str_of_int. destruct (_ <? _)%Z; [discriminate|].
  intros H. now injection H.
Qed.

Lemma clean_number_of_int (n : Z) :
  (0 <= n < 10 ^ max_str_digits)%Z -> clean_number (of_int n) = ret n.
Proof.
  intros [Hn Hlt]. destruct (of_int_value Hn) as [Hne [Hd Hv]].
  assert (Hl : (length (of_int n) <= 4300)%nat).
  { apply of_int_length; [|lia]. split; [exact Hn|].
    replace (Z.of_nat 4300) with max_str_digits by reflexivity. exact Hlt. }
  destruct (@clean_number_decimal (of_int n) Hne) as [Hc _];
    [unfold max_str_digits; lia | exact Hd |].
  now rewrite Hc, Hv.
Qed.

(** What [clean_number] returns can be converted back to text. *)
Lemma clean_number_fits (text : str) (n : Z) :
  clean_number text = ret n -> str_of_int n = Some (of_int n).
Proof.
  intros H. pose proof (clean_number_nonneg _ H) as Hn.
  apply str_of_int_some; [exact Hn|].
  unfold clean_number in H. destruct (isdigit _).
  - destruct (int _) as [m|] eqn:Hm; [|discriminate]. injection H as ->.
    apply int_some in Hm as [_ [Hl Hm]].
    pose proof (@int_digits_upper _ 0 n ltac:(lia) Hm) as Hu.
    match type of Hu with
    | context [length ?t] =>
        assert (10 ^ Z.of_nat (length t) <= 10 ^ max_str_digits)%Z
          by (apply Z.pow_le_mono_r; lia)
    end.
    lia.
  - injection H as <-. apply Z.pow_pos_nonneg; unfold max_str_digits; lia.
Qed.

Example clean_number_examples :
  clean_number (u "1 234") = ret 1234%Z /\
  clean_number (u "007") = ret 7%Z /\
  clean_number (u "12a") = ret 0%Z /\
  clean_number (u "") = ret 0%Z /\
  clean_number [49; nbsp; 50; 51; 52]%N = ret 1234%Z.
Proof. repeat split; reflexivity. Qed.

(** C4.  The specification says that [clean_number] never raises.  The guard
    [t.isdigit()] accepts the superscript two, which [int(t)] rejects: on
    that text the function ends with a [ValueError] instead of a number. *)
Theorem clean_number_raises_on_superscript_digit :
  isdigit (u "²") = true /\
  int (u "²") = None /\
  clean_number (u "²") = raise ValueError.
Proof. repeat split; reflexivity. Qed.

(* ================================================================= *)
(** ** Command-line validation *)

Lemma snoc_unit {A} (a t : A) (pre : list A) :
  [a] = pre ++ [t] -> pre = [] /\ a = t.
Proof.
  destruct pre as [|x [|y pre]]; simpl; intros H.
  - now injection H.
  - discriminate.
  - discriminate.
Qed.

Lemma snoc_pair {A} (a b t : A) (pre : list A) :
  [a; b] = pre ++ [t] -> b = t.
Proof.
  destruct pre as [|x [|y [|z pre]]]; simpl; intros H; try discriminate.
  now injection H.
Qed.

Lemma lower_cp_nonempty (x : codepoint) : lower_cp x <> [].
Proof.
  unfold lower_cp.
  repeat match goal with
         | |- context [if ?b then _ else _] => destruct b
         end; discriminate.
Qed.

(** Only the four characters themselves and the capitals C, S, V become
    [.], [c], [s] or [v] in lower case. *)
Lemma lower_cp_ends (x t : codepoint) (pre : str) :
  In t [46; 99; 115; 118]%N -> lower_cp x = pre ++ [t] ->
  pre = [] /\ (x = t \/ (t <> 46 /\ x + 32 = t))%N.
Proof.
  intros Ht. unfold lower_cp.
  destruct ((0x41 <=? x)%N && (x <=? 0x5A)%N) eqn:E1.
  { intros H. apply snoc_unit in H as [-> H]. split; [reflexivity|].
    apply andb_true_iff in E1 as [A B]. apply N.leb_le in A, B.
    right. split; [|assumption]. lia. }
  destruct ((0xC0 <=? x)%N && (x <=? 0xDE)%N && negb (x =? 0xD7)%N) eqn:E2.
  { intros H. apply snoc_unit in H as [-> H].
    apply andb_true_iff in E2 as [E2 _]. apply andb_true_iff in E2 as [A B].
    apply N.leb_le in A, B. simpl in Ht. lia. }
  destruct (x =? 0x130)%N eqn:E3.
  { intros H. apply snoc_pair in H. simpl in Ht. lia. }
  destruct (x =? 0x178)%N eqn:E4.
  { intros H. apply snoc_unit in H as [-> H]. simpl in Ht. lia. }
  match goal with
  | |- context [if ?b then _ else _] => destruct b eqn:E5
  end.
  { intros H. apply snoc_unit in H as [-> H].
    apply andb_true_iff in E5 as [E5 _].
    repeat rewrite orb_true_iff in E5. repeat rewrite andb_true_iff in E5.
    repeat rewrite N.leb_le in E5. simpl in Ht. lia. }
  match goal with
  | |- context [if ?b then _ else _] => destruct b eqn:E6
  end.
  { intros H. apply snoc_unit in H as [-> H].
    apply andb_true_iff in E6 as [E6 _].
    repeat rewrite orb_true_iff in E6. repeat rewrite andb_true_iff in E6.
    repeat rewrite N.leb_le in E6. simpl in Ht. lia. }
  intros H. apply snoc_unit in H as [-> H]. split; [reflexivity | now left].
Qed.

Lemma lower_app (a b : str) : lower (a ++ b) = lower a ++ lower b.
Proof. apply flat_map_app. Qed.

Lemma lower_snoc_inv (s stem : str) (t : codepoint) :
  In t [46; 99; 115; 118]%N -> lower s = stem ++ [t] ->
  exists s0 x, s = s0 ++ [x] /\ lower s0 = stem /\
               (x = t \/ (t <> 46 /\ x + 32 = t))%N.
Proof.
  intros Ht H. destruct (rev s) as [|x r] eqn:Hr.
  - apply (f_equal (@rev _)) in Hr. rewrite rev_involutive in Hr. subst s.
    simpl in H. destruct stem; discriminate.
  - apply (f_equal (@rev _)) in Hr. rewrite rev_involutive in Hr. simpl in Hr.
    subst s. rewrite lower_app in H. simpl in H. rewrite app_nil_r in H.
    destruct (exists_last (@lower_cp_nonempty x)) as [q [l Hq]].
    rewrite Hq, app_assoc in H. apply app_inj_tail in H as [H1 H2]. subst l.
    destruct (@lower_cp_ends x t q Ht Hq) as [-> Hx].
    rewrite app_nil_r in H1. now exists (rev r), x.
Qed.

Lemma lower_endswith_csv (s : str) :
  endswith (lower s) (u ".csv") = true <-> ends_with_csv_ci s.
Proof.
  rewrite endswith_spec. split.
  - intros [stem H]. change (u ".csv") with [46; 99; 115; 118]%N in H.
    change (stem ++ [46; 99; 115; 118]%N)
      with (stem ++ [46; 99; 115]%N ++ [118]%N) in H.
    rewrite app_assoc in H.
    apply lower_snoc_inv in H as [s3 [c3 [-> [H Hc3]]]]; [|simpl; tauto].
    change (stem ++ [46; 99; 115]%N) with (stem ++ [46; 99]%N ++ [115]%N) in H.
    rewrite app_assoc in H.
    apply lower_snoc_inv in H as [s2 [c2 [-> [H Hc2]]]]; [|simpl; tauto].
    change (stem ++ [46; 99]%N) with (stem ++ [46]%N ++ [99]%N) in H.
    rewrite app_assoc in H.
    apply lower_snoc_inv in H as [s1 [c1 [-> [H Hc1]]]]; [|simpl; tauto].
    apply lower_snoc_inv in H as [s0 [d [-> [H Hd]]]]; [|simpl; tauto].
    exists s0, d, c1, c2, c3. repeat rewrite <- app_assoc. simpl.
    split; [reflexivity|]. repeat split; lia.
  - intros [stem [d [c1 [c2 [c3 [-> [-> [H1 [H2 H3]]]]]]]]].
    exists (lower stem). rewrite lower_app.
    destruct H1 as [-> | ->], H2 as [-> | ->], H3 as [-> | ->]; reflexivity.
Qed.

Lemma bind_die {A B} (msg : str) (f : A -> M B) : bind (die msg) f = die msg.
Proof. reflexivity. Qed.

Lemma parse_args_ret (argv : list str) (url out_csv : str) :
  parse_args argv = ret (url, out_csv) <-> accepts argv url out_csv.
Proof.
  unfold parse_args, accepts. rewrite !if_negb. split.
  - destruct (length argv =? 3)%nat eqn:Hlen; [|intros H; discriminate H].
    apply Nat.eqb_eq in Hlen.
    destruct argv as [|prog [|a1 [|a2 [|? ?]]]]; try discriminate Hlen.
    cbn [nth].
    destruct (startswith (strip a1) (u "http://") || startswith (strip a1) (u "https://"))
      eqn:E1; [|intros H; discriminate H].
    destruct (contains (u "volby.cz") (strip a1)) eqn:E2; [|intros H; discriminate H].
    destruct (endswith (lower (strip a2)) (u ".csv")) eqn:E3; [|intros H; discriminate H].
    intros H. injection H as <- <-. exists prog, a1, a2.
    repeat split.
    + apply orb_true_iff in E1 as [E1 | E1]; apply startswith_spec in E1; auto.
    + now apply contains_spec.
    + now apply lower_endswith_csv.
  - intros [prog [a1 [a2 [-> [-> [-> [Hp [Hc He]]]]]]]]. cbn [length nth Nat.eqb].
    assert (E1 : startswith (strip a1) (u "http://")
                 || startswith (strip a1) (u "https://") = true).
    { apply orb_true_iff.
      destruct Hp as [Hp | Hp]; [left | right]; now apply startswith_spec. }
    assert (E2 : contains (u "volby.cz") (strip a1) = true)
      by now apply contains_spec.
    assert (E3 : endswith (lower (strip a2)) (u ".csv") = true)
      by now apply lower_endswith_csv.
    rewrite E1, E2, E3. reflexivity.
Qed.

Lemma parse_args_cases (argv : list str) :
  (exists url out_csv, parse_args argv = ret (url, out_csv))
  \/ exists msg, parse_args argv = die msg.
Proof.
  unfold parse_args.
  repeat match goal with
         | |- context [if ?b then _ else _] => destruct b
         end; eauto.
Qed.

(** C9.  [parse_args] returns exactly for a program name and two arguments
    that, once stripped, are a URL starting with [http://] or [https://]
    that contains [volby.cz] somewhere, and a path ending in [.csv] in any
    case; it then returns the stripped pair.  For every other [argv] the
    process prints a message and exits with status 1, and [main] has made
    no request. *)
Theorem parse_args_validation (W : world) (argv : list str) :
  (forall url out_csv,
      parse_args argv = ret (url, out_csv) <-> accepts argv url out_csv) /\
  ((forall url out_csv, ~ accepts argv url out_csv) ->
   exists msg,
     parse_args argv = die msg /\
     main W argv = die msg /\
     exit_status (main W argv) = 1%Z /\
     filter is_get (fst (main W argv)) = []).
Proof.
  split; [intros; apply parse_args_ret|].
  intros Hno. destruct (parse_args_cases argv) as [[url [out E]] | [msg E]].
  - apply parse_args_ret in E. now apply Hno in E.
  - exists msg. split; [assumption|].
    assert (Em : main W argv = die msg).
    { unfold main. rewrite E. apply bind_die. }
    rewrite Em. repeat split; reflexivity.
Qed.

Lemma parse_args_validation_witness :
  (parse_args Sample.argv = ret (Sample.base, u "out.csv")) /\
  exists msg,
    parse_args [u "main.py"; u "ftp://volby.cz/ps32"; u "out.csv"] = die msg /\
    main Sample.web [u "main.py"; u "ftp://volby.cz/ps32"; u "out.csv"] = die msg /\
    exit_status (main Sample.web [u "main.py"; u "ftp://volby.cz/ps32"; u "out.csv"]) = 1%Z /\
    filter is_get (fst (main Sample.web [u "main.py"; u "ftp://volby.cz/ps32"; u "out.csv"])) = [].
Proof.
  split.
  - vm_compute. reflexivity.
  - apply (proj2 (parse_args_validation Sample.web
                    [u "main.py"; u "ftp://volby.cz/ps32"; u "out.csv"])).
    intros url out_csv Hacc.
    apply (proj1 (parse_args_validation Sample.web
                    [u "main.py"; u "ftp://volby.cz/ps32"; u "out.csv"])
                 url out_csv) in Hacc.
    vm_compute in Hacc. discriminate Hacc.
Defined.

(* ================================================================= *)
(** ** The Municipality Locator *)

Lemma collect_link_entries (W : world) (base_url : str)
    (acc : list municipality) (link : node * list node) :
  collect_link W base_url acc link = acc ++ entries W base_url link.
Proof.
  destruct link as [a anc].
  unfold collect_link, entries, link_entry, retained, link_href. cbn [fst snd].
  rewrite !if_negb.
  destruct (contains _ _); cbn [andb]; [|now rewrite app_nil_r].
  destruct (isdigit _); [|now rewrite app_nil_r].
  destruct (find_parent _ _) as [tr|]; [|now rewrite app_nil_r].
  destruct (length (find_all [u "td"] tr)) as [|[|n]]; cbn [Nat.ltb Nat.leb];
    try now rewrite app_nil_r.
  reflexivity.
Qed.

Lemma collect_from (W : world) (base_url : str)
    (links : list (node * list node)) (acc : list municipality) :
  fold_left (collect_link W base_url) links acc
  = acc ++ flat_map (entries W base_url) links.
Proof.
  revert acc; induction links as [|l links IH]; intros acc; simpl.
  - now rewrite app_nil_r.
  - rewrite IH, collect_link_entries. now rewrite app_assoc.
Qed.


(* ================================================================= *)
(** ** Facts about dicts *)

Lemma get_set_same {V} (d : Dict.t V) (k : str) (v : V) :
  Dict.get (Dict.set d k v) k = Some v.
Proof.
  induction d as [|[k' v'] d IH]; simpl.
  - now rewrite eqb_refl.
  - destruct (PyStr.eqb k' k) eqn:E; simpl; rewrite E; [reflexivity | exact IH].
Qed.

Lemma get_set_other {V} (d : Dict.t V) (k k0 : str) (v : V) :
  k0 <> k -> Dict.get (Dict.set d k v) k0 = Dict.get d k0.
Proof.
  intros Hne. induction d as [|[k' v'] d IH]; simpl.
  - assert (E : PyStr.eqb k k0 = false) by (apply eqb_neq; congruence).
    now rewrite E.
  - destruct (PyStr.eqb k' k) eqn:E; simpl.
    + apply eqb_eq in E. subst k'.
      assert (E : PyStr.eqb k k0 = false) by (apply eqb_neq; congruence).
      now rewrite E.
    + destruct (PyStr.eqb k' k0); [reflexivity | exact IH].
Qed.

Lemma mem_In_keys {V} (d : Dict.t V) (k : str) :
  Dict.mem k d = true <-> In k (Dict.keys d).
Proof.
  unfold Dict.mem. induction d as [|[k' v'] d IH]; simpl.
  - split; [discriminate | contradiction].
  - destruct (PyStr.eqb k' k) eqn:E.
    + apply eqb_eq in E. split; auto.
    + apply eqb_neq in E. rewrite IH. split; [auto | intros [H | H]; [contradiction | exact H]].
Qed.

(** Assigning to a key leaves the keys as they are when the key is there,
    and puts it last when it is new. *)
Lemma keys_set {V} (d : Dict.t V) (k : str) (v : V) :
  Dict.keys (Dict.set d k v)
  = if Dict.mem k d then Dict.keys d else Dict.keys d ++ [k].
Proof.
  unfold Dict.mem. induction d as [|[k' v'] d IH]; simpl.
  - reflexivity.
  - destruct (PyStr.eqb k' k) eqn:E; simpl; [reflexivity|].
    rewrite IH. now destruct (Dict.get d k).
Qed.

Lemma NoDup_keys_set {V} (d : Dict.t V) (k : str) (v : V) :
  NoDup (Dict.keys d) -> NoDup (Dict.keys (Dict.set d k v)).
Proof.
  intros H. rewrite keys_set. destruct (Dict.mem k d) eqn:E; [assumption|].
  apply NoDup_app; [assumption | repeat constructor; auto |].
  intros x Hx [<- | []].
  apply mem_In_keys in Hx. congruence.
Qed.

Lemma In_get {V} (d : Dict.t V) (k : str) (v : V) :
  NoDup (Dict.keys d) -> In (k, v) d -> Dict.get d k = Some v.
Proof.
  induction d as [|[k' v'] d IH]; simpl; intros Hnd Hin; [contradiction|].
  inversion Hnd as [|? ? Hk' Hnd']; subst.
  destruct Hin as [H | H].
  - injection H as -> ->. now rewrite eqb_refl.
  - destruct (PyStr.eqb k' k) eqn:E.
    + apply eqb_eq in E. subst k'. exfalso. apply Hk'.
      change k with (fst (k, v)). now apply in_map.
    + now apply IH.
Qed.

(* ================================================================= *)
(** ** Deduplication by code *)

Lemma In_first_seen (l : list str) (x : str) : In x (first_seen l) <-> In x l.
Proof.
  induction l as [|c l IH]; simpl; [tauto|].
  rewrite filter_In, IH, negb_true_iff, eqb_neq.
  destruct (str_eq_dec c x) as [-> | Hne]; [tauto|].
  split; [tauto|]. intros [H | H]; [contradiction|]. right. split; congruence.
Qed.

Lemma first_seen_snoc (l : list str) (c : str) :
  first_seen (l ++ [c])
  = if existsb (PyStr.eqb c) l then first_seen l else first_seen l ++ [c].
Proof.
  induction l as [|x l IH]; simpl; [reflexivity|].
  rewrite IH. destruct (PyStr.eqb c x) eqn:E; simpl.
  - apply eqb_eq in E. subst x.
    destruct (existsb (PyStr.eqb c) l); [reflexivity|].
    rewrite filter_app. simpl. rewrite eqb_refl. simpl. now rewrite app_nil_r.
  - destruct (existsb (PyStr.eqb c) l); [reflexivity|].
    rewrite filter_app. simpl. rewrite E. reflexivity.
Qed.

Lemma unique_by_code_snoc (ms : list municipality) (m : municipality) :
  unique_by_code (ms ++ [m]) = Dict.set (unique_by_code ms) (code m) m.
Proof. unfold unique_by_code. now rewrite fold_left_app. Qed.

(** The keys of [unique] are the codes in first-seen order. *)
Lemma unique_keys (ms : list municipality) :
  Dict.keys (unique_by_code ms) = first_seen (map code ms).
Proof.
  induction ms as [|m ms IH] using rev_ind; [reflexivity|].
  rewrite unique_by_code_snoc, keys_set, map_app. cbn [map].
  rewrite first_seen_snoc, IH.
  destruct (Dict.mem (code m) (unique_by_code ms)) eqn:E.
  - apply mem_In_keys in E. rewrite IH, In_first_seen in E.
    apply existsb_eqb_In in E. now rewrite E.
  - destruct (existsb (PyStr.eqb (code m)) (map code ms)) eqn:E'; [|reflexivity].
    apply existsb_eqb_In in E'. rewrite <- In_first_seen, <- IH in E'.
    apply mem_In_keys in E'. congruence.
Qed.

Lemma unique_NoDup (ms : list municipality) :
  NoDup (Dict.keys (unique_by_code ms)).
Proof.
  induction ms as [|m ms IH] using rev_ind; [constructor|].
  rewrite unique_by_code_snoc. now apply NoDup_keys_set.
Qed.

(** The value kept under a code is the last entry with that code. *)
Lemma unique_get (ms : list municipality) (c : str) :
  Dict.get (unique_by_code ms) c = last_with_code c ms.
Proof.
  unfold last_with_code.
  induction ms as [|m ms IH] using rev_ind; [reflexivity|].
  rewrite unique_by_code_snoc, rev_unit. simpl.
  destruct (PyStr.eqb (code m) c) eqn:E.
  - apply eqb_eq in E. subst c. apply get_set_same.
  - rewrite get_set_other; [exact IH|]. apply eqb_neq in E. congruence.
Qed.

Lemma unique_entries (ms : list municipality) :
  Forall (fun kv => code (snd kv) = fst kv) (unique_by_code ms).
Proof.
  induction ms as [|m ms IH] using rev_ind; [constructor|].
  rewrite unique_by_code_snoc.
  induction IH as [|[k v] d Hkv Hd IHd]; simpl.
  - repeat constructor.
  - destruct (PyStr.eqb k (code m)) eqn:E.
    + apply eqb_eq in E. constructor; [now simpl | assumption].
    + constructor; assumption.
Qed.

Lemma unique_values_codes (ms : list municipality) :
  map code (Dict.values (unique_by_code ms)) = Dict.keys (unique_by_code ms).
Proof.
  unfold Dict.values, Dict.keys. rewrite map_map.
  apply map_ext_in. intros kv Hin.
  pose proof (unique_entries ms) as H. rewrite Forall_forall in H. now apply H.
Qed.

Lemma unique_nonempty (ms : list municipality) :
  ms <> [] -> Dict.values (unique_by_code ms) <> [].
Proof.
  intros Hne E. apply (f_equal (map code)) in E.
  rewrite unique_values_codes, unique_keys in E.
  destruct ms as [|m ms]; [contradiction | discriminate].
Qed.

(** C3.  When the first loop found at least one entry, the Locator
    returns, and its list has as many entries as there are distinct codes;
    the codes come in the order in which they were first seen, and the
    entry kept for a code is the last one seen with it. *)
Theorem find_municipalities_dedup (W : world) (district_soup : node)
    (base_url : str) :
  collect_municipalities W district_soup base_url <> [] ->
  exists result,
    find_municipalities W district_soup base_url = ret result /\
    length result
    = length (nodup str_eq_dec
                (map code (collect_municipalities W district_soup base_url))) /\
    map code result
    = first_seen (map code (collect_municipalities W district_soup base_url)) /\
    forall m, In m result ->
      last_with_code (code m) (collect_municipalities W district_soup base_url)
      = Some m.
Proof.
  intros Hne. set (ms := collect_municipalities W district_soup base_url) in *.
  exists (Dict.values (unique_by_code ms)).
  assert (Hcodes : map code (Dict.values (unique_by_code ms))
                   = first_seen (map code ms)).
  { now rewrite unique_values_codes, unique_keys. }
  split; [|split; [|split]].
  - unfold find_municipalities. fold ms.
    pose proof (unique_nonempty Hne) as Hv.
    destruct (Dict.values (unique_by_code ms)); [contradiction | reflexivity].
  - rewrite <- (length_map code), Hcodes.
    apply Permutation_length, NoDup_Permutation.
    + rewrite <- unique_keys. apply unique_NoDup.
    + apply NoDup_nodup.
    + intros x. now rewrite In_first_seen, nodup_In.
  - exact Hcodes.
  - intros m Hin. rewrite <- unique_get.
    unfold Dict.values in Hin. apply in_map_iff in Hin as [[k v] [Hv Hin]].
    simpl in Hv. subst v.
    pose proof (unique_entries ms) as H. rewrite Forall_forall in H.
    specialize (H _ Hin). simpl in H. subst k.
    apply In_get; [apply unique_NoDup | assumption].
Qed.

Lemma find_municipalities_dedup_witness :
  exists result,
    find_municipalities Sample.web Sample.district_page_dup Sample.base = ret result /\
    length result
    = length (nodup str_eq_dec
                (map code (collect_municipalities Sample.web Sample.district_page_dup
                                                  Sample.base))) /\
    map code result
    = first_seen (map code (collect_municipalities Sample.web Sample.district_page_dup
                                                   Sample.base)) /\
    forall m, In m result ->
      last_with_code (code m)
        (collect_municipalities Sample.web Sample.district_page_dup Sample.base)
      = Some m.
Proof.
  apply find_municipalities_dedup. vm_compute. discriminate.
Defined.

Example dedup_sample :
  find_municipalities Sample.web Sample.district_page_dup Sample.base
  = ret [ Municipality (u "500054") (u "Alfa II")
            (u "https://www.volby.cz/pls/ps2017nss/ps311?xobec=500054");
          Municipality (u "500062") (u "Beta")
            (u "https://www.volby.cz/pls/ps2017nss/ps311?xobec=500062") ].
Proof. vm_compute. reflexivity. Qed.

(* ================================================================= *)
(** ** Building and writing a row *)

(** Assigning the values [f k] to a list of keys in turn. *)
Lemma keys_fold_set {V} (f : str -> V) (ks : list str) (d : Dict.t V) (k : str) :
  In k (Dict.keys (fold_left (fun out k => Dict.set out k (f k)) ks d)) ->
  In k (Dict.keys d) \/ In k ks.
Proof.
  revert d; induction ks as [|k0 ks IH]; intros d; simpl; [tauto|].
  intros H. apply IH in H as [H | H]; [|tauto].
  rewrite keys_set in H.
  destruct (Dict.mem k0 d); [tauto|].
  apply in_app_or in H as [H | [H | []]]; tauto.
Qed.

Lemma get_fold_set_in {V} (f : str -> V) (ks : list str) (d : Dict.t V) (k : str) :
  In k ks ->
  Dict.get (fold_left (fun out k => Dict.set out k (f k)) ks d) k = Some (f k).
Proof.
  revert d; induction ks as [|k0 ks IH] using rev_ind; intros d Hin;
    [contradiction|].
  rewrite fold_left_app. simpl.
  destruct (str_eq_dec k k0) as [-> | Hne]; [apply get_set_same|].
  rewrite get_set_other by assumption. apply IH.
  apply in_app_or in Hin as [H | [H | []]]; [assumption | congruence].
Qed.

Lemma get_fold_set_out {V} (f : str -> V) (ks : list str) (d : Dict.t V) (k : str) :
  ~ In k ks ->
  Dict.get (fold_left (fun out k => Dict.set out k (f k)) ks d) k = Dict.get d k.
Proof.
  revert d; induction ks as [|k0 ks IH]; intros d Hin; simpl; [reflexivity|].
  rewrite IH by (intros H; apply Hin; now right).
  apply get_set_other. intros ->. apply Hin. now left.
Qed.

Lemma out_dict_keys (r : row) (party_cols : list str) (k : str) :
  In k (Dict.keys (out_dict r party_cols)) -> In k (fixed_columns ++ party_cols).
Proof.
  unfold out_dict. intros H. apply in_or_app.
  apply keys_fold_set in H as [H | H]; [left | now right].
  apply (keys_fold_set (row_get r)) in H as [[] | H]. exact H.
Qed.

(** The value [out] holds for a party column. *)
Lemma out_dict_party (r : row) (party_cols : list str) (p : str) :
  In p party_cols ->
  Dict.get (out_dict r party_cols) p
  = Some (VInt (Dict.get_default (_party_votes r) p 0%Z)).
Proof.
  intros H. unfold out_dict.
  now rewrite (get_fold_set_in (fun p => VInt (Dict.get_default (_party_votes r) p 0%Z))).
Qed.

(** The value [out] holds for a fixed column that is not also the name of
    a party column. *)
Lemma out_dict_fixed (r : row) (party_cols : list str) (k : str) :
  In k fixed_columns -> ~ In k party_cols ->
  Dict.get (out_dict r party_cols) k = Some (row_get r k).
Proof.
  intros Hk Hn. unfold out_dict.
  rewrite (get_fold_set_out (fun p => VInt (Dict.get_default (_party_votes r) p 0%Z)))
    by assumption.
  now apply (get_fold_set_in (row_get r)).
Qed.

Lemma dict_to_list_ok (r : row) (party_cols : list str) :
  dict_to_list (fixed_columns ++ party_cols) (out_dict r party_cols)
  = Ret (map (fun k => Dict.get_default (out_dict r party_cols) k (VStr []))
             (fixed_columns ++ party_cols)).
Proof.
  unfold dict_to_list.
  assert (E : forallb (fun k => existsb (PyStr.eqb k) (fixed_columns ++ party_cols))
                      (Dict.keys (out_dict r party_cols)) = true).
  { apply forallb_forall. intros k Hk. apply existsb_eqb_In.
    now apply out_dict_keys in Hk. }
  now rewrite E.
Qed.

(** The cells of a row: five for the fixed columns, then one per party
    column holding [votes.get(p, 0)]. *)
Lemma row_cells (r : row) (party_cols : list str) :
  exists fixed_cells,
    length fixed_cells = 5%nat /\
    dict_to_list (fixed_columns ++ party_cols) (out_dict r party_cols)
    = Ret (fixed_cells
           ++ map (fun p => VInt (Dict.get_default (_party_votes r) p 0%Z))
                  party_cols).
Proof.
  exists (map (fun k => Dict.get_default (out_dict r party_cols) k (VStr []))
              fixed_columns).
  split; [reflexivity|].
  rewrite dict_to_list_ok, map_app. do 2 f_equal.
  apply map_ext_in. intros p Hp. unfold Dict.get_default at 1.
  now rewrite out_dict_party.
Qed.

(** The writer accepts the cells of a row whose numbers it can convert. *)
Lemma to_strs_ok (cells : list value) :
  Forall (fun v => to_str v = Some (cell_text v)) cells ->
  to_strs cells = Some (map cell_text cells).
Proof.
  induction 1 as [|v cells Hv _ IH]; [reflexivity|].
  cbn [to_strs map]. now rewrite Hv, IH.
Qed.

Lemma to_strs_some (cells : list value) (texts : list str) :
  to_strs cells = Some texts -> texts = map cell_text cells.
Proof.
  revert texts; induction cells as [|v cells IH]; intros texts H.
  - now injection H as <-.
  - cbn [to_strs] in H. destruct (to_str v) as [s0|] eqn:Ev; [|discriminate H].
    destruct (to_strs cells) as [ss|]; [|discriminate H]. injection H as <-.
    cbn [map]. f_equal; [|now apply IH].
    destruct v as [x | n]; cbn [to_str cell_text] in *; [now injection Ev|].
    unfold str_of_int in Ev. destruct (_ <? _)%Z; [discriminate Ev | now injection Ev].
Qed.

Lemma fits_zero : fits 0.
Proof. reflexivity. Qed.

Lemma get_default_fits (votes : Dict.t Z) (p : str) :
  Forall (fun kv => fits (snd kv)) votes -> fits (Dict.get_default votes p 0%Z).
Proof.
  intros H. unfold Dict.get_default.
  induction H as [|[k v] votes Hv _ IH]; cbn [Dict.get]; [apply fits_zero|].
  destruct (PyStr.eqb k p); [exact Hv | exact IH].
Qed.

Lemma out_dict_cell (r : row) (party_cols : list str) (k : str) :
  row_fits r ->
  to_str (Dict.get_default (out_dict r party_cols) k (VStr []))
  = Some (cell_text (Dict.get_default (out_dict r party_cols) k (VStr []))).
Proof.
  intros [[H1 [H2 H3]] Hv]. cbn [s_registered s_envelopes s_valid] in *.
  unfold Dict.get_default.
  destruct (in_dec str_eq_dec k party_cols) as [Hp | Hp].
  - rewrite (out_dict_party r _ _ Hp). cbn [to_str cell_text].
    now apply get_default_fits.
  - destruct (in_dec str_eq_dec k fixed_columns) as [Hf | Hf].
    + rewrite (out_dict_fixed r _ Hf Hp). unfold row_get.
      repeat match goal with
             | |- context [if ?b then _ else _] => destruct b
             end; cbn [to_str cell_text]; try reflexivity; assumption.
    + unfold out_dict.
      rewrite (get_fold_set_out
                 (fun p => VInt (Dict.get_default (_party_votes r) p 0%Z)))
        by assumption.
      rewrite (get_fold_set_out (row_get r)) by assumption. reflexivity.
Qed.

Lemma writerow_ok (r : row) (party_cols : list str) :
  row_fits r ->
  writerow (fixed_columns ++ party_cols) (out_dict r party_cols)
  = Ret (format_row
           (map cell_text
                (map (fun k => Dict.get_default (out_dict r party_cols) k (VStr []))
                     (fixed_columns ++ party_cols)))).
Proof.
  intros Hr. unfold writerow. rewrite dict_to_list_ok, to_strs_ok; [reflexivity|].
  apply Forall_forall. intros v Hv. apply in_map_iff in Hv as [k [<- _]].
  now apply out_dict_cell.
Qed.

Lemma write_rows_ok (party_cols : list str) (rows : list row) (content : str) :
  Forall row_fits rows ->
  exists body,
    write_rows (fixed_columns ++ party_cols) party_cols rows content
    = (content ++ body, Ret tt).
Proof.
  intros H; revert content; induction H as [|r rows Hr _ IH]; intros content;
    cbn [write_rows].
  - exists []. now rewrite app_nil_r.
  - rewrite (writerow_ok _ Hr).
    destruct (IH (content ++ format_row (map cell_text
                (map (fun k => Dict.get_default (out_dict r party_cols) k (VStr []))
                     (fixed_columns ++ party_cols))))) as [body ->].
    eexists. now rewrite <- app_assoc.
Qed.

(** The writer fails with a [ValueError] only. *)
Lemma writerow_halt (fieldnames : list str) (rowdict : Dict.t value) (h : halt) :
  writerow fieldnames rowdict = Halt h -> h = Uncaught ValueError.
Proof.
  unfold writerow, dict_to_list. destruct (forallb _ _).
  - destruct (to_strs _); [discriminate|]. intros H. now injection H.
  - intros H. now injection H.
Qed.

Lemma write_rows_halt (fieldnames party_cols : list str) (rows : list row)
    (content content' : str) (h : halt) :
  write_rows fieldnames party_cols rows content = (content', Halt h) ->
  h = Uncaught ValueError.
Proof.
  revert content; induction rows as [|x rows IH]; intros content; cbn [write_rows].
  - discriminate.
  - destruct (writerow _ _) as [line | h'] eqn:E; [apply IH|].
    intros H. injection H as _ <-. now apply writerow_halt in E.
Qed.

(** Whatever the rows, the loop only appends to the file. *)
Lemma write_rows_appends (fieldnames party_cols : list str) (rows : list row)
    (content content' : str) (r : result unit) :
  write_rows fieldnames party_cols rows content = (content', r) ->
  exists body, content' = content ++ body.
Proof.
  revert content; induction rows as [|x rows IH]; intros content; cbn [write_rows].
  - intros H. injection H as <- _. exists []. now rewrite app_nil_r.
  - destruct (writerow _ _) as [line | h].
    + intros H. apply IH in H as [body ->]. eexists. now rewrite <- app_assoc.
    + intros H. injection H as <- _. exists []. now rewrite app_nil_r.
Qed.

(* ================================================================= *)
(** ** Reasoning about computations *)

Lemma bind_ret_l {A B} (a : A) (f : A -> M B) : bind (ret a) f = f a.
Proof. unfold bind, ret. now destruct (f a). Qed.

Lemma bind_ret_inv {A B} (m : M A) (f : A -> M B) (t : list event) (b : B) :
  bind m f = (t, Ret b) ->
  exists t1 a t2, m = (t1, Ret a) /\ f a = (t2, Ret b) /\ t = t1 ++ t2.
Proof.
  destruct m as [t1 [a | h]]; simpl; [|discriminate].
  destruct (f a) as [t2 r] eqn:E. intros H. injection H as <- ->.
  now exists t1, a, t2.
Qed.

Lemma bind_halt_inv {A B} (m : M A) (f : A -> M B) (t : list event) (h : halt) :
  bind m f = (t, Halt h) ->
  m = (t, Halt h) \/
  exists t1 a t2, m = (t1, Ret a) /\ f a = (t2, Halt h) /\ t = t1 ++ t2.
Proof.
  destruct m as [t1 [a | h1]]; simpl.
  - destruct (f a) as [t2 r] eqn:E. intros H. injection H as <- ->.
    right. now exists t1, a, t2.
  - intros H. injection H as <- <-. now left.
Qed.

Lemma quiet_ret {A} (a : A) : quiet (ret a).
Proof. split; [reflexivity | discriminate]. Qed.

Lemma quiet_raise {A} (e : exn) : quiet (@raise A e).
Proof. split; [reflexivity | discriminate]. Qed.

Lemma quiet_print (line : str) : quiet (print line).
Proof. split; [reflexivity | discriminate]. Qed.

Lemma quiet_request (url : str) : quiet (request url).
Proof. split; [reflexivity | discriminate]. Qed.

Lemma quiet_die {A} (msg : str) : quiet (@die A msg).
Proof. split; [reflexivity | intros c H; now injection H]. Qed.

Lemma quiet_bind {A B} (m : M A) (f : A -> M B) :
  quiet m -> (forall a, quiet (f a)) -> quiet (bind m f).
Proof.
  intros [Hm1 Hm2] Hf. destruct m as [t1 [a | h]]; simpl in *.
  - destruct (Hf a) as [Hf1 Hf2]. unfold quiet.
    destruct (f a) as [t2 r]; simpl in *.
    split; [now rewrite filter_app, Hm1, Hf1 | exact Hf2].
  - unfold quiet; simpl. split; [assumption|].
    intros c H. apply Hm2. now injection H as ->.
Qed.

Lemma quiet_for_each {A S} (body : S -> A -> M S) (xs : list A) (s : S) :
  (forall s x, quiet (body s x)) -> quiet (for_each xs body s).
Proof.
  intros Hb. revert s; induction xs as [|x xs IH]; intros s; simpl.
  - apply quiet_ret.
  - apply quiet_bind; [apply Hb | exact IH].
Qed.

Create HintDb quiet.
#[local] Hint Resolve quiet_ret quiet_raise quiet_print quiet_request quiet_die
  : quiet.

Ltac quiet_step :=
  match goal with
  | |- quiet (bind _ _) => apply quiet_bind; [|intros ?]
  | |- quiet (for_each _ _ _) => apply quiet_for_each; intros ? ?
  | |- quiet (if ?b then _ else _) => destruct b
  | |- quiet (match ?x with _ => _ end) => destruct x
  | |- quiet (let (_, _) := ?x in _) => destruct x
  | |- quiet _ => solve [auto with quiet]
  end.

Lemma quiet_clean_number (text : str) : quiet (clean_number text).
Proof.
  destruct (clean_number_cases text) as [[n [-> _]] | ->]; auto with quiet.
Qed.

#[local] Hint Resolve quiet_clean_number : quiet.

Lemma quiet_parse_args (argv : list str) : quiet (parse_args argv).
Proof. unfold parse_args. repeat quiet_step. Qed.

Lemma quiet_fetch_soup (W : world) (url : str) : quiet (fetch_soup W url).
Proof. unfold fetch_soup. repeat quiet_step. Qed.

Lemma quiet_find_municipalities (W : world) (soup : node) (base_url : str) :
  quiet (find_municipalities W soup base_url).
Proof. unfold find_municipalities. repeat quiet_step. Qed.

Lemma quiet_by_headers (soup : node) (h : str) : quiet (by_headers soup h).
Proof. unfold by_headers. repeat quiet_step. Qed.

#[local] Hint Resolve quiet_parse_args quiet_fetch_soup
  quiet_find_municipalities quiet_by_headers : quiet.

Lemma quiet_extract_summary_numbers (soup : node) :
  quiet (extract_summary_numbers soup).
Proof.
  unfold extract_summary_numbers, scan_row, match_label. repeat quiet_step.
Qed.

Lemma quiet_extract_party_votes (soup : node) : quiet (extract_party_votes soup).
Proof. unfold extract_party_votes, party_row. repeat quiet_step. Qed.

#[local] Hint Resolve quiet_extract_summary_numbers quiet_extract_party_votes
  : quiet.

Lemma quiet_scrape_municipality (W : world) (m : municipality) :
  quiet (scrape_municipality W m).
Proof. unfold scrape_municipality. repeat quiet_step. Qed.

#[local] Hint Resolve quiet_scrape_municipality : quiet.

Lemma quiet_scrape_step (W : world) (total : nat)
    (state : list row * list str) (im : nat * municipality) :
  quiet (scrape_step W total state im).
Proof. unfold scrape_step. repeat quiet_step. Qed.

#[local] Hint Resolve quiet_scrape_step : quiet.



(* ================================================================= *)
(** ** The Party Vote Extractor *)















(* ================================================================= *)
(** ** The Summary Extractor *)

Lemma keeps_refl (a : summary) : keeps a a.
Proof. intros key _. reflexivity. Qed.

Lemma keeps_trans (a b c : summary) : keeps a b -> keeps b c -> keeps a c.
Proof.
  intros Hab Hbc key Hk. rewrite <- (Hab key Hk). apply Hbc.
  now rewrite (Hab key Hk).
Qed.

Lemma for_each_rel {A S} (R : S -> S -> Prop) (body : S -> A -> M S) :
  (forall s, R s s) ->
  (forall a b c, R a b -> R b c -> R a c) ->
  (forall s x t s', body s x = (t, Ret s') -> R s s') ->
  forall xs s t s', for_each xs body s = (t, Ret s') -> R s s'.
Proof.
  intros Hrefl Htrans Hbody. induction xs as [|x xs IH]; intros s t s' H.
  - injection H as _ <-. apply Hrefl.
  - cbn [for_each] in H.
    apply bind_ret_inv in H as [t1 [s1 [t2 [H1 [H2 _]]]]].
    eapply Htrans; [eapply Hbody; exact H1 | eapply IH; exact H2].
Qed.

Lemma found_get_set (found : summary) (key key' : field) (v : Z) :
  found_get (found_set found key v) key'
  = if match key, key' with
       | registered, registered | envelopes, envelopes | valid, valid => true
       | _, _ => false
       end
    then v else found_get found key'.
Proof. destruct key, key'; reflexivity. Qed.

Lemma match_label_keeps (cells : list str) (found : summary)
    (entry : str * field) (t : list event) (found' : summary) :
  match_label cells found entry = (t, Ret found') -> keeps found found'.
Proof.
  destruct entry as [label key]. unfold match_label.
  destruct (contains label (nth 0 cells [])); cbn [andb].
  - destruct (found_get found key =? 0)%Z eqn:E.
    + intros H. apply bind_ret_inv in H as [t1 [v [t2 [_ [H2 _]]]]].
      injection H2 as _ <-. apply Z.eqb_eq in E.
      intros key' Hk. rewrite found_get_set.
      destruct key, key'; try reflexivity; contradiction.
    + intros H. injection H as _ <-. apply keeps_refl.
  - intros H. injection H as _ <-. apply keeps_refl.
Qed.

Lemma scan_row_keeps (found : summary) (row : node) (t : list event)
    (found' : summary) :
  scan_row found row = (t, Ret found') -> keeps found found'.
Proof.
  unfold scan_row. destruct (_ <? 2)%nat.
  - intros H. injection H as _ <-. apply keeps_refl.
  - apply for_each_rel.
    + apply keeps_refl.
    + apply keeps_trans.
    + intros s x t0 s'. apply match_label_keeps.
Qed.

(** The extractor in terms of its three primary values: the rows are
    scanned only when one of them is zero, the scan starts from them, and
    whatever it returns keeps the values that were not zero. *)
Lemma extract_summary_numbers_spec (muni_soup : node) (r e v : Z) :
  by_headers muni_soup (u "sa2") = ret r ->
  by_headers muni_soup (u "sa3") = ret e ->
  by_headers muni_soup (u "sa6") = ret v ->
  (r <> 0 -> e <> 0 -> v <> 0 ->
   extract_summary_numbers muni_soup = ret (Summary r e v))%Z /\
  ((r = 0 \/ e = 0 \/ v = 0)%Z ->
   extract_summary_numbers muni_soup
   = for_each (select_table_tr muni_soup) scan_row (Summary r e v)) /\
  (forall t s, extract_summary_numbers muni_soup = (t, Ret s) ->
               keeps (Summary r e v) s).
Proof.
  intros Hr He Hv.
  assert (E : extract_summary_numbers muni_soup
              = if negb (negb (r =? 0)%Z && negb (e =? 0)%Z && negb (v =? 0)%Z)
                then for_each (select_table_tr muni_soup) scan_row (Summary r e v)
                else ret (Summary r e v)).
  { unfold extract_summary_numbers. now rewrite Hr, bind_ret_l, He, bind_ret_l, Hv, bind_ret_l. }
  split; [|split].
  - intros H1 H2 H3. rewrite E.
    apply Z.eqb_neq in H1, H2, H3. now rewrite H1, H2, H3.
  - intros H. rewrite E.
    destruct H as [-> | [-> | ->]]; cbn [Z.eqb negb andb];
      rewrite ?andb_false_r; reflexivity.
  - intros t s. rewrite E. destruct (negb _).
    + apply for_each_rel.
      * apply keeps_refl.
      * apply keeps_trans.
      * intros s0 x t0 s'. apply scan_row_keeps.
    + intros H. injection H as _ <-. apply keeps_refl.
Qed.

Example fallback_scenario :
  by_headers Sample.fallback_page (u "sa2") = ret 0%Z /\
  find_td_headers (u "sa2") Sample.fallback_page = None /\
  extract_summary_numbers Sample.fallback_page = ret (Summary 1234 0 0).
Proof. repeat split; vm_compute; reflexivity. Qed.

Example total_failure :
  extract_summary_numbers (Sample.page []) = ret (Summary 0 0 0).
Proof. vm_compute. reflexivity. Qed.

(** C5.  The specification says that the Summary Extractor never aborts the run.
    On a page whose cell for the registered voters holds a superscript two
    it ends with the [ValueError] of [clean_number] instead of three
    numbers. *)
Theorem extract_summary_numbers_aborts :
  find_td_headers (u "sa2") Sample.superscript_page
  = Some (Sample.number_cell "sa2" "²") /\
  extract_summary_numbers Sample.superscript_page = raise ValueError.
Proof. split; vm_compute; reflexivity. Qed.

(** C10.  A primary value of zero counts as missing, whether the cell is
    absent or really holds 0: with a zero among the three values the rows
    are scanned, starting from these values; what the scan returns keeps
    every value that was not zero; and a page that reports 0 in the marked
    cell gets the value of a labelled row instead, exactly as the same page
    without the cell does. *)
Theorem zero_is_missing (muni_soup : node) (r e v : Z) :
  by_headers muni_soup (u "sa2") = ret r ->
  by_headers muni_soup (u "sa3") = ret e ->
  by_headers muni_soup (u "sa6") = ret v ->
  ((r = 0 \/ e = 0 \/ v = 0)%Z ->
   extract_summary_numbers muni_soup
   = for_each (select_table_tr muni_soup) scan_row (Summary r e v)) /\
  (forall t s, extract_summary_numbers muni_soup = (t, Ret s) ->
               keeps (Summary r e v) s) /\
  (find_td_headers (u "sa2") Sample.zero_page
   = Some (Sample.number_cell "sa2" "0") /\
   find_td_headers (u "sa2") Sample.absent_page = None /\
   extract_summary_numbers Sample.zero_page = ret (Summary 55 80 75) /\
   extract_summary_numbers Sample.absent_page = ret (Summary 55 80 75)).
Proof.
  intros Hr He Hv.
  destruct (extract_summary_numbers_spec muni_soup Hr He Hv) as [_ [H1 H2]].
  split; [exact H1 | split; [exact H2|]].
  repeat split; vm_compute; reflexivity.
Qed.

Lemma zero_is_missing_witness :
  extract_summary_numbers Sample.zero_page
  = for_each (select_table_tr Sample.zero_page) scan_row (Summary 0 80 75) /\
  keeps (Summary 0 80 75) (Summary 55 80 75).
Proof.
  assert (H : by_headers Sample.zero_page (u "sa2") = ret 0%Z /\
              by_headers Sample.zero_page (u "sa3") = ret 80%Z /\
              by_headers Sample.zero_page (u "sa6") = ret 75%Z)
    by (repeat split; vm_compute; reflexivity).
  destruct H as [Hr [He Hv]].
  destruct (zero_is_missing Sample.zero_page Hr He Hv) as [Hscan [Hkeeps _]].
  split.
  - apply Hscan. left. reflexivity.
  - apply (Hkeeps []). vm_compute. reflexivity.
Defined.

(* ================================================================= *)
(** ** The loop of [main] *)

Lemma for_each_inv {A S} (P : S -> Prop) (body : S -> A -> M S) :
  (forall s x t s', P s -> body s x = (t, Ret s') -> P s') ->
  forall xs s t s', P s -> for_each xs body s = (t, Ret s') -> P s'.
Proof.
  intros Hbody. induction xs as [|x xs IH]; intros s t s' Hs H.
  - injection H as _ <-. exact Hs.
  - cbn [for_each] in H.
    apply bind_ret_inv in H as [t1 [s1 [t2 [H1 [H2 _]]]]].
    eapply IH; [eapply Hbody; [exact Hs | exact H1] | exact H2].
Qed.

(** In [extract_party_votes] the order and the keys of the mapping go
    together, so the order that is returned is never empty. *)
Lemma party_row_keys (state : list str * Dict.t Z) (row : node)
    (t : list event) (state' : list str * Dict.t Z) :
  Dict.keys (snd state) = fst state ->
  party_row state row = (t, Ret state') ->
  Dict.keys (snd state') = fst state'.
Proof.
  destruct state as [order votes]. cbn [fst snd]. intros Hk. unfold party_row.
  destruct (select_one_td_class _ row) as [name_td|].
  - destruct (_ <? 3)%nat.
    + intros H. injection H as _ <-. exact Hk.
    + intros H. apply bind_ret_inv in H as [t1 [v [t2 [_ [H2 _]]]]].
      destruct (negb (PyStr.eqb _ [])); cbn [andb] in H2.
      * destruct (Dict.mem _ votes) eqn:Hm; cbn [negb] in H2;
          injection H2 as _ <-; cbn [fst snd]; [exact Hk|].
        rewrite keys_set, Hm. now rewrite Hk.
      * injection H2 as _ <-. exact Hk.
  - intros H. injection H as _ <-. exact Hk.
Qed.

Lemma extract_party_votes_order (muni_soup : node) (t : list event)
    (party_order : list str) (votes : Dict.t Z) :
  extract_party_votes muni_soup = (t, Ret (party_order, votes)) ->
  Dict.keys votes = party_order /\ party_order <> [].
Proof.
  unfold extract_party_votes. intros H.
  apply bind_ret_inv in H as [t1 [[order votes1] [t2 [H1 [H2 _]]]]].
  cbn [snd] in H2. destruct votes1 as [|kv votes1]; [discriminate H2|].
  injection H2 as _ <- <-.
  assert (Hk : Dict.keys (snd (order, kv :: votes1)) = fst (order, kv :: votes1)).
  { eapply (for_each_inv (fun st => Dict.keys (snd st) = fst st));
      [| |exact H1]; [|reflexivity].
    intros s x t0 s'. apply party_row_keys. }
  cbn [fst snd] in Hk. split; [exact Hk|]. rewrite <- Hk. discriminate.
Qed.

Lemma scrape_municipality_order (W : world) (m : municipality)
    (t : list event) (r : row) :
  scrape_municipality W m = (t, Ret r) -> _party_order r <> [].
Proof.
  unfold scrape_municipality. intros H.
  apply bind_ret_inv in H as [t1 [soup [t2 [_ [H _]]]]].
  apply bind_ret_inv in H as [t3 [s [t4 [_ [H _]]]]].
  apply bind_ret_inv in H as [t5 [[order votes] [t6 [H1 [H2 _]]]]].
  injection H2 as _ <-. cbn [_party_order].
  now apply extract_party_votes_order in H1.
Qed.

(** The numbers of a scraped row come from [clean_number], so the writer
    can convert them. *)
Lemma by_headers_fits (soup : node) (h : str) (t : list event) (n : Z) :
  by_headers soup h = (t, Ret n) -> fits n.
Proof.
  unfold by_headers. destruct (find_td_headers h soup) as [td|].
  - intros H. destruct (clean_number_cases (get_text td)) as [[m [E _]] | E];
      rewrite E in H; [|discriminate H].
    injection H as _ <-. exact (clean_number_fits _ E).
  - intros H. injection H as _ <-. apply fits_zero.
Qed.

Lemma scan_row_fits (found : summary) (row : node) (t : list event)
    (found' : summary) :
  summary_fits found -> scan_row found row = (t, Ret found') ->
  summary_fits found'.
Proof.
  unfold scan_row. destruct (_ <? 2)%nat.
  - intros H E. now injection E as _ <-.
  - apply for_each_inv. intros s [label key] t0 s' Hs. unfold match_label.
    destruct (_ && _).
    + intros E. apply bind_ret_inv in E as [t1 [v [t2 [Hc [E _]]]]].
      injection E as _ <-.
      assert (Hv : fits v).
      { destruct (clean_number_cases (nth 1 (map (get_text_strip (u " "))
                    (find_all [u "td"; u "th"] row)) [])) as [[m [E _]] | E];
          rewrite E in Hc; [|discriminate Hc].
        injection Hc as _ <-. exact (clean_number_fits _ E). }
      destruct Hs as [H1 [H2 H3]].
      destruct key; cbn; repeat split; assumption.
    + intros E. now injection E as _ <-.
Qed.

Lemma extract_summary_numbers_fits (soup : node) (t : list event) (s : summary) :
  extract_summary_numbers soup = (t, Ret s) -> summary_fits s.
Proof.
  intros Hs. unfold extract_summary_numbers in Hs.
  apply bind_ret_inv in Hs as [t1 [r [t2 [Hr [Hs _]]]]].
  apply bind_ret_inv in Hs as [t3 [e [t4 [He [Hs _]]]]].
  apply bind_ret_inv in Hs as [t5 [v [t6 [Hv [Hs _]]]]].
  apply by_headers_fits in Hr, He, Hv.
  assert (H0 : summary_fits (Summary r e v)) by (repeat split; assumption).
  destruct (negb _).
  - revert Hs. apply for_each_inv; [|exact H0].
    intros s0 x t0 s' Hs0. now apply scan_row_fits.
  - now injection Hs as _ <-.
Qed.

Lemma set_Forall {V} (P : str * V -> Prop) (d : Dict.t V) (k : str) (v : V) :
  Forall P d -> P (k, v) -> Forall P (Dict.set d k v).
Proof.
  intros H Hv. induction H as [|[k0 v0] d H0 Hd IH]; cbn [Dict.set].
  - now constructor.
  - destruct (PyStr.eqb k0 k) eqn:E; constructor; try assumption.
    apply eqb_eq in E. now subst.
Qed.

Lemma party_row_fits (state : list str * Dict.t Z) (row : node)
    (t : list event) (state' : list str * Dict.t Z) :
  Forall (fun kv => fits (snd kv)) (snd state) ->
  party_row state row = (t, Ret state') ->
  Forall (fun kv => fits (snd kv)) (snd state').
Proof.
  destruct state as [order votes]. cbn [fst snd]. intros Hk. unfold party_row.
  destruct (select_one_td_class _ row) as [name_td|].
  - destruct (_ <? 3)%nat.
    + intros H. injection H as _ <-. exact Hk.
    + intros H. apply bind_ret_inv in H as [t1 [v [t2 [Hc [H2 _]]]]].
      assert (Hv : fits v).
      { match type of Hc with
        | clean_number ?x = _ =>
            destruct (clean_number_cases x) as [[m [E _]] | E];
            rewrite E in Hc; [|discriminate Hc];
            injection Hc as _ <-; exact (clean_number_fits _ E)
        end. }
      destruct (_ && _); injection H2 as _ <-; cbn [snd]; [|exact Hk].
      now apply set_Forall.
  - intros H. injection H as _ <-. exact Hk.
Qed.

Lemma scrape_municipality_fits (W : world) (m : municipality)
    (t : list event) (r : row) :
  scrape_municipality W m = (t, Ret r) -> row_fits r.
Proof.
  unfold scrape_municipality. intros H.
  apply bind_ret_inv in H as [t1 [soup [t2 [_ [H _]]]]].
  apply bind_ret_inv in H as [t3 [s [t4 [Hs [H _]]]]].
  apply bind_ret_inv in H as [t5 [[order votes] [t6 [H1 [H2 _]]]]].
  injection H2 as _ <-. split.
  - cbn [r_registered r_envelopes r_valid].
    apply extract_summary_numbers_fits in Hs. destruct s. exact Hs.
  - cbn [_party_votes]. unfold extract_party_votes in H1.
    apply bind_ret_inv in H1 as [t7 [[order1 votes1] [t8 [H1 [H3 _]]]]].
    cbn [snd] in H3. destruct votes1 as [|kv votes1]; [discriminate H3|].
    injection H3 as _ _ <-.
    assert (Hi : Forall (fun kv => fits (snd kv)) (snd (order1, kv :: votes1))).
    { eapply (for_each_inv (fun st => Forall (fun kv => fits (snd kv)) (snd st)));
        [| |exact H1]; [|constructor].
      intros s0 x t0 s'. apply party_row_fits. }
    exact Hi.
Qed.

Lemma scrape_loop (W : world) (total : nat) (ims : list (nat * municipality)) :
  forall rows0 cols0 t rows cols,
    for_each ims (scrape_step W total) (rows0, cols0) = (t, Ret (rows, cols)) ->
    exists new,
      rows = rows0 ++ new /\
      Forall2 (fun m r => exists t', scrape_municipality W m = (t', Ret r))
              (map snd ims) new /\
      cols = columns_after cols0 new.
Proof.
  induction ims as [|[i m] ims IH]; intros rows0 cols0 t rows cols H.
  - injection H as _ <- <-. exists []. rewrite app_nil_r.
    repeat split; [constructor | now destruct cols0].
  - cbn [for_each] in H.
    apply bind_ret_inv in H as [t1 [[rows1 cols1] [t2 [H1 [H2 _]]]]].
    unfold scrape_step in H1.
    apply bind_ret_inv in H1 as [t3 [[] [t4 [_ [H1 _]]]]].
    apply bind_ret_inv in H1 as [t5 [data [t6 [Hd [H1 _]]]]].
    injection H1 as _ <- <-.
    apply IH in H2 as [new [-> [Hall ->]]].
    exists (data :: new). rewrite <- app_assoc. cbn [app map snd].
    repeat split.
    + constructor; [now exists t5 | exact Hall].
    + apply scrape_municipality_order in Hd.
      destruct cols0 as [|c cols0]; cbn [columns_after].
      * destruct (_party_order data) as [|p ps]; [contradiction|].
        now destruct new.
      * now destruct new.
Qed.

Lemma map_snd_enumerate1 {A} (xs : list A) : map snd (enumerate1 xs) = xs.
Proof.
  unfold enumerate1. generalize 1%nat.
  induction xs as [|x xs IH]; intros n; cbn [length seq combine map snd];
    [reflexivity | now rewrite IH].
Qed.

(* ================================================================= *)
(** ** Whole runs *)

Lemma written_filter {A} (m : M A) :
  filter is_write (fst m) = [] -> written m = [].
Proof.
  unfold written. induction (fst m) as [|e l IH]; [reflexivity|].
  simpl. destruct e; simpl; auto; discriminate.
Qed.

Lemma scraped_fit (W : world) (ms : list municipality) (rows : list row) :
  Forall2 (fun m r => exists t, scrape_municipality W m = (t, Ret r)) ms rows ->
  Forall row_fits rows.
Proof.
  induction 1 as [|m r ms rows [t Hr] _ IH]; constructor; [|exact IH].
  exact (scrape_municipality_fits _ _ Hr).
Qed.

(** [write_csv] fails before it has created the file when the path cannot
    be opened.  When it can, and the numbers of the rows can be converted,
    the file is written, header first, and [write_csv] returns. *)
Lemma write_csv_refused (W : world) (rows : list row) (party_cols : list str)
    (out_csv : str) :
  can_open W out_csv = false ->
  write_csv W rows party_cols out_csv = raise OSError.
Proof. intros H. unfold write_csv. now rewrite H. Qed.

Lemma write_csv_ok (W : world) (rows : list row) (party_cols : list str)
    (out_csv : str) :
  can_open W out_csv = true -> Forall row_fits rows ->
  exists body,
    write_csv W rows party_cols out_csv
    = ([FileWrite out_csv (writeheader (fixed_columns ++ party_cols) ++ body)],
       Ret tt).
Proof.
  intros Ho Hr. unfold write_csv. rewrite Ho.
  destruct (write_rows_ok party_cols (writeheader (fixed_columns ++ party_cols)) Hr)
    as [body ->].
  now exists body.
Qed.

Lemma write_csv_halt (W : world) (rows : list row) (party_cols : list str)
    (out_csv : str) (t : list event) (h : halt) :
  write_csv W rows party_cols out_csv = (t, Halt h) -> exists e, h = Uncaught e.
Proof.
  unfold write_csv. destruct (can_open W out_csv).
  - destruct (write_rows _ _ _ _) as [content r] eqn:E.
    intros H. injection H as _ ->. apply write_rows_halt in E. now exists ValueError.
  - intros H. injection H as _ <-. now exists OSError.
Qed.

(** Whenever [write_csv] returns, it has opened the file and written one
    file that starts with the header. *)
Lemma write_csv_ret (W : world) (rows : list row) (party_cols : list str)
    (out_csv : str) (t : list event) :
  write_csv W rows party_cols out_csv = (t, Ret tt) ->
  can_open W out_csv = true /\
  exists body,
    t = [FileWrite out_csv (writeheader (fixed_columns ++ party_cols) ++ body)].
Proof.
  unfold write_csv. destruct (can_open W out_csv); [|discriminate].
  destruct (write_rows _ _ _ _) as [content r] eqn:E.
  intros H. injection H as <- _. split; [reflexivity|].
  apply write_rows_appends in E as [body ->]. now exists body.
Qed.

Lemma parse_args_ret_trace (argv : list str) (t : list event) (a : str * str) :
  parse_args argv = (t, Ret a) -> t = [].
Proof.
  destruct (parse_args_cases argv) as [[url [out ->]] | [msg ->]]; intros H.
  - now injection H.
  - discriminate H.
Qed.

Lemma find_municipalities_ret_trace (W : world) (soup : node) (base_url : str)
    (t : list event) (ms : list municipality) :
  find_municipalities W soup base_url = (t, Ret ms) -> t = [].
Proof.
  unfold find_municipalities. destruct (Dict.values _); intros H.
  - discriminate H.
  - now injection H.
Qed.

(** What a run that returns has gone through. *)
Lemma main_ret_inv (W : world) (argv : list str) :
  snd (main W argv) = Ret tt ->
  exists url out_csv t0 soup ms t1 rows party_cols,
    parse_args argv = ret (url, out_csv) /\
    fetch_soup W url = (t0, Ret soup) /\
    find_municipalities W soup url = ret ms /\
    for_each (enumerate1 ms) (scrape_step W (length ms)) ([], [])
    = (t1, Ret (rows, party_cols)) /\
    fst (main W argv)
    = ([Print SEPARATOR; Print (u "Downloading district page...")] ++ t0
       ++ [Print (u "Found " ++ of_int (Z.of_nat (length ms)) ++ u " municipalities.");
           Print SEPARATOR] ++ t1)
      ++ fst (write_csv W rows party_cols out_csv) ++ done_lines out_csv /\
    snd (write_csv W rows party_cols out_csv) = Ret tt.
Proof.
  destruct (main W argv) as [t r] eqn:E. cbn [fst snd]. intros ->.
  unfold main in E.
  apply bind_ret_inv in E as [ta [[url out_csv] [tb [Hp [E ->]]]]].
  pose proof (parse_args_ret_trace _ Hp) as ->.
  apply bind_ret_inv in E as [tc [[] [td [Hc [E ->]]]]]. injection Hc as <-.
  apply bind_ret_inv in E as [tc [[] [te [Hc [E ->]]]]]. injection Hc as <-.
  apply bind_ret_inv in E as [t0 [soup [tf [Hf [E ->]]]]].
  apply bind_ret_inv in E as [tg [ms [th [Hm [E ->]]]]].
  pose proof (find_municipalities_ret_trace _ _ _ Hm) as ->.
  apply bind_ret_inv in E as [tc [[] [ti [Hc [E ->]]]]]. injection Hc as <-.
  apply bind_ret_inv in E as [tc [[] [tj [Hc [E ->]]]]]. injection Hc as <-.
  apply bind_ret_inv in E as [t1 [[rows party_cols] [tk [Hl [E ->]]]]].
  apply bind_ret_inv in E as [tw [[] [tl [Hw [E ->]]]]].
  apply bind_ret_inv in E as [tc [[] [tn [Hc [E ->]]]]]. injection Hc as <-.
  injection E as <-.
  exists url, out_csv, t0, soup, ms, t1, rows, party_cols.
  repeat split; try assumption; [|now rewrite Hw].
  rewrite Hw. cbn [fst]. unfold done_lines.
  repeat rewrite <- app_assoc. reflexivity.
Qed.

(** A run that does not return has written nothing, and it ends through
    [sys.exit(1)] or through an exception: the rows the loop has built can
    be written, so [write_csv] fails only where the file cannot be
    opened. *)
Lemma main_halt (W : world) (argv : list str) (h : halt) :
  snd (main W argv) = Halt h ->
  (h = SysExit 1 \/ exists e, h = Uncaught e) /\
  filter is_write (fst (main W argv)) = [].
Proof.
  destruct (main W argv) as [t r] eqn:E. cbn [fst snd]. intros ->.
  unfold main in E.
  assert (Hq : forall A (m : M A) t h, quiet m -> m = (t, Halt h) ->
               (h = SysExit 1 \/ exists e, h = Uncaught e) /\ filter is_write t = []).
  { intros A m t' h' [Q1 Q2] ->. cbn [fst snd] in *. split; [|exact Q1].
    destruct h' as [c | e]; [left; f_equal; now apply Q2 | right; now exists e]. }
  assert (Hw : forall A (m : M A) t a, quiet m -> m = (t, Ret a) -> filter is_write t = []).
  { intros A m t' a [Q1 _] ->. exact Q1. }
  apply bind_halt_inv in E as [E | [ta [[url out_csv] [tb [Hp [E ->]]]]]];
    [eapply Hq; [apply quiet_parse_args | exact E]|].
  rewrite filter_app, (Hw _ _ _ _ (quiet_parse_args argv) Hp). cbn [app].
  apply bind_halt_inv in E as [E | [tc [[] [td [Hc [E ->]]]]]]; [discriminate E|].
  injection Hc as <-. cbn [app filter is_write].
  apply bind_halt_inv in E as [E | [tc [[] [te [Hc [E ->]]]]]]; [discriminate E|].
  injection Hc as <-. cbn [app filter is_write].
  apply bind_halt_inv in E as [E | [t0 [soup [tf [Hf [E ->]]]]]];
    [eapply Hq; [apply quiet_fetch_soup | exact E]|].
  rewrite filter_app, (Hw _ _ _ _ (quiet_fetch_soup W url) Hf). cbn [app].
  apply bind_halt_inv in E as [E | [tg [ms [th [Hm [E ->]]]]]];
    [eapply Hq; [apply quiet_find_municipalities | exact E]|].
  rewrite filter_app, (Hw _ _ _ _ (quiet_find_municipalities W soup url) Hm).
  cbn [app].
  apply bind_halt_inv in E as [E | [tc [[] [ti [Hc [E ->]]]]]]; [discriminate E|].
  injection Hc as <-. cbn [app filter is_write].
  apply bind_halt_inv in E as [E | [tc [[] [tj [Hc [E ->]]]]]]; [discriminate E|].
  injection Hc as <-. cbn [app filter is_write].
  assert (Ql : quiet (for_each (enumerate1 ms) (scrape_step W (length ms)) ([], []))).
  { apply quiet_for_each. intros s x. apply quiet_scrape_step. }
  apply bind_halt_inv in E as [E | [t1 [[rows party_cols] [tk [Hl [E ->]]]]]];
    [eapply Hq; [exact Ql | exact E]|].
  assert (Q1 : filter is_write t1 = []).
  { destruct Ql as [Ql _]. now rewrite Hl in Ql. }
  rewrite filter_app, Q1. cbn [app].
  apply scrape_loop in Hl as [new [Hrows [Hall _]]]. cbn [app] in Hrows. subst new.
  apply scraped_fit in Hall.
  destruct (can_open W out_csv) eqn:Ho.
  - exfalso.
    destruct (write_csv_ok W party_cols out_csv Ho Hall) as [body Hwr].
    rewrite Hwr in E. cbn in E. discriminate E.
  - rewrite (write_csv_refused W rows party_cols out_csv Ho) in E.
    cbn in E. injection E as <- <-. split; [right; now eexists | reflexivity].
Qed.

Lemma main_success (W : world) (argv : list str) :
  snd (main W argv) = Ret tt ->
  exists url out_csv t0 soup ms rows pre body,
    parse_args argv = ret (url, out_csv) /\
    fetch_soup W url = (t0, Ret soup) /\
    find_municipalities W soup url = ret ms /\
    Forall2 (fun m r => exists t, scrape_municipality W m = (t, Ret r)) ms rows /\
    fst (main W argv)
    = pre ++ [FileWrite out_csv
                (writeheader (fixed_columns ++ columns_after [] rows) ++ body)]
          ++ done_lines out_csv /\
    write_csv W rows (columns_after [] rows) out_csv
    = ([FileWrite out_csv
          (writeheader (fixed_columns ++ columns_after [] rows) ++ body)], Ret tt) /\
    filter is_write pre = [].
Proof.
  intros H.
  destruct (main_ret_inv W argv H)
    as [url [out_csv [t0 [soup [ms [t1 [rows [cols [Hp [Hf [Hm [Hl [Ht Hwr]]]]]]]]]]]]].
  assert (Q1 : filter is_write t1 = []).
  { assert (Ql : quiet (for_each (enumerate1 ms) (scrape_step W (length ms)) ([], []))).
    { apply quiet_for_each. intros s x. apply quiet_scrape_step. }
    destruct Ql as [Ql _]. now rewrite Hl in Ql. }
  destruct (quiet_fetch_soup W url) as [Q0 _]. rewrite Hf in Q0. cbn [fst] in Q0.
  apply scrape_loop in Hl as [new [Hrows [Hall Hcols]]].
  cbn [app] in Hrows. subst new cols. rewrite map_snd_enumerate1 in Hall.
  destruct (write_csv W rows (columns_after [] rows) out_csv) as [tw rw] eqn:Ew.
  cbn [snd] in Hwr. subst rw.
  destruct (write_csv_ret _ _ _ _ Ew) as [_ [body ->]].
  cbn [fst] in Ht.
  eexists url, out_csv, t0, soup, ms, rows, _, body.
  repeat split; try eassumption.
  rewrite !filter_app, Q0, Q1. reflexivity.
Qed.

Lemma file_write_inj (p p' c c' : str) (r r' : result unit) :
  ([FileWrite p c], r) = ([FileWrite p' c'], r') -> c = c'.
Proof. intros H. now injection H. Qed.

Lemma written_app_one (pre post : list event) (path content : str) (r : result unit) :
  filter is_write pre = [] -> filter is_write post = [] ->
  written (pre ++ [FileWrite path content] ++ post, r) = [(path, content)].
Proof.
  intros Hpre Hpost. unfold written. cbn [fst].
  rewrite !flat_map_app.
  rewrite (written_filter (pre, r) Hpre : flat_map _ pre = []).
  rewrite (written_filter (post, r) Hpost : flat_map _ post = []).
  reflexivity.
Qed.

(** The fatal endings of the steps: a status other than 200, and a
    district page without a usable link. *)
Lemma fetch_soup_bad_status (W : world) (url : str) (status_code : Z) (page : node) :
  http_get W url = Response status_code page -> status_code <> 200%Z ->
  fits status_code ->
  fetch_soup W url
  = ([HttpGet url;
      Print (u "Error: Unable to download page (HTTP " ++ of_int status_code ++ u ").")],
     Halt (SysExit 1)).
Proof.
  intros H Hs Hf. unfold fetch_soup. rewrite H.
  apply Z.eqb_neq in Hs. now rewrite Hs, Hf.
Qed.

Lemma find_municipalities_none (W : world) (soup : node) (base_url : str) :
  collect_municipalities W soup base_url = [] ->
  find_municipalities W soup base_url = die no_municipalities.
Proof. unfold find_municipalities. now intros ->. Qed.



Example no_municipalities_scenario :
  main Sample.web_empty Sample.argv
  = ([Print SEPARATOR; Print (u "Downloading district page...");
      HttpGet Sample.base; Print no_municipalities],
     Halt (SysExit 1)).
Proof. vm_compute. reflexivity. Qed.

(** C1, as the code has it.  [write_csv] writes the file and returns
    whenever the path can be opened and the numbers of the rows can be
    converted; and whenever it returns it has written one file, which
    starts with the row of the column names [code], [location],
    [registered], [envelopes], [valid] followed by the party columns.  So
    does the one file of every run of [main] that returns.  In the
    end-to-end scenario the file is the header
    [code,location,registered,envelopes,valid,Strana X,Strana Y] and the
    two data rows. *)
Theorem csv_header_row :
  fixed_columns
  = [u "code"; u "location"; u "registered"; u "envelopes"; u "valid"] /\
  (forall W rows party_cols out_csv,
      (can_open W out_csv = true -> Forall row_fits rows ->
       exists body,
         write_csv W rows party_cols out_csv
         = ([FileWrite out_csv (format_row (fixed_columns ++ party_cols) ++ body)],
            Ret tt)) /\
      (forall t,
          write_csv W rows party_cols out_csv = (t, Ret tt) ->
          exists body,
            t = [FileWrite out_csv
                   (format_row (fixed_columns ++ party_cols) ++ body)])) /\
  (forall W argv,
      snd (main W argv) = Ret tt ->
      exists out_csv party_cols body,
        written (main W argv)
        = [(out_csv, format_row (fixed_columns ++ party_cols) ++ body)]) /\
  written (main Sample.web Sample.argv) = [(u "out.csv", Sample.expected_file)].
Proof.
  split; [reflexivity|]. split; [|split].
  - intros W rows party_cols out_csv. split.
    + apply write_csv_ok.
    + intros t H. now apply write_csv_ret in H as [_ H].
  - intros W argv H.
    destruct (main_success W argv H)
      as [url [out_csv [t0 [soup [ms [rows [pre [body [_ [_ [_ [_ [Ht [_ Hq]]]]]]]]]]]]]].
    exists out_csv, (columns_after [] rows), body.
    destruct (main W argv) as [t r]. cbn [fst] in Ht. subst t.
    now apply written_app_one.
  - vm_compute. reflexivity.
Qed.

Lemma csv_header_row_witness :
  (exists body,
     write_csv Sample.web [] [] (u "out.csv")
     = ([FileWrite (u "out.csv") (format_row (fixed_columns ++ []) ++ body)],
        Ret tt)) /\
  (exists body,
     [FileWrite (u "out.csv") (format_row fixed_columns)]
     = [FileWrite (u "out.csv") (format_row (fixed_columns ++ []) ++ body)]) /\
  exists out_csv party_cols body,
    written (main Sample.web Sample.argv)
    = [(out_csv, format_row (fixed_columns ++ party_cols) ++ body)].
Proof.
  split; [|split].
  - apply (proj1 (proj1 (proj2 csv_header_row) Sample.web [] [] (u "out.csv")));
      [reflexivity | constructor].
  - apply (proj2 (proj1 (proj2 csv_header_row) Sample.web [] [] (u "out.csv"))).
    vm_compute. reflexivity.
  - apply (proj1 (proj2 (proj2 csv_header_row)) Sample.web Sample.argv).
    vm_compute. reflexivity.
Defined.

(** C1 as stated fails: the header of the scenario does not start with
    [identifier,name]. *)
Lemma header_is_not_identifier_name :
  ~ exists body,
      written (main Sample.web Sample.argv)
      = [(u "out.csv",
          u "identifier,name,registered,envelopes,valid,Strana X,Strana Y" ++ body)].
Proof.
  intros [body H]. vm_compute in H. discriminate H.
Qed.

(* ================================================================= *)
(** ** Projection on the schema *)

Lemma get_default_agree {V} (d d' : Dict.t V) (k : str) (v : V) :
  Dict.get d' k = Dict.get d k -> Dict.get_default d' k v = Dict.get_default d k v.
Proof. unfold Dict.get_default. now intros ->. Qed.

(** The cells the writer is given for a row are its projection onto the
    columns, and the loop of [write_csv] appends one record per row. *)
Lemma projection_cells (r : row) (party_cols : list str) :
  map cell_text
      (map (fun k => Dict.get_default (out_dict r party_cols) k (VStr []))
           (fixed_columns ++ party_cols))
  = projection party_cols r.
Proof.
  rewrite map_map, map_app. unfold projection. f_equal.
  - apply map_ext_in. intros k Hk. unfold Dict.get_default at 1, fixed_cell.
    destruct (existsb (PyStr.eqb k) party_cols) eqn:E.
    + apply existsb_eqb_In in E. now rewrite out_dict_party.
    + rewrite out_dict_fixed; [reflexivity | assumption|].
      intros Hin. apply existsb_eqb_In in Hin. congruence.
  - apply map_ext_in. intros p Hp. unfold Dict.get_default at 1.
    now rewrite out_dict_party.
Qed.

Lemma write_rows_projection (party_cols : list str) (rows : list row)
    (content : str) :
  Forall row_fits rows ->
  write_rows (fixed_columns ++ party_cols) party_cols rows content
  = (content ++ concat (map (fun r => format_row (projection party_cols r)) rows),
     Ret tt).
Proof.
  intros H; revert content; induction H as [|r rows Hr _ IH]; intros content;
    cbn [write_rows map concat].
  - now rewrite app_nil_r.
  - rewrite (writerow_ok _ Hr), projection_cells, IH.
    now rewrite <- app_assoc.
Qed.

Lemma write_csv_projection (W : world) (rows : list row) (party_cols : list str)
    (out_csv : str) :
  can_open W out_csv = true -> Forall row_fits rows ->
  write_csv W rows party_cols out_csv
  = ([FileWrite out_csv
        (format_row (fixed_columns ++ party_cols)
         ++ concat (map (fun r => format_row (projection party_cols r)) rows))],
     Ret tt).
Proof.
  intros Ho Hr. unfold write_csv. rewrite Ho.
  now rewrite (write_rows_projection party_cols _ Hr).
Qed.

(** The projection of a row depends on its votes only through the party
    columns. *)
Lemma projection_agree (r : row) (votes' : Dict.t Z) (party_cols : list str) :
  (forall p, In p party_cols -> Dict.get votes' p = Dict.get (_party_votes r) p) ->
  projection party_cols (with_votes r votes') = projection party_cols r.
Proof.
  intros Hagree. unfold projection. f_equal.
  - apply map_ext. intros k. unfold fixed_cell.
    destruct (existsb (PyStr.eqb k) party_cols) eqn:E; [|reflexivity].
    apply existsb_eqb_In in E. cbn [_party_votes with_votes]. f_equal.
    apply get_default_agree. now apply Hagree.
  - apply map_ext_in. intros p Hp. cbn [_party_votes with_votes]. f_equal.
    apply get_default_agree. now apply Hagree.
Qed.

Lemma find_municipalities_nonempty (W : world) (soup : node) (base_url : str)
    (ms : list municipality) :
  find_municipalities W soup base_url = ret ms -> ms <> [].
Proof.
  unfold find_municipalities. destruct (Dict.values _); intros H.
  - discriminate H.
  - injection H as <-. discriminate.
Qed.

(** C2.  In a run that returns, the party columns are the party order of
    the first scraped record, and the file holds the header for them and
    then, for every scraped record in turn, the projection of the record
    onto these columns; [write_csv] writes that for any rows it is given
    whose numbers it can convert.  Whatever the parties of a record are,
    its projection has one cell per column of the schema: five for the
    fixed columns, then for each party column the votes of that party in
    the record, or 0 when the record does not have it; votes of parties
    outside the party columns have no influence on it. *)
Theorem schema_projection (W : world) (argv : list str) :
  (snd (main W argv) = Ret tt ->
   exists url out_csv t0 soup m ms first rest,
     parse_args argv = ret (url, out_csv) /\
     fetch_soup W url = (t0, Ret soup) /\
     find_municipalities W soup url = ret (m :: ms) /\
     (exists t, scrape_municipality W m = (t, Ret first)) /\
     Forall2 (fun m r => exists t, scrape_municipality W m = (t, Ret r)) ms rest /\
     written (main W argv)
     = [(out_csv,
         format_row (fixed_columns ++ _party_order first)
         ++ concat (map (fun r => format_row (projection (_party_order first) r))
                        (first :: rest)))]) /\
  (forall (rows : list row) (party_cols : list str) (out_csv : str),
      can_open W out_csv = true -> Forall row_fits rows ->
      write_csv W rows party_cols out_csv
      = ([FileWrite out_csv
            (format_row (fixed_columns ++ party_cols)
             ++ concat (map (fun r => format_row (projection party_cols r)) rows))],
         Ret tt)) /\
  (forall (r : row) (party_cols : list str),
      length (projection party_cols r) = length (fixed_columns ++ party_cols) /\
      length (projection party_cols r) = (5 + length party_cols)%nat) /\
  (forall (r : row) (party_cols : list str) (i : nat),
      (i < length party_cols)%nat ->
      nth (5 + i) (projection party_cols r) []
      = match Dict.get (_party_votes r) (nth i party_cols []) with
        | Some v => of_int v
        | None => u "0"
        end) /\
  (forall (r : row) (votes' : Dict.t Z) (party_cols : list str),
      (forall p, In p party_cols -> Dict.get votes' p = Dict.get (_party_votes r) p) ->
      projection party_cols (with_votes r votes') = projection party_cols r).
Proof.
  split; [|split; [|split; [|split]]].
  - intros H.
    destruct (main_success W argv H)
      as [url [out_csv [t0 [soup [ms [rows [pre [body [Hp [Hf [Hm [Hall [Ht [Hw Hq]]]]]]]]]]]]]].
    pose proof (find_municipalities_nonempty _ _ _ Hm) as Hne.
    pose proof (@scraped_fit W ms rows Hall) as Hfit.
    destruct (write_csv_ret _ _ _ _ Hw) as [Ho _].
    assert (E : writeheader (fixed_columns ++ columns_after [] rows) ++ body
                = format_row (fixed_columns ++ columns_after [] rows)
                  ++ concat (map (fun r => format_row
                                             (projection (columns_after [] rows) r))
                                 rows)).
    { rewrite (write_csv_projection W (columns_after [] rows) out_csv Ho Hfit) in Hw.
      apply file_write_inj in Hw. symmetry. exact Hw. }
    rewrite E in Ht. clear E Hw.
    destruct Hall as [|m first ms' rest Hfirst Hrest]; [contradiction|].
    cbn [columns_after] in *.
    exists url, out_csv, t0, soup, m, ms', first, rest.
    repeat split; try eassumption.
    destruct (main W argv) as [t r]. cbn [fst] in Ht. subst t.
    now apply written_app_one.
  - intros rows party_cols out_csv. apply write_csv_projection.
  - intros r party_cols. unfold projection.
    rewrite !length_app, !length_map. split; reflexivity.
  - intros r party_cols i Hi. unfold projection.
    rewrite app_nth2 by (rewrite length_map; cbn; lia).
    rewrite length_map.
    replace (5 + i - length fixed_columns)%nat with i by (cbn; lia).
    rewrite (nth_indep _ [] (of_int (Dict.get_default (_party_votes r) [] 0%Z)))
      by now rewrite length_map.
    rewrite (map_nth (fun p => of_int (Dict.get_default (_party_votes r) p 0%Z))).
    unfold Dict.get_default.
    now destruct (Dict.get (_party_votes r) (nth i party_cols [])).
  - apply projection_agree.
Qed.

Lemma schema_projection_witness :
  (exists url out_csv t0 soup m ms first rest,
     parse_args Sample.argv = ret (url, out_csv) /\
     fetch_soup Sample.web2 url = (t0, Ret soup) /\
     find_municipalities Sample.web2 soup url = ret (m :: ms) /\
     (exists t, scrape_municipality Sample.web2 m = (t, Ret first)) /\
     Forall2 (fun m r => exists t, scrape_municipality Sample.web2 m = (t, Ret r))
             ms rest /\
     written (main Sample.web2 Sample.argv)
     = [(out_csv,
         format_row (fixed_columns ++ _party_order first)
         ++ concat (map (fun r => format_row (projection (_party_order first) r))
                        (first :: rest)))]) /\
  write_csv Sample.web2
            [Row (u "1") (u "A") 10 9 8 [u "X"] [(u "X", 5%Z)];
             Row (u "2") (u "B") 20 19 18 [u "Y"] [(u "Y", 7%Z)]]
            [u "X"] (u "out.csv")
  = ([FileWrite (u "out.csv")
        (format_row (fixed_columns ++ [u "X"])
         ++ concat (map (fun r => format_row (projection [u "X"] r))
                        [Row (u "1") (u "A") 10 9 8 [u "X"] [(u "X", 5%Z)];
                         Row (u "2") (u "B") 20 19 18 [u "Y"] [(u "Y", 7%Z)]]))],
     Ret tt) /\
  nth (5 + 0) (projection [u "Strana X"; u "Strana Y"]
                          (Row [] [] 0 0 0 [] [(u "Strana Y", 90%Z); (u "Strana Z", 50%Z)]))
      []
  = match Dict.get [(u "Strana Y", 90%Z); (u "Strana Z", 50%Z)]
                   (nth 0 [u "Strana X"; u "Strana Y"] []) with
    | Some v => of_int v
    | None => u "0"
    end /\
  projection [u "Strana X"; u "Strana Y"]
             (with_votes (Row [] [] 0 0 0 [] [(u "Strana Y", 90%Z)])
                         [(u "Strana Y", 90%Z); (u "Strana Z", 50%Z)])
  = projection [u "Strana X"; u "Strana Y"] (Row [] [] 0 0 0 [] [(u "Strana Y", 90%Z)]).
Proof.
  split; [|split; [|split]].
  - apply (proj1 (schema_projection Sample.web2 Sample.argv)).
    vm_compute. reflexivity.
  - apply (proj1 (proj2 (schema_projection Sample.web2 Sample.argv))).
    + vm_compute. reflexivity.
    + unfold row_fits, summary_fits, fits.
      repeat (constructor || split); vm_compute; reflexivity.
  - apply (proj1 (proj2 (proj2 (proj2 (schema_projection Sample.web2 Sample.argv))))
             (Row [] [] 0 0 0 [] [(u "Strana Y", 90%Z); (u "Strana Z", 50%Z)])
             [u "Strana X"; u "Strana Y"] 0%nat).
    vm_compute. lia.
  - apply (proj2 (proj2 (proj2 (proj2 (schema_projection Sample.web2 Sample.argv))))).
    intros p [<- | [<- | []]]; vm_compute; reflexivity.
Defined.

(** Two municipalities with different parties: the second has no
    [Strana X], which is written as 0, and its [Strana Z] is not in the
    file. *)
Example differing_parties :
  written (main Sample.web2 Sample.argv)
  = [(u "out.csv",
      u "code,location,registered,envelopes,valid,Strana X,Strana Y" ++ [CR; LF]
      ++ u "500054,Alfa,100,80,75,40,35" ++ [CR; LF]
      ++ u "500062,Beta,200,150,140,0,90" ++ [CR; LF])].
Proof. vm_compute. reflexivity. Qed.

(* ================================================================= *)
(** * Further properties of the program *)

(* ================================================================= *)
(** ** More on numeric normalization *)

Lemma remove_char_app (c : codepoint) (a b : str) :
  remove_char c (a ++ b) = remove_char c a ++ remove_char c b.
Proof. apply filter_app. Qed.

(** X1.  A plain or non-breaking space anywhere in the text makes no
    difference to [clean_number]. *)
Theorem clean_number_ignores_spaces (a b : str) (c : codepoint) :
  c = space \/ c = nbsp ->
  clean_number (a ++ c :: b) = clean_number (a ++ b).
Proof.
  intros Hc. unfold clean_number.
  assert (E : remove_char space (remove_char nbsp (a ++ c :: b))
              = remove_char space (remove_char nbsp (a ++ b))).
  { rewrite !remove_char_app.
    destruct Hc as [-> | ->]; reflexivity. }
  now rewrite E.
Qed.

Lemma clean_number_ignores_spaces_witness :
  clean_number (u "1" ++ space :: u "234") = clean_number (u "1" ++ u "234").
Proof. apply clean_number_ignores_spaces. left. reflexivity. Defined.

Lemma decimal_value_isdecimal (c : codepoint) :
  isdecimal_cp c = true <-> exists d, decimal_value c = Some d.
Proof.
  unfold isdecimal_cp, in_ranges, decimal_value. split.
  - intros H. apply existsb_exists in H as [r [Hr Hc]].
    destruct (find _ decimal_table) as [r'|] eqn:E; [eauto|].
    apply (find_none _ _ E) in Hr. congruence.
  - intros [d H]. destruct (find _ decimal_table) as [r|] eqn:E; [|discriminate].
    apply find_some in E as [Hr Hc]. apply existsb_exists. eauto.
Qed.

Lemma int_digits_some (s : str) (acc : Z) :
  forallb isdecimal_cp s = true <-> exists n, int_digits acc s = Some n.
Proof.
  revert acc; induction s as [|c s IH]; intros acc; simpl.
  - split; eauto.
  - rewrite andb_true_iff. split.
    + intros [Hc Hs]. apply decimal_value_isdecimal in Hc as [d ->].
      now apply IH.
    + intros [n H]. destruct (decimal_value c) as [d|] eqn:E; [|discriminate].
      split; [apply decimal_value_isdecimal; eauto | apply (IH (10 * acc + d)%Z); eauto].
Qed.

(** X2.  [clean_number] has three outcomes and no effect on the outside:
    zero when the remainder is not made of digits; the [ValueError] exactly
    when the remainder is made of digits and one of them is not decimal or
    there are more than 4300 of them; and otherwise a number that is not
    negative and below [10 ^ 4300]. *)
Theorem clean_number_outcome (text : str) :
  (isdigit (remainder text) = false -> clean_number text = ret 0%Z) /\
  (clean_number text = raise ValueError <->
   isdigit (remainder text) = true /\
   (forallb isdecimal_cp (remainder text) = false \/
    (max_str_digits < Z.of_nat (length (remainder text)))%Z)) /\
  ((exists n, clean_number text = ret n /\ (0 <= n < 10 ^ max_str_digits)%Z)
   \/ clean_number text = raise ValueError).
Proof.
  split; [|split].
  - intros H. unfold clean_number. fold (remainder text). now rewrite H.
  - unfold clean_number. fold (remainder text).
    destruct (isdigit (remainder text)) eqn:Hd.
    + destruct (int (remainder text)) as [n|] eqn:Hi.
      * split; [discriminate|]. intros [_ H]. exfalso.
        apply int_some in Hi as [_ [Hl Hi]].
        assert (Hs : forallb isdecimal_cp (remainder text) = true)
          by (apply (int_digits_some _ 0); eauto).
        destruct H as [H | H]; [congruence | lia].
      * split; [|reflexivity]. intros _. split; [reflexivity|].
        apply int_none in Hi as [Hi | [Hi | Hi]].
        -- rewrite Hi in Hd. discriminate Hd.
        -- now right.
        -- left. destruct (forallb isdecimal_cp (remainder text)) eqn:Hs;
             [|reflexivity].
           apply (int_digits_some _ 0) in Hs as [n Hn]. congruence.
    + split; [discriminate | intros [H _]; discriminate H].
  - destruct (clean_number_cases text) as [[n [E Hn]] | E]; [left | now right].
    exists n. split; [exact E|]. split; [exact Hn|].
    now apply str_of_int_some; [|apply (clean_number_fits _ E)].
Qed.

Lemma clean_number_outcome_witness :
  clean_number (u "12a") = ret 0%Z /\ clean_number (u "1²") = raise ValueError.
Proof.
  split.
  - apply (proj1 (clean_number_outcome (u "12a"))). vm_compute. reflexivity.
  - apply (proj1 (proj2 (clean_number_outcome (u "1²")))).
    split; [|left]; vm_compute; reflexivity.
Defined.

Lemma in_ranges_lower_bound (tbl : list (N * N)) (lo c : codepoint) :
  Forall (fun r => (lo <= fst r)%N) tbl -> in_ranges tbl c = true -> (lo <= c)%N.
Proof.
  intros Htbl H. unfold in_ranges in H. apply existsb_exists in H as [r [Hr Hc]].
  rewrite Forall_forall in Htbl. apply Htbl in Hr.
  apply andb_true_iff in Hc as [Hc _]. apply N.leb_le in Hc. lia.
Qed.

(** Below U+0080 the digits are the decimal digits. *)
Lemma isdigit_ascii_decimal (c : codepoint) :
  (c < 128)%N -> isdigit_cp c = true -> isdecimal_cp c = true.
Proof.
  intros Hc H. unfold isdigit_cp in H. apply orb_true_iff in H as [H | H];
    [exact H|].
  apply (in_ranges_lower_bound (lo := 0xB2%N)) in H; [lia|].
  unfold digit_only_table. repeat constructor; cbn [fst]; lia.
Qed.

Lemma In_remainder (text : str) (c : codepoint) :
  In c (remainder text) -> In c text.
Proof.
  unfold remainder. intros H.
  destruct (strip_spec (remove_char space (remove_char nbsp text)))
    as [l [r [E _]]].
  assert (Hin : In c (remove_char space (remove_char nbsp text))).
  { rewrite E. apply in_or_app. right. apply in_or_app. now left. }
  unfold remove_char in Hin. apply filter_In in Hin as [Hin _].
  now apply filter_In in Hin as [Hin _].
Qed.

(** X3.  On text below U+0080 the only failure of [clean_number] is the
    length of the number: it raises exactly when the remainder is made of
    more than 4300 digits, and returns a number that is not negative when
    the remainder has at most 4300 characters. *)
Theorem clean_number_ascii_safe (text : str) :
  Forall (fun c => (c < 128)%N) text ->
  (clean_number text = raise ValueError <->
   isdigit (remainder text) = true /\
   (max_str_digits < Z.of_nat (length (remainder text)))%Z) /\
  ((Z.of_nat (length (remainder text)) <= max_str_digits)%Z ->
   exists n, clean_number text = ret n /\ (0 <= n)%Z).
Proof.
  intros Hascii.
  assert (Hall : isdigit (remainder text) = true ->
                 exists n, int_digits 0 (remainder text) = Some n).
  { intros Hd. apply int_digits_some. apply forallb_forall. intros c Hc.
    apply isdigit_ascii_decimal.
    - rewrite Forall_forall in Hascii. apply Hascii. now apply In_remainder.
    - unfold isdigit in Hd. destruct (remainder text) eqn:E; [discriminate|].
      rewrite forallb_forall in Hd. now apply Hd. }
  assert (Hiff : clean_number text = raise ValueError <->
                 isdigit (remainder text) = true /\
                 (max_str_digits < Z.of_nat (length (remainder text)))%Z).
  { unfold clean_number. fold (remainder text).
    destruct (isdigit (remainder text)) eqn:Hd;
      [|split; [discriminate | intros [H _]; discriminate H]].
    destruct (Hall eq_refl) as [n Hn].
    destruct (int (remainder text)) as [m|] eqn:Hi.
    - split; [discriminate|]. intros [_ H].
      apply int_some in Hi as [_ [Hl _]]. lia.
    - split; [|reflexivity]. intros _. split; [reflexivity|].
      apply int_none in Hi as [Hi | [Hi | Hi]]; [|exact Hi | congruence].
      rewrite Hi in Hd. discriminate Hd. }
  split; [exact Hiff|]. intros Hlen.
  destruct (clean_number_cases text) as [Hret | Hr]; [exact Hret|].
  apply Hiff in Hr as [_ Hr]. lia.
Qed.

Lemma clean_number_ascii_safe_witness :
  exists n, clean_number (u " 12 345 kusu") = ret n /\ (0 <= n)%Z.
Proof.
  apply (clean_number_ascii_safe (text := u " 12 345 kusu")).
  - vm_compute. repeat constructor.
  - vm_compute. discriminate.
Defined.

(** X4.  A count that is not negative can be written exactly when it is
    below [10 ^ 4300]; it is then rendered as decimal digits, the CSV
    writer leaves it unquoted, and [clean_number] reads it back. *)
Theorem count_round_trip (n : Z) :
  (0 <= n)%Z ->
  (to_str (VInt n) = None <-> (10 ^ max_str_digits <= n)%Z) /\
  forall s, to_str (VInt n) = Some s ->
    s = of_int n /\
    s <> [] /\
    Forall ascii_digit s /\
    format_field s = s /\
    clean_number s = ret n.
Proof.
  intros Hn. cbn [to_str]. split; [now apply str_of_int_some|].
  intros s Hs.
  assert (E : s = of_int n).
  { unfold str_of_int in Hs. destruct (_ <? _)%Z; [discriminate Hs|].
    now injection Hs. }
  subst s. destruct (of_int_value Hn) as [Hne [Hd _]].
  repeat split; try assumption.
  - unfold format_field.
    assert (E : existsb special (of_int n) = false).
    { destruct (existsb special (of_int n)) eqn:E; [|reflexivity].
      apply existsb_exists in E as [c [Hc Hsp]].
      rewrite Forall_forall in Hd. apply Hd in Hc. unfold ascii_digit in Hc.
      unfold special, comma, dquote, CR, LF in Hsp.
      repeat rewrite orb_true_iff in Hsp. repeat rewrite N.eqb_eq in Hsp. lia. }
    now rewrite E.
  - apply clean_number_of_int. split; [exact Hn|]. now apply str_of_int_some.
Qed.

Lemma count_round_trip_witness :
  u "1234" = of_int 1234 /\
  u "1234" <> [] /\
  Forall ascii_digit (u "1234") /\
  format_field (u "1234") = u "1234" /\
  clean_number (u "1234") = ret 1234%Z.
Proof.
  apply (proj2 (@count_round_trip 1234 ltac:(lia)) (u "1234")).
  vm_compute. reflexivity.
Defined.

(* ================================================================= *)
(** ** More on the command line *)

Lemma lstrip_fixed (x : str) :
  (forall c rest, x = c :: rest -> isspace_cp c = false) -> lstrip x = x.
Proof.
  intros H. destruct x as [|c rest]; [reflexivity|].
  simpl. now rewrite (H c rest eq_refl).
Qed.

Lemma strip_idempotent (s : str) : strip (strip s) = strip s.
Proof.
  destruct (strip_spec s) as [l [r [_ [_ [_ [Hhead Hlast]]]]]].
  set (x := strip s) in *. clearbody x.
  unfold strip, rstrip. rewrite (lstrip_fixed Hhead).
  rewrite lstrip_fixed; [apply rev_involutive|].
  intros c rest E. apply (Hlast c (rev rest)).
  apply (f_equal (@rev _)) in E. rewrite rev_involutive in E. exact E.
Qed.

(** X5.  What [parse_args] returns is in normal form: both strings are
    stripped already, and given back as arguments (under any program name)
    they are accepted and returned unchanged. *)
Theorem parse_args_normal_form (argv : list str) (url out_csv : str) :
  parse_args argv = ret (url, out_csv) ->
  strip url = url /\ strip out_csv = out_csv /\
  forall prog, parse_args [prog; url; out_csv] = ret (url, out_csv).
Proof.
  intros H. apply parse_args_ret in H.
  destruct H as [prog0 [a1 [a2 [-> [-> [-> [Hp [Hc He]]]]]]]].
  split; [apply strip_idempotent | split; [apply strip_idempotent|]].
  intros prog. apply parse_args_ret. exists prog, (strip a1), (strip a2).
  rewrite !strip_idempotent. repeat split; assumption.
Qed.

Lemma parse_args_normal_form_witness :
  strip Sample.base = Sample.base /\ strip (u "out.CSV") = u "out.CSV" /\
  forall prog, parse_args [prog; Sample.base; u "out.CSV"]
               = ret (Sample.base, u "out.CSV").
Proof.
  apply (@parse_args_normal_form
           [u "main.py"; u "  " ++ Sample.base; u "out.CSV" ++ [10%N]]).
  vm_compute. reflexivity.
Defined.

(* ================================================================= *)
(** ** More on the Municipality Locator *)

Lemma flat_map_nil {A B} (f : A -> list B) (l : list A) :
  flat_map f l = [] <-> forall x, In x l -> f x = [].
Proof.
  induction l as [|x l IH]; simpl.
  - split; [intros _ y [] | reflexivity].
  - split.
    + intros H. apply app_eq_nil in H as [Hx Hl]. intros y [<- | Hy];
        [exact Hx | now apply IH].
    + intros H. rewrite (H x (or_introl eq_refl)). apply IH. intros y Hy.
      apply H. now right.
Qed.

Lemma collect_nil (W : world) (soup : node) (base_url : str) :
  collect_municipalities W soup base_url = [] <->
  forall link, In link (select_a_href soup) -> link_entry W base_url link = None.
Proof.
  unfold collect_municipalities. rewrite collect_from. cbn [app].
  rewrite flat_map_nil. unfold entries. split; intros H link Hin;
    specialize (H link Hin); destruct (link_entry W base_url link);
    congruence.
Qed.

(** X6.  The Locator leaves with its fatal message exactly when no
    hyperlink of the page yields an entry; as soon as one does, it returns
    a list that is not empty. *)
Theorem find_municipalities_fatal_iff (W : world) (district_soup : node)
    (base_url : str) :
  (find_municipalities W district_soup base_url = die no_municipalities <->
   forall link, In link (select_a_href district_soup) ->
                link_entry W base_url link = None) /\
  ((exists link m, In link (select_a_href district_soup) /\
                   link_entry W base_url link = Some m) ->
   exists result,
     find_municipalities W district_soup base_url = ret result /\ result <> []).
Proof.
  rewrite <- collect_nil. unfold find_municipalities.
  set (ms := collect_municipalities W district_soup base_url).
  split.
  - split.
    + intros H. destruct ms as [|m ms'] eqn:E; [reflexivity|].
      assert (Hne : Dict.values (unique_by_code (m :: ms')) <> [])
        by (apply unique_nonempty; discriminate).
      destruct (Dict.values (unique_by_code (m :: ms'))); [contradiction|].
      discriminate H.
    + intros ->. reflexivity.
  - intros [link [m [Hin Hm]]].
    assert (Hms : ms <> []).
    { intros E. unfold ms in E. rewrite collect_nil in E.
      rewrite (E link Hin) in Hm. discriminate. }
    pose proof (unique_nonempty Hms) as Hne.
    destruct (Dict.values (unique_by_code ms)) as [|x l]; [contradiction|].
    exists (x :: l). split; [reflexivity | discriminate].
Qed.

Lemma find_municipalities_fatal_iff_witness :
  exists result,
    find_municipalities Sample.web Sample.district_page Sample.base = ret result /\
    result <> [].
Proof.
  apply find_municipalities_fatal_iff.
  eexists _, _. split; [left; reflexivity|]. vm_compute. reflexivity.
Defined.

Lemma find_municipalities_values (W : world) (soup : node) (base_url : str)
    (result : list municipality) :
  find_municipalities W soup base_url = ret result ->
  result = Dict.values (unique_by_code (collect_municipalities W soup base_url)).
Proof.
  unfold find_municipalities. destruct (Dict.values _); intros H.
  - discriminate H.
  - now injection H as <-.
Qed.

Lemma unique_values_last (ms : list municipality) (m : municipality) :
  In m (Dict.values (unique_by_code ms)) -> last_with_code (code m) ms = Some m.
Proof.
  intros Hin. rewrite <- unique_get.
  unfold Dict.values in Hin. apply in_map_iff in Hin as [[k v] [Hv Hin]].
  simpl in Hv. subst v.
  pose proof (unique_entries ms) as H. rewrite Forall_forall in H.
  specialize (H _ Hin). simpl in H. subst k.
  apply In_get; [apply unique_NoDup | assumption].
Qed.

(** X7.  What the Locator returns: no two entries share a code; every
    entry is one the first loop built, so its code is numeric and its URL
    is the resolved target of a link with the parameter; and every code the
    first loop saw is still there. *)
Theorem find_municipalities_result (W : world) (district_soup : node)
    (base_url : str) (result : list municipality) :
  find_municipalities W district_soup base_url = ret result ->
  NoDup (map code result) /\
  (forall m, In m result ->
     In m (collect_municipalities W district_soup base_url) /\
     isdigit (code m) = true /\
     exists href, occurs_in (u "xobec=") href /\
                  url m = urljoin W base_url href) /\
  (forall m, In m (collect_municipalities W district_soup base_url) ->
     In (code m) (map code result)).
Proof.
  intros H. apply find_municipalities_values in H. subst result.
  set (ms := collect_municipalities W district_soup base_url).
  split; [|split].
  - rewrite unique_values_codes. apply unique_NoDup.
  - intros m Hin. apply unique_values_last in Hin.
    unfold last_with_code in Hin. apply find_some in Hin as [Hin _].
    apply in_rev in Hin. split; [exact Hin|].
    unfold ms, collect_municipalities in Hin. rewrite collect_from in Hin.
    cbn [app] in Hin. apply in_flat_map in Hin as [[a anc] [_ Hm]].
    unfold entries, link_entry, retained in Hm. cbn [fst snd] in Hm.
    destruct (contains _ _) eqn:Hc; cbn [andb] in Hm; [|contradiction].
    destruct (isdigit _) eqn:Hd; [|contradiction].
    destruct (find_parent _ _) as [tr|]; [|contradiction].
    destruct (2 <=? _)%nat; [|contradiction].
    destruct Hm as [<- | []]. cbn [code url]. split; [exact Hd|].
    exists (link_href a). split; [now apply contains_spec | reflexivity].
  - intros m Hin. rewrite unique_values_codes, unique_keys.
    apply In_first_seen. now apply in_map.
Qed.

Lemma find_municipalities_result_witness :
  NoDup (map code
           [ Municipality (u "500054") (u "Alfa II")
               (u "https://www.volby.cz/pls/ps2017nss/ps311?xobec=500054");
             Municipality (u "500062") (u "Beta")
               (u "https://www.volby.cz/pls/ps2017nss/ps311?xobec=500062") ]).
Proof.
  assert (H : find_municipalities Sample.web Sample.district_page_dup Sample.base
              = ret [ Municipality (u "500054") (u "Alfa II")
                        (u "https://www.volby.cz/pls/ps2017nss/ps311?xobec=500054");
                      Municipality (u "500062") (u "Beta")
                        (u "https://www.volby.cz/pls/ps2017nss/ps311?xobec=500062") ])
    by (vm_compute; reflexivity).
  exact (proj1 (@find_municipalities_result _ _ _ _ H)).
Defined.

Lemma set_absent {V} (d : Dict.t V) (k : str) (v : V) :
  Dict.mem k d = false -> Dict.set d k v = d ++ [(k, v)].
Proof.
  unfold Dict.mem. induction d as [|[k' v'] d IH]; simpl; [reflexivity|].
  destruct (PyStr.eqb k' k); [discriminate|]. intros H. now rewrite IH.
Qed.

Lemma unique_no_duplicates (ms : list municipality) :
  NoDup (map code ms) -> unique_by_code ms = map (fun m => (code m, m)) ms.
Proof.
  induction ms as [|m ms IH] using rev_ind; intros Hnd; [reflexivity|].
  rewrite map_app in Hnd. cbn [map] in Hnd.
  pose proof (NoDup_remove_2 _ _ _ Hnd) as Hnin. rewrite app_nil_r in Hnin.
  apply NoDup_remove_1 in Hnd. rewrite app_nil_r in Hnd.
  rewrite unique_by_code_snoc, (IH Hnd), map_app. cbn [map].
  apply set_absent.
  destruct (Dict.mem _ _) eqn:E; [|reflexivity].
  apply mem_In_keys in E. unfold Dict.keys in E. rewrite map_map in E.
  cbn [fst] in E. contradiction.
Qed.

(** X8.  On a page without duplicate codes the Locator returns the entries
    of the first loop unchanged, in page order. *)
Theorem find_municipalities_without_duplicates (W : world) (district_soup : node)
    (base_url : str) :
  NoDup (map code (collect_municipalities W district_soup base_url)) ->
  collect_municipalities W district_soup base_url <> [] ->
  find_municipalities W district_soup base_url
  = ret (collect_municipalities W district_soup base_url).
Proof.
  intros Hnd Hne. unfold find_municipalities.
  rewrite (@unique_no_duplicates _ Hnd). unfold Dict.values. rewrite map_map.
  cbn [snd]. rewrite map_id.
  destruct (collect_municipalities W district_soup base_url);
    [contradiction | reflexivity].
Qed.

Lemma find_municipalities_without_duplicates_witness :
  find_municipalities Sample.web Sample.district_page Sample.base
  = ret (collect_municipalities Sample.web Sample.district_page Sample.base).
Proof.
  apply find_municipalities_without_duplicates.
  - vm_compute. repeat constructor; simpl; intuition discriminate.
  - vm_compute. discriminate.
Defined.

(* ================================================================= *)
(** ** Computations without effects *)

Lemma rove_ret {A} (a : A) : returns_or_value_error (ret a).
Proof. left. now exists a. Qed.

Lemma rove_raise {A} : returns_or_value_error (@raise A ValueError).
Proof. now right. Qed.

Lemma rove_bind {A B} (m : M A) (f : A -> M B) :
  returns_or_value_error m -> (forall a, returns_or_value_error (f a)) ->
  returns_or_value_error (bind m f).
Proof.
  intros [[a ->] | ->] Hf; [|now right].
  rewrite bind_ret_l. apply Hf.
Qed.

Lemma rove_for_each {A S} (body : S -> A -> M S) (xs : list A) (s : S) :
  (forall s x, returns_or_value_error (body s x)) ->
  returns_or_value_error (for_each xs body s).
Proof.
  intros Hb. revert s; induction xs as [|x xs IH]; intros s; cbn [for_each].
  - apply rove_ret.
  - apply rove_bind; [apply Hb | exact IH].
Qed.

Lemma rove_clean_number (text : str) : returns_or_value_error (clean_number text).
Proof.
  destruct (clean_number_cases text) as [[n [-> _]] | ->];
    [apply rove_ret | apply rove_raise].
Qed.

Lemma clean_number_ret_inv (text : str) (t : list event) (n : Z) :
  clean_number text = (t, Ret n) -> t = [] /\ (0 <= n)%Z.
Proof.
  destruct (clean_number_cases text) as [[m [-> Hm]] | ->]; intros H.
  - injection H as <- <-. now split.
  - discriminate H.
Qed.

Lemma rove_by_headers (soup : node) (h : str) :
  returns_or_value_error (by_headers soup h).
Proof.
  unfold by_headers. destruct (find_td_headers h soup);
    [apply rove_clean_number | apply rove_ret].
Qed.

Lemma by_headers_ret_inv (soup : node) (h : str) (t : list event) (n : Z) :
  by_headers soup h = (t, Ret n) -> t = [] /\ (0 <= n)%Z.
Proof.
  unfold by_headers. destruct (find_td_headers h soup).
  - apply clean_number_ret_inv.
  - intros H. injection H as <- <-. split; [reflexivity | lia].
Qed.

Lemma rove_scan_row (found : summary) (row : node) :
  returns_or_value_error (scan_row found row).
Proof.
  unfold scan_row. destruct (_ <? 2)%nat; [apply rove_ret|].
  apply rove_for_each. intros s [label key]. unfold match_label.
  destruct (_ && _); [|apply rove_ret].
  apply rove_bind; [apply rove_clean_number | intros a; apply rove_ret].
Qed.

Lemma rove_extract_summary_numbers (soup : node) :
  returns_or_value_error (extract_summary_numbers soup).
Proof.
  unfold extract_summary_numbers.
  apply rove_bind; [apply rove_by_headers | intros r].
  apply rove_bind; [apply rove_by_headers | intros e].
  apply rove_bind; [apply rove_by_headers | intros v].
  destruct (negb _); [|apply rove_ret].
  apply rove_for_each. intros s x. apply rove_scan_row.
Qed.

Lemma found_set_nonneg (found : summary) (key : field) (v : Z) :
  nonneg_summary found -> (0 <= v)%Z -> nonneg_summary (found_set found key v).
Proof.
  unfold nonneg_summary. intros [H1 [H2 H3]] Hv.
  destruct key; cbn; repeat split; assumption.
Qed.

Lemma scan_row_nonneg (found : summary) (row : node) (t : list event)
    (found' : summary) :
  nonneg_summary found -> scan_row found row = (t, Ret found') ->
  nonneg_summary found'.
Proof.
  unfold scan_row. destruct (_ <? 2)%nat.
  - intros H E. now injection E as _ <-.
  - apply for_each_inv. intros s [label key] t0 s' Hs. unfold match_label.
    destruct (_ && _).
    + intros E. apply bind_ret_inv in E as [t1 [v [t2 [Hc [E _]]]]].
      injection E as _ <-. apply clean_number_ret_inv in Hc as [_ Hv].
      now apply found_set_nonneg.
    + intros E. now injection E as _ <-.
Qed.

Lemma returns_silent {A} (m : M A) (t : list event) (a : A) :
  returns_or_value_error m -> m = (t, Ret a) -> t = [].
Proof.
  intros [[b ->] | ->] H; [now injection H | discriminate H].
Qed.

Lemma extract_summary_numbers_ret_inv (soup : node) (t : list event) (s : summary) :
  extract_summary_numbers soup = (t, Ret s) -> t = [] /\ nonneg_summary s.
Proof.
  intros Hs. split; [exact (returns_silent (rove_extract_summary_numbers soup) Hs)|].
  unfold extract_summary_numbers in Hs.
  apply bind_ret_inv in Hs as [t1 [r [t2 [Hr [Hs _]]]]].
  apply bind_ret_inv in Hs as [t3 [e [t4 [He [Hs _]]]]].
  apply bind_ret_inv in Hs as [t5 [v [t6 [Hv [Hs _]]]]].
  apply by_headers_ret_inv in Hr as [_ Hr], He as [_ He], Hv as [_ Hv].
  assert (H0 : nonneg_summary (Summary r e v)) by (repeat split; assumption).
  destruct (negb _).
  - revert Hs. apply for_each_inv; [|exact H0].
    intros s0 x t0 s' Hs0. now apply scan_row_nonneg.
  - now injection Hs as _ <-.
Qed.

(** X9.  The Summary Extractor has no effect on the outside and never
    leaves through [sys.exit]: it returns three numbers, none of them
    negative, or it ends with the [ValueError] of [clean_number]. *)
Theorem extract_summary_numbers_outcome (muni_soup : node) :
  (exists s, extract_summary_numbers muni_soup = ret s /\ nonneg_summary s)
  \/ extract_summary_numbers muni_soup = raise ValueError.
Proof.
  destruct (rove_extract_summary_numbers muni_soup) as [[s Hs] | H];
    [left | now right].
  exists s. split; [exact Hs|].
  now apply extract_summary_numbers_ret_inv in Hs.
Qed.

(* ================================================================= *)
(** ** The fallback scan, row by row *)

Lemma labels_by_field :
  labels = [ (label_of registered, registered);
             (label_of envelopes, envelopes);
             (label_of valid, valid) ].
Proof. unfold labels, label_of. reflexivity. Qed.

Lemma match_label_step (cells : list str) (found : summary) (key : field) :
  (contains (label_of key) (nth 0 cells []) = true ->
   exists n, clean_number (nth 1 cells []) = ret n) ->
  match_label cells found (label_of key, key)
  = ret (if contains (label_of key) (nth 0 cells []) && (found_get found key =? 0)%Z
         then found_set found key (clean_value (nth 1 cells []))
         else found).
Proof.
  intros H. unfold match_label.
  destruct (contains (label_of key) (nth 0 cells [])); [|reflexivity].
  destruct (H eq_refl) as [n Hn]. unfold clean_value. rewrite Hn.
  cbn [andb]. destruct (found_get found key =? 0)%Z; [|reflexivity].
  now rewrite bind_ret_l.
Qed.

Lemma scan_row_step (found : summary) (row : node) :
  scan_cleans row ->
  scan_row found row
  = ret (Summary (scan_value registered found row)
                 (scan_value envelopes found row)
                 (scan_value valid found row)).
Proof.
  intros Hc. unfold scan_row. fold (cell_texts row).
  unfold scan_value, labelled, labelled_value. unfold scan_cleans, labelled in Hc.
  destruct (length (cell_texts row)) as [|[|n]] eqn:Hlen;
    cbn [Nat.ltb Nat.leb andb]; try (now destruct found).
  rewrite labels_by_field. cbn [for_each].
  assert (H : forall key,
             contains (label_of key) (nth 0 (cell_texts row) []) = true ->
             exists n, clean_number (nth 1 (cell_texts row) []) = ret n).
  { intros key Hk. apply (Hc key). now rewrite Hk. }
  rewrite (match_label_step _ _ registered (H registered)), bind_ret_l.
  rewrite (match_label_step _ _ envelopes (H envelopes)), bind_ret_l.
  rewrite (match_label_step _ _ valid (H valid)), bind_ret_l.
  destruct found as [r e v].
  destruct (contains (label_of registered) _), (contains (label_of envelopes) _),
    (contains (label_of valid) _);
    cbn [andb found_get found_set s_registered s_envelopes s_valid];
    destruct (r =? 0)%Z;
    cbn [andb found_get found_set s_registered s_envelopes s_valid];
    destruct (e =? 0)%Z;
    cbn [andb found_get found_set s_registered s_envelopes s_valid];
    destruct (v =? 0)%Z; reflexivity.
Qed.

Lemma scan_rows (rows : list node) (found : summary) :
  Forall scan_cleans rows ->
  for_each rows scan_row found
  = ret (Summary (fill registered (found_get found registered) rows)
                 (fill envelopes (found_get found envelopes) rows)
                 (fill valid (found_get found valid) rows)).
Proof.
  intros H. revert found. induction H as [|row rows Hrow _ IH]; intros found.
  - now destruct found.
  - cbn [for_each]. rewrite (scan_row_step found Hrow), bind_ret_l, IH.
    reflexivity.
Qed.

Lemma fill_nonzero (key : field) (v : Z) (rows : list node) :
  v <> 0%Z -> fill key v rows = v.
Proof.
  intros Hv. unfold fill. induction rows as [|row rows IH]; [reflexivity|].
  cbn [fold_left]. apply Z.eqb_neq in Hv. rewrite Hv, andb_false_r.
  apply IH.
Qed.

Lemma fill_fallback (key : field) (v : Z) (rows : list node) :
  fill key v rows = fallback key v rows.
Proof.
  unfold fallback. destruct (v =? 0)%Z eqn:Hv.
  - apply Z.eqb_eq in Hv. subst v.
    induction rows as [|row rows IH]; [reflexivity|].
    unfold fill. cbn [fold_left filter]. rewrite andb_true_r.
    destruct (labelled key row).
    + cbn [map first_nonzero].
      destruct (labelled_value row =? 0)%Z eqn:Hw.
      * apply Z.eqb_eq in Hw. rewrite Hw. exact IH.
      * apply fill_nonzero. now apply Z.eqb_neq.
    + exact IH.
  - apply fill_nonzero. now apply Z.eqb_neq.
Qed.

Lemma scan_cleansb_Forall (rows : list node) :
  forallb scan_cleansb rows = true -> Forall scan_cleans rows.
Proof.
  intros H. apply Forall_forall. intros row Hrow.
  rewrite forallb_forall in H. specialize (H row Hrow).
  unfold scan_cleansb in H. intros key Hk.
  assert (E : labelled registered row || labelled envelopes row
              || labelled valid row = true).
  { destruct key; rewrite Hk; rewrite ?orb_true_r; reflexivity. }
  rewrite E in H. cbn [negb orb] in H.
  destruct (clean_number_cases (nth 1 (cell_texts row) [])) as [[n [Hn _]] | Hn].
  - now exists n.
  - rewrite Hn in H. discriminate H.
Qed.

(** X10.  Which row wins in the fallback.  When the second cells of the
    labelled rows normalize to numbers, each field of the result is its
    primary value if that is not zero, and otherwise the first number that
    is not zero among the rows with at least two cells whose first cell
    contains the label of the field (zero if there is none); the three
    fields are filled independently of each other. *)
Theorem extract_summary_numbers_fallback (muni_soup : node) (r e v : Z) :
  by_headers muni_soup (u "sa2") = ret r ->
  by_headers muni_soup (u "sa3") = ret e ->
  by_headers muni_soup (u "sa6") = ret v ->
  Forall scan_cleans (select_table_tr muni_soup) ->
  extract_summary_numbers muni_soup
  = ret (Summary (fallback registered r (select_table_tr muni_soup))
                 (fallback envelopes e (select_table_tr muni_soup))
                 (fallback valid v (select_table_tr muni_soup))).
Proof.
  intros Hr He Hv Hc. unfold extract_summary_numbers.
  rewrite Hr, bind_ret_l, He, bind_ret_l, Hv, bind_ret_l.
  destruct (negb _) eqn:Hz.
  - rewrite (scan_rows _ Hc). cbn [found_get s_registered s_envelopes s_valid].
    now rewrite !fill_fallback.
  - apply negb_false_iff in Hz. apply andb_true_iff in Hz as [Hz Hz3].
    apply andb_true_iff in Hz as [Hz1 Hz2].
    apply negb_true_iff in Hz1, Hz2, Hz3.
    unfold fallback. now rewrite Hz1, Hz2, Hz3.
Qed.

Lemma extract_summary_numbers_fallback_witness :
  extract_summary_numbers Sample.zero_page
  = ret (Summary (fallback registered 0 (select_table_tr Sample.zero_page))
                 (fallback envelopes 80 (select_table_tr Sample.zero_page))
                 (fallback valid 75 (select_table_tr Sample.zero_page))).
Proof.
  apply extract_summary_numbers_fallback.
  - vm_compute. reflexivity.
  - vm_compute. reflexivity.
  - vm_compute. reflexivity.
  - apply scan_cleansb_Forall. vm_compute. reflexivity.
Defined.

Example fallback_first_nonzero :
  fallback registered 0 (select_table_tr Sample.zero_page) = 55%Z /\
  fallback envelopes 80 (select_table_tr Sample.zero_page) = 80%Z.
Proof. split; vm_compute; reflexivity. Qed.

(* ================================================================= *)
(** ** More on the Party Vote Extractor *)

Lemma rove_party_row (state : list str * Dict.t Z) (row : node) :
  returns_or_value_error (party_row state row).
Proof.
  destruct state as [order votes]. unfold party_row.
  destruct (select_one_td_class _ row); [|apply rove_ret].
  destruct (_ <? 3)%nat; [apply rove_ret|].
  apply rove_bind; [apply rove_clean_number | intros v].
  destruct (_ && _); apply rove_ret.
Qed.

Lemma party_row_ok (state : list str * Dict.t Z) (row : node)
    (t : list event) (state' : list str * Dict.t Z) :
  party_state_ok state -> party_row state row = (t, Ret state') ->
  party_state_ok state'.
Proof.
  destruct state as [order votes]. intros Hok. unfold party_row.
  destruct (select_one_td_class _ row) as [name_td|];
    [|intros H; now injection H as _ <-].
  destruct (_ <? 3)%nat; [intros H; now injection H as _ <-|].
  intros H. apply bind_ret_inv in H as [t1 [v [t2 [Hc [H _]]]]].
  apply clean_number_ret_inv in Hc as [_ Hv].
  destruct (PyStr.eqb _ []) eqn:Hname; cbn [negb andb] in H;
    [now injection H as _ <-|].
  destruct (Dict.mem _ votes) eqn:Hmem; cbn [negb] in H;
    injection H as _ <-; [exact Hok|].
  destruct Hok as [Hk [Hnd [Hne Hpos]]]. cbn [fst snd] in *.
  set (party := get_text_strip (u " ") name_td) in *.
  assert (Hnin : ~ In party order).
  { intros Hin. rewrite <- Hk in Hin. apply mem_In_keys in Hin. congruence. }
  unfold party_state_ok. cbn [fst snd]. rewrite (@set_absent _ votes party v Hmem).
  repeat split.
  - unfold Dict.keys. rewrite map_app. cbn [map fst]. now rewrite <- Hk.
  - apply NoDup_app; [assumption | repeat constructor; auto |].
    intros x Hx [<- | []]. contradiction.
  - intros Hin. apply in_app_or in Hin as [Hin | [Hin | []]]; [contradiction|].
    apply eqb_neq in Hname. congruence.
  - apply Forall_app. split; [assumption | now repeat constructor].
Qed.

Lemma get_In {V} (d : Dict.t V) (k : str) (v : V) :
  Dict.get d k = Some v -> exists k', In (k', v) d.
Proof.
  induction d as [|[k' v'] d IH]; simpl; [discriminate|].
  destruct (PyStr.eqb k' k).
  - intros H. injection H as <-. exists k'. now left.
  - intros H. destruct (IH H) as [k0 Hk0]. exists k0. now right.
Qed.

Lemma extract_party_votes_cases (soup : node) :
  (exists state,
      extract_party_votes soup = ret state /\
      party_state_ok state /\ snd state <> [])
  \/ extract_party_votes soup = die no_party_results
  \/ extract_party_votes soup = raise ValueError.
Proof.
  unfold extract_party_votes.
  destruct (rove_for_each party_row (select_table_tr soup) ([], [])
              rove_party_row) as [[[order votes] Hloop] | Hloop].
  - assert (Hok : party_state_ok (order, votes)).
    { eapply (for_each_inv party_state_ok); [| |exact Hloop].
      - intros s x t s'. apply party_row_ok.
      - repeat split; [constructor | intros [] | constructor]. }
    rewrite Hloop, bind_ret_l. cbn [snd].
    destruct votes as [|kv votes]; [right; now left|].
    left. exists (order, kv :: votes). repeat split; try apply Hok.
    discriminate.
  - right. right. now rewrite Hloop.
Qed.

Lemma extract_party_votes_ret_inv (soup : node) (t : list event)
    (state : list str * Dict.t Z) :
  extract_party_votes soup = (t, Ret state) ->
  t = [] /\ party_state_ok state /\ snd state <> [].
Proof.
  destruct (extract_party_votes_cases soup) as [[st [-> H]] | [-> | ->]];
    intros E; try discriminate E.
  injection E as <- <-. now split.
Qed.

(** X11.  The Party Vote Extractor ends in one of three ways.  It returns
    an order and a mapping: then the order is not empty, it lists the keys
    of the mapping, no name occurs twice or is empty, and no count is
    negative.  Or it prints its fatal message and leaves with code 1.  Or
    it ends with the [ValueError] of [clean_number].  In the first and the
    last case it has had no effect on the outside. *)
Theorem extract_party_votes_outcome (muni_soup : node) :
  (exists party_order votes,
      extract_party_votes muni_soup = ret (party_order, votes) /\
      party_order <> [] /\
      Dict.keys votes = party_order /\
      NoDup party_order /\
      ~ In [] party_order /\
      forall p v, Dict.get votes p = Some v -> (0 <= v)%Z)
  \/ extract_party_votes muni_soup = die no_party_results
  \/ extract_party_votes muni_soup = raise ValueError.
Proof.
  destruct (extract_party_votes_cases muni_soup)
    as [[[order votes] [E [[Hk [Hnd [Hne Hpos]]] Hv]]] | H]; [left | now right].
  cbn [fst snd] in *. exists order, votes. repeat split; try assumption.
  - rewrite <- Hk. now destruct votes.
  - intros p v Hget. apply get_In in Hget as [k' Hin].
    rewrite Forall_forall in Hpos. now apply (Hpos (k', v)).
Qed.

(* ================================================================= *)
(** ** One municipality *)

Lemma fetch_soup_ret_inv (W : world) (url : str) (t : list event) (page : node) :
  fetch_soup W url = (t, Ret page) ->
  t = [HttpGet url] /\ http_get W url = Response 200 page.
Proof.
  unfold fetch_soup. destruct (http_get W url) as [sc pg|]; [|discriminate].
  destruct (sc =? 200)%Z eqn:E; cbn [negb];
    [|destruct (str_of_int sc); discriminate].
  intros H. injection H as <- <-. apply Z.eqb_eq in E. now subst sc.
Qed.

Lemma scrape_municipality_ret_inv (W : world) (m : municipality)
    (t : list event) (r : row) :
  scrape_municipality W m = (t, Ret r) ->
  t = [HttpGet (url m)] /\
  exists page s order votes,
    http_get W (url m) = Response 200 page /\
    extract_summary_numbers page = ret s /\
    extract_party_votes page = ret (order, votes) /\
    r = Row (code m) (name m) (s_registered s) (s_envelopes s) (s_valid s)
            order votes /\
    row_ok r.
Proof.
  unfold scrape_municipality. intros H.
  apply bind_ret_inv in H as [t1 [page [t2 [Hf [H ->]]]]].
  apply bind_ret_inv in H as [t3 [s [t4 [Hs [H ->]]]]].
  apply bind_ret_inv in H as [t5 [[order votes] [t6 [Hp [H ->]]]]].
  injection H as <- <-.
  apply fetch_soup_ret_inv in Hf as [-> Hget].
  pose proof (extract_summary_numbers_ret_inv _ Hs) as [-> Hnn].
  pose proof (extract_party_votes_ret_inv _ Hp) as [-> [Hok Hv]].
  split; [reflexivity|]. exists page, s, order, votes.
  repeat split; try assumption; try apply Hnn; try apply Hok.
  cbn [_party_order]. destruct Hok as [Hk _]. cbn [fst snd] in *.
  rewrite <- Hk. now destruct votes.
Qed.

(** X12.  A municipality that is scraped without failure costs exactly one
    request, to its own URL, answered with status 200.  The row carries
    the code and the name of the municipality as the Locator found them;
    its three numbers and its counts are not negative, and its party order
    is not empty and lists the keys of its mapping without repetition. *)
Theorem scrape_municipality_row (W : world) (m : municipality)
    (t : list event) (r : row) :
  scrape_municipality W m = (t, Ret r) ->
  t = [HttpGet (url m)] /\
  (exists page, http_get W (url m) = Response 200 page) /\
  r_code r = code m /\ r_location r = name m /\
  row_ok r.
Proof.
  intros H. apply scrape_municipality_ret_inv in H
    as [Ht [page [s [order [votes [Hget [_ [_ [Hr Hok]]]]]]]]].
  split; [exact Ht|]. split; [now exists page|].
  subst r. split; [reflexivity|]. split; [reflexivity | exact Hok].
Qed.

Lemma scrape_municipality_row_witness :
  [HttpGet (url sample_municipality)] = [HttpGet (url sample_municipality)] /\
  (exists page, http_get Sample.web (url sample_municipality) = Response 200 page) /\
  r_code sample_row = code sample_municipality /\
  r_location sample_row = name sample_municipality /\
  row_ok sample_row.
Proof.
  assert (H : scrape_municipality Sample.web sample_municipality
              = ([HttpGet (url sample_municipality)], Ret sample_row))
    by (vm_compute; reflexivity).
  exact (@scrape_municipality_row Sample.web sample_municipality
           [HttpGet (url sample_municipality)] sample_row H).
Defined.

(* ================================================================= *)
(** ** The content of the file *)

Lemma row_get_fixed (r : row) :
  map (row_get r) fixed_columns
  = [ VStr (r_code r); VStr (r_location r); VInt (r_registered r);
      VInt (r_envelopes r); VInt (r_valid r) ].
Proof. vm_compute. reflexivity. Qed.

(** When no party column is named like a fixed column, the projection of a
    row shows its own fields under the fixed columns. *)
Lemma projection_row_texts (r : row) (party_cols : list str) :
  (forall k, In k fixed_columns -> ~ In k party_cols) ->
  projection party_cols r = row_texts party_cols r.
Proof.
  intros Hdis. unfold projection, row_texts. f_equal.
  assert (E : map (fixed_cell party_cols r) fixed_columns
              = map cell_text (map (row_get r) fixed_columns)).
  { rewrite map_map. apply map_ext_in. intros k Hk. unfold fixed_cell.
    destruct (existsb (PyStr.eqb k) party_cols) eqn:Ex; [|reflexivity].
    apply existsb_eqb_In in Ex. now apply Hdis in Hk. }
  rewrite E, row_get_fixed. reflexivity.
Qed.

(** Whenever the loop over the rows returns, it has appended the record of
    every row. *)
Lemma write_rows_ret (party_cols : list str) (rows : list row)
    (content content' : str) :
  write_rows (fixed_columns ++ party_cols) party_cols rows content
  = (content', Ret tt) ->
  content'
  = content ++ concat (map (fun r => format_row (projection party_cols r)) rows).
Proof.
  revert content; induction rows as [|r rows IH]; intros content;
    cbn [write_rows map concat].
  - intros H. injection H as <-. now rewrite app_nil_r.
  - unfold writerow. rewrite dict_to_list_ok.
    destruct (to_strs _) as [texts|] eqn:E; [|discriminate].
    apply to_strs_some in E. rewrite projection_cells in E. subst texts.
    intros H. apply IH in H. now rewrite H, <- app_assoc.
Qed.

Lemma write_csv_ret_projection (W : world) (rows : list row)
    (party_cols : list str) (out_csv : str) (t : list event) :
  write_csv W rows party_cols out_csv = (t, Ret tt) ->
  write_csv W rows party_cols out_csv
  = ([FileWrite out_csv
        (format_row (fixed_columns ++ party_cols)
         ++ concat (map (fun r => format_row (projection party_cols r)) rows))],
     Ret tt).
Proof.
  unfold write_csv. destruct (can_open W out_csv); [|discriminate].
  destruct (write_rows _ _ _ _) as [content r] eqn:E.
  intros H. injection H as _ ->. apply write_rows_ret in E. now subst content.
Qed.



(** X14.  A party column takes over every column of its name.  When a
    party of the first record is named like a fixed column, the cell under
    that fixed column holds, in every row, the votes of the party (0 if the
    row lacks it) and not the field of the municipality. *)
Theorem party_column_takes_over (r : row) (party_cols : list str) (k : str) :
  In k party_cols ->
  exists cells,
    dict_to_list (fixed_columns ++ party_cols) (out_dict r party_cols) = Ret cells /\
    forall i, nth_error (fixed_columns ++ party_cols) i = Some k ->
              nth_error cells i
              = Some (VInt (Dict.get_default (_party_votes r) k 0%Z)).
Proof.
  intros Hk. eexists. split; [apply dict_to_list_ok|].
  intros i Hi. rewrite nth_error_map, Hi. cbn [option_map].
  unfold Dict.get_default at 1. now rewrite out_dict_party.
Qed.

Lemma party_column_takes_over_witness :
  exists cells,
    dict_to_list (fixed_columns ++ [u "code"]) (out_dict sample_row [u "code"])
    = Ret cells /\
    forall i, nth_error (fixed_columns ++ [u "code"]) i = Some (u "code") ->
              nth_error cells i
              = Some (VInt (Dict.get_default (_party_votes sample_row) (u "code") 0%Z)).
Proof. apply party_column_takes_over. left. reflexivity. Defined.

Example party_named_code :
  writerow (fixed_columns ++ [u "code"]) (out_dict sample_row [u "code"])
  = Ret (u "0,Alfa,100,80,75,0" ++ [CR; LF]).
Proof. vm_compute. reflexivity. Qed.

(* ================================================================= *)
(** ** The trace of a run *)

Lemma scrape_step_ret_trace (W : world) (total : nat)
    (state : list row * list str) (im : nat * municipality)
    (t : list event) (state' : list row * list str) :
  scrape_step W total state im = (t, Ret state') -> t = scrape_events total im.
Proof.
  destruct state as [rows cols], im as [i m]. unfold scrape_step. intros H.
  apply bind_ret_inv in H as [t1 [[] [t2 [Hp [H ->]]]]]. injection Hp as <-.
  apply bind_ret_inv in H as [t3 [data [t4 [Hs [H ->]]]]].
  injection H as <- _. apply scrape_municipality_ret_inv in Hs as [-> _].
  reflexivity.
Qed.

Lemma scrape_loop_trace (W : world) (total : nat) (ims : list (nat * municipality)) :
  forall state t state',
    for_each ims (scrape_step W total) state = (t, Ret state') ->
    t = flat_map (scrape_events total) ims.
Proof.
  induction ims as [|im ims IH]; intros state t state' H; cbn [for_each] in H.
  - now injection H as <- _.
  - apply bind_ret_inv in H as [t1 [s1 [t2 [H1 [H2 ->]]]]].
    apply scrape_step_ret_trace in H1 as ->. apply IH in H2 as ->. reflexivity.
Qed.

Lemma scrape_events_gets (total : nat) (ims : list (nat * municipality)) :
  filter is_get (flat_map (scrape_events total) ims)
  = map (fun im => HttpGet (url (snd im))) ims.
Proof.
  induction ims as [|im ims IH]; [reflexivity|].
  cbn [flat_map map]. rewrite filter_app, IH. reflexivity.
Qed.

(** X15.  The trace of a run that returns, in full: the separator and the
    line about the download, the request for the district page, the line
    with the number of municipalities and the separator; then, for each
    municipality in the order of the Locator's list, its progress line
    [[i/n] Scraping: name (code)] with [i] counting from 1, and one
    request to its URL; then the file, the separator and the closing
    line.  So the requests of such a run are the district page and then
    each municipality, once each, in order, and nothing is fetched
    twice. *)
Theorem main_trace (W : world) (argv : list str) :
  snd (main W argv) = Ret tt ->
  exists district_url out_csv ms content,
    parse_args argv = ret (district_url, out_csv) /\
    (exists soup, http_get W district_url = Response 200 soup /\
                  find_municipalities W soup district_url = ret ms) /\
    fst (main W argv)
    = [ Print SEPARATOR; Print (u "Downloading district page...");
        HttpGet district_url;
        Print (u "Found " ++ of_int (Z.of_nat (length ms)) ++ u " municipalities.");
        Print SEPARATOR ]
      ++ flat_map (scrape_events (length ms)) (enumerate1 ms)
      ++ [ FileWrite out_csv content; Print SEPARATOR;
           Print (u "Done. Saved: " ++ out_csv) ] /\
    filter is_get (fst (main W argv))
    = HttpGet district_url :: map (fun m => HttpGet (url m)) ms.
Proof.
  intros H.
  destruct (main_ret_inv W argv H)
    as [durl [out_csv [t0 [soup [ms [t1 [rows [cols [Hp [Hf [Hm [Hl [Ht Hwr]]]]]]]]]]]]].
  apply fetch_soup_ret_inv in Hf as [-> Hget].
  apply scrape_loop_trace in Hl as ->.
  destruct (write_csv W rows cols out_csv) as [tw rw] eqn:Ew.
  cbn [fst snd] in Ht, Hwr. subst rw.
  destruct (write_csv_ret _ _ _ _ Ew) as [_ [body ->]].
  exists durl, out_csv, ms. eexists. split; [exact Hp|].
  split; [exists soup; now split|].
  assert (E : fst (main W argv)
              = [ Print SEPARATOR; Print (u "Downloading district page...");
                  HttpGet durl;
                  Print (u "Found " ++ of_int (Z.of_nat (length ms))
                         ++ u " municipalities.");
                  Print SEPARATOR ]
                ++ flat_map (scrape_events (length ms)) (enumerate1 ms)
                ++ [ FileWrite out_csv
                       (writeheader (fixed_columns ++ cols) ++ body);
                     Print SEPARATOR; Print (u "Done. Saved: " ++ out_csv) ]).
  { rewrite Ht. unfold done_lines. cbn [app]. reflexivity. }
  split; [exact E|].
  rewrite E. cbn [app filter is_get]. rewrite filter_app, scrape_events_gets.
  cbn [filter is_get]. rewrite app_nil_r. f_equal.
  rewrite <- (map_snd_enumerate1 ms) at 2. now rewrite map_map.
Qed.

Lemma main_trace_witness :
  exists district_url out_csv ms content,
    parse_args Sample.argv = ret (district_url, out_csv) /\
    (exists soup, http_get Sample.web district_url = Response 200 soup /\
                  find_municipalities Sample.web soup district_url = ret ms) /\
    fst (main Sample.web Sample.argv)
    = [ Print SEPARATOR; Print (u "Downloading district page...");
        HttpGet district_url;
        Print (u "Found " ++ of_int (Z.of_nat (length ms)) ++ u " municipalities.");
        Print SEPARATOR ]
      ++ flat_map (scrape_events (length ms)) (enumerate1 ms)
      ++ [ FileWrite out_csv content; Print SEPARATOR;
           Print (u "Done. Saved: " ++ out_csv) ] /\
    filter is_get (fst (main Sample.web Sample.argv))
    = HttpGet district_url :: map (fun m => HttpGet (url m)) ms.
Proof.
  assert (H : snd (main Sample.web Sample.argv) = Ret tt)
    by (vm_compute; reflexivity).
  exact (main_trace Sample.web Sample.argv H).
Defined.

(* ================================================================= *)
(** ** How a run fails *)

Lemma announced_ret {A} (a : A) : announced (ret a).
Proof. intros c H. discriminate H. Qed.

Lemma announced_raise {A} (e : exn) : announced (@raise A e).
Proof. intros c H. discriminate H. Qed.

Lemma announced_print (line : str) : announced (print line).
Proof. intros c H. discriminate H. Qed.

Lemma announced_request (url : str) : announced (request url).
Proof. intros c H. discriminate H. Qed.

Lemma announced_die {A} (msg : str) : fatal_message msg -> announced (@die A msg).
Proof.
  intros Hmsg c H. injection H as <-. split; [reflexivity|].
  exists [], msg. now split.
Qed.

Lemma announced_bind {A B} (m : M A) (f : A -> M B) :
  announced m -> (forall a, announced (f a)) -> announced (bind m f).
Proof.
  intros Hm Hf. destruct m as [t1 [a | h]]; unfold announced; simpl.
  - specialize (Hf a). unfold announced in Hf.
    destruct (f a) as [t2 r]; simpl in *. intros c Hc.
    destruct (Hf c Hc) as [Hc1 [pre [msg [-> Hmsg]]]].
    split; [exact Hc1|]. exists (t1 ++ pre), msg. now rewrite app_assoc.
  - intros c Hc. apply (Hm c). simpl. now injection Hc as ->.
Qed.

Lemma announced_for_each {A S} (body : S -> A -> M S) (xs : list A) (s : S) :
  (forall s x, announced (body s x)) -> announced (for_each xs body s).
Proof.
  intros Hb. revert s; induction xs as [|x xs IH]; intros s; cbn [for_each].
  - apply announced_ret.
  - apply announced_bind; [apply Hb | exact IH].
Qed.

Lemma announced_rove {A} (m : M A) : returns_or_value_error m -> announced m.
Proof. intros [[a ->] | ->]; [apply announced_ret | apply announced_raise]. Qed.

Lemma announced_parse_args (argv : list str) : announced (parse_args argv).
Proof.
  unfold parse_args.
  destruct (negb _).
  { apply announced_die. left. unfold fatal_messages. left. reflexivity. }
  destruct (negb _).
  { apply announced_die. left. unfold fatal_messages. right. left. reflexivity. }
  destruct (negb _).
  { apply announced_die. left. unfold fatal_messages.
    right. right. left. reflexivity. }
  destruct (negb _).
  { apply announced_die. left. unfold fatal_messages.
    right. right. right. left. reflexivity. }
  apply announced_ret.
Qed.

Lemma announced_fetch_soup (W : world) (url : str) : announced (fetch_soup W url).
Proof.
  unfold fetch_soup. apply announced_bind; [apply announced_request | intros _].
  destruct (http_get W url) as [sc page|]; [|apply announced_raise].
  destruct (negb _); [|apply announced_ret].
  destruct (str_of_int sc) as [code|] eqn:E; [|apply announced_raise].
  apply str_of_int_inv in E. subst code.
  apply announced_die. right. now exists sc.
Qed.

Lemma announced_find_municipalities (W : world) (soup : node) (base_url : str) :
  announced (find_municipalities W soup base_url).
Proof.
  unfold find_municipalities. destruct (Dict.values _); [|apply announced_ret].
  apply announced_die. left. unfold fatal_messages.
  right. right. right. right. left. reflexivity.
Qed.

Lemma announced_extract_party_votes (soup : node) :
  announced (extract_party_votes soup).
Proof.
  destruct (extract_party_votes_cases soup) as [[st [-> _]] | [-> | ->]].
  - apply announced_ret.
  - apply announced_die. left. unfold fatal_messages.
    right. right. right. right. right. left. reflexivity.
  - apply announced_raise.
Qed.

Lemma announced_scrape_municipality (W : world) (m : municipality) :
  announced (scrape_municipality W m).
Proof.
  unfold scrape_municipality.
  apply announced_bind; [apply announced_fetch_soup | intros soup].
  apply announced_bind;
    [apply announced_rove, rove_extract_summary_numbers | intros s].
  apply announced_bind; [apply announced_extract_party_votes | intros [o v]].
  apply announced_ret.
Qed.

Lemma announced_main (W : world) (argv : list str) : announced (main W argv).
Proof.
  unfold main.
  apply announced_bind; [apply announced_parse_args | intros [url out_csv]].
  apply announced_bind; [apply announced_print | intros _].
  apply announced_bind; [apply announced_print | intros _].
  apply announced_bind; [apply announced_fetch_soup | intros soup].
  apply announced_bind; [apply announced_find_municipalities | intros ms].
  apply announced_bind; [apply announced_print | intros _].
  apply announced_bind; [apply announced_print | intros _].
  apply announced_bind.
  - apply announced_for_each. intros [rows cols] [i m]. unfold scrape_step.
    apply announced_bind; [apply announced_print | intros _].
    apply announced_bind; [apply announced_scrape_municipality | intros data].
    apply announced_ret.
  - intros [rows cols].
    apply announced_bind; [|intros _].
    + intros c Hc. destruct (write_csv W rows cols out_csv) as [t r] eqn:E.
      cbn [snd] in Hc. subst r. apply write_csv_halt in E as [e E]. discriminate E.
    + apply announced_bind; [apply announced_print | intros _].
      apply announced_print.
Qed.

(** X16.  How a run leaves through [sys.exit]: always with code 1, and the
    last thing it did was to print one of the seven fatal messages (usage,
    the three validation errors, the HTTP status, no municipalities, no
    party results).  It has then written no file. *)
Theorem main_exit_announced (W : world) (argv : list str) (c : Z) :
  snd (main W argv) = Halt (SysExit c) ->
  c = 1%Z /\
  (exists pre msg, fst (main W argv) = pre ++ [Print msg] /\ fatal_message msg) /\
  filter is_write (fst (main W argv)) = [].
Proof.
  intros H. pose proof (announced_main W argv) as Ha. unfold announced in Ha.
  destruct (Ha c H) as [Hc Hmsg].
  split; [exact Hc|]. split; [exact Hmsg|].
  now apply main_halt in H.
Qed.

Lemma main_exit_announced_witness :
  1%Z = 1%Z /\
  (exists pre msg, fst (main Sample.web_empty Sample.argv) = pre ++ [Print msg] /\
                   fatal_message msg) /\
  filter is_write (fst (main Sample.web_empty Sample.argv)) = [].
Proof.
  assert (H : snd (main Sample.web_empty Sample.argv) = Halt (SysExit 1))
    by (vm_compute; reflexivity).
  exact (main_exit_announced Sample.web_empty Sample.argv H).
Defined.

(* ================================================================= *)
(** ** From the pages to the file *)

(** X17.  The file of a run that returns, end to end.  The Locator's list
    is not empty and every municipality on it was scraped into a row; the
    party columns are the party order of the first row; and, when none of
    them is named like a fixed column, the one file written holds the
    header row and then one record per municipality, in the order of the
    list, with the municipality's code, name, three numbers and its counts
    for the party columns. *)
Theorem main_output (W : world) (argv : list str) :
  snd (main W argv) = Ret tt ->
  exists district_url out_csv soup m ms first rest,
    parse_args argv = ret (district_url, out_csv) /\
    http_get W district_url = Response 200 soup /\
    find_municipalities W soup district_url = ret (m :: ms) /\
    (exists t, scrape_municipality W m = (t, Ret first)) /\
    Forall2 (fun m r => exists t, scrape_municipality W m = (t, Ret r)) ms rest /\
    ((forall k, In k fixed_columns -> ~ In k (_party_order first)) ->
     written (main W argv)
     = [(out_csv,
         format_row (fixed_columns ++ _party_order first)
         ++ concat (map (fun r => format_row (row_texts (_party_order first) r))
                        (first :: rest)))]).
Proof.
  intros H.
  destruct (main_success W argv H)
    as [durl [out_csv [t0 [soup [ms [rows [pre [body
         [Hp [Hf [Hm [Hall [Ht [Hw Hq]]]]]]]]]]]]]].
  pose proof (find_municipalities_nonempty _ _ _ Hm) as Hne.
  destruct Hall as [|m first ms' rest Hfirst Hrest]; [contradiction|].
  cbn [columns_after] in *.
  apply fetch_soup_ret_inv in Hf as [_ Hget].
  exists durl, out_csv, soup, m, ms', first, rest.
  repeat split; try assumption.
  intros Hdis.
  assert (E : writeheader (fixed_columns ++ _party_order first) ++ body
              = format_row (fixed_columns ++ _party_order first)
                ++ concat (map (fun r => format_row (row_texts (_party_order first) r))
                               (first :: rest))).
  { pose proof (write_csv_ret_projection _ _ _ _ Hw) as Hw'.
    rewrite Hw in Hw'. apply file_write_inj in Hw'. rewrite Hw'.
    do 2 f_equal. apply map_ext. intros r.
    now rewrite (@projection_row_texts r (_party_order first) Hdis). }
  rewrite <- E.
  destruct (main W argv) as [t r]. cbn [fst] in Ht. subst t.
  now apply written_app_one.
Qed.

Lemma main_output_witness :
  exists district_url out_csv soup m ms first rest,
    parse_args Sample.argv = ret (district_url, out_csv) /\
    http_get Sample.web2 district_url = Response 200 soup /\
    find_municipalities Sample.web2 soup district_url = ret (m :: ms) /\
    (exists t, scrape_municipality Sample.web2 m = (t, Ret first)) /\
    Forall2 (fun m r => exists t, scrape_municipality Sample.web2 m = (t, Ret r))
            ms rest /\
    ((forall k, In k fixed_columns -> ~ In k (_party_order first)) ->
     written (main Sample.web2 Sample.argv)
     = [(out_csv,
         format_row (fixed_columns ++ _party_order first)
         ++ concat (map (fun r => format_row (row_texts (_party_order first) r))
                        (first :: rest)))]).
Proof.
  assert (H : snd (main Sample.web2 Sample.argv) = Ret tt)
    by (vm_compute; reflexivity).
  exact (main_output Sample.web2 Sample.argv H).
Defined.

(* ================================================================= *)
(** ** The requests of a run *)

Lemma gets_bind {A B} (m : M A) (f : A -> M B) :
  filter is_get (fst (bind m f))
  = filter is_get (fst m)
    ++ match snd m with
       | Ret a => filter is_get (fst (f a))
       | Halt _ => []
       end.
Proof.
  destruct m as [t [a | h]]; simpl.
  - destruct (f a) as [t' r]. simpl. apply filter_app.
  - now rewrite app_nil_r.
Qed.

Lemma no_requests_bind {A B} (m : M A) (f : A -> M B) :
  no_requests m -> (forall a, no_requests (f a)) -> no_requests (bind m f).
Proof.
  unfold no_requests. intros Hm Hf. rewrite gets_bind, Hm.
  destruct (snd m); [apply Hf | reflexivity].
Qed.

Lemma no_requests_for_each {A S} (body : S -> A -> M S) (xs : list A) (s : S) :
  (forall s x, no_requests (body s x)) -> no_requests (for_each xs body s).
Proof.
  intros Hb. revert s; induction xs as [|x xs IH]; intros s; cbn [for_each].
  - reflexivity.
  - apply no_requests_bind; [apply Hb | exact IH].
Qed.

Lemma no_requests_rove {A} (m : M A) : returns_or_value_error m -> no_requests m.
Proof. intros [[a ->] | ->]; reflexivity. Qed.

Lemma no_requests_parse_args (argv : list str) : no_requests (parse_args argv).
Proof.
  destruct (parse_args_cases argv) as [[url [out ->]] | [msg ->]]; reflexivity.
Qed.

Lemma no_requests_find_municipalities (W : world) (soup : node) (base_url : str) :
  no_requests (find_municipalities W soup base_url).
Proof. unfold find_municipalities. destruct (Dict.values _); reflexivity. Qed.

Lemma no_requests_extract_party_votes (soup : node) :
  no_requests (extract_party_votes soup).
Proof.
  destruct (extract_party_votes_cases soup) as [[st [-> _]] | [-> | ->]];
    reflexivity.
Qed.

Lemma fetch_soup_gets (W : world) (url : str) :
  filter is_get (fst (fetch_soup W url)) = [HttpGet url].
Proof.
  unfold fetch_soup. destruct (http_get W url) as [sc page|]; [|reflexivity].
  destruct (negb _); [|reflexivity].
  destruct (str_of_int sc); reflexivity.
Qed.

(** Whatever becomes of it, scraping a municipality makes one request. *)
Lemma scrape_municipality_gets (W : world) (m : municipality) :
  filter is_get (fst (scrape_municipality W m)) = [HttpGet (url m)].
Proof.
  unfold scrape_municipality. rewrite gets_bind, fetch_soup_gets.
  destruct (snd (fetch_soup W (url m))) as [soup|]; [|reflexivity].
  assert (H : no_requests
                (s <- extract_summary_numbers soup ;;
                 ' (party_order, party_votes) <- extract_party_votes soup ;;
                 ret (Row (code m) (name m) (s_registered s) (s_envelopes s)
                          (s_valid s) party_order party_votes))).
  { apply no_requests_bind;
      [apply no_requests_rove, rove_extract_summary_numbers | intros s].
    apply no_requests_bind; [apply no_requests_extract_party_votes | intros [o v]].
    reflexivity. }
  unfold no_requests in H. now rewrite H.
Qed.

Lemma scrape_step_gets (W : world) (total : nat)
    (state : list row * list str) (im : nat * municipality) :
  filter is_get (fst (scrape_step W total state im)) = [HttpGet (url (snd im))].
Proof.
  destruct state as [rows cols], im as [i m]. unfold scrape_step.
  rewrite gets_bind. cbn [print fst snd filter is_get app].
  rewrite gets_bind, scrape_municipality_gets.
  destruct (snd (scrape_municipality W m)); reflexivity.
Qed.

Lemma scrape_step_snd (W : world) (total : nat)
    (state : list row * list str) (im : nat * municipality) :
  (scrapes W (snd im) = true ->
   exists s, snd (scrape_step W total state im) = Ret s) /\
  (scrapes W (snd im) = false ->
   exists h, snd (scrape_step W total state im) = Halt h).
Proof.
  destruct state as [rows cols], im as [i m]. unfold scrape_step, scrapes.
  cbn [snd]. unfold bind, print.
  destruct (scrape_municipality W m) as [t [data | h]]; unfold ret; cbn [snd];
    split; intros H; try discriminate H; eauto.
Qed.

(** The requests of the loop of [main]: one per municipality, in the order
    of the list, up to and including the first that cannot be scraped. *)
Lemma scrape_loop_requests (W : world) (total : nat)
    (ims : list (nat * municipality)) :
  forall state,
    (forallb (scrapes W) (map snd ims) = true ->
     filter is_get (fst (for_each ims (scrape_step W total) state))
     = map get_of (map snd ims) /\
     exists s, snd (for_each ims (scrape_step W total) state) = Ret s) /\
    (forall done m rest,
        map snd ims = done ++ m :: rest ->
        forallb (scrapes W) done = true -> scrapes W m = false ->
        filter is_get (fst (for_each ims (scrape_step W total) state))
        = map get_of (done ++ [m]) /\
        exists h, snd (for_each ims (scrape_step W total) state) = Halt h).
Proof.
  induction ims as [|im ims IH]; intros state; cbn [for_each map].
  - split; [intros _; split; [reflexivity | now exists state]|].
    intros [|d done] m rest H; discriminate H.
  - rewrite gets_bind, scrape_step_gets.
    destruct (scrape_step_snd W total state im) as [Hret Hhalt].
    split.
    + cbn [forallb]. intros H. apply andb_true_iff in H as [H1 H2].
      destruct (Hret H1) as [s Hs].
      destruct (scrape_step W total state im) as [t r] eqn:E.
      cbn [snd] in Hs. subst r. cbn [snd].
      destruct (IH s) as [[Hg [s' Hs']] _]; [exact H2|].
      split; [now rewrite Hg|].
      exists s'. unfold bind.
      destruct (for_each ims (scrape_step W total) s) as [t' r']. exact Hs'.
    + intros [|d done] m rest H Hd Hm; cbn [app] in H; injection H as H1 H2.
      * subst m. destruct (Hhalt Hm) as [h Hh].
        destruct (scrape_step W total state im) as [t r] eqn:E.
        cbn [snd] in Hh. subst r. cbn [snd].
        split; [reflexivity | now exists h].
      * subst d. cbn [forallb] in Hd. apply andb_true_iff in Hd as [Hd1 Hd2].
        destruct (Hret Hd1) as [s Hs].
        destruct (scrape_step W total state im) as [t r] eqn:E.
        cbn [snd] in Hs. subst r. cbn [snd].
        destruct (IH s) as [_ Hb].
        destruct (Hb done m rest H2 Hd2 Hm) as [Hg [h Hh]].
        split; [now rewrite Hg|].
        exists h. unfold bind.
        destruct (for_each ims (scrape_step W total) s) as [t' r']. exact Hh.
Qed.

(** X18.  Requests are made in turn and stop at the first failure.  A run
    whose arguments are rejected makes none.  Otherwise it asks for the
    district page, and for nothing else when that page or the Locator
    fails.  Then it asks for the municipalities of the Locator's list in
    the order of the list: for all of them when each can be scraped, and
    otherwise up to and including the first that cannot be scraped, after
    which the run ends without a further request. *)
Theorem main_requests (W : world) (argv : list str) :
  (forall h, snd (parse_args argv) = Halt h ->
             filter is_get (fst (main W argv)) = []) /\
  (forall district_url out_csv,
      parse_args argv = ret (district_url, out_csv) ->
      (forall h, snd (fetch_soup W district_url) = Halt h ->
                 filter is_get (fst (main W argv)) = [HttpGet district_url]) /\
      (forall t0 soup,
          fetch_soup W district_url = (t0, Ret soup) ->
          (forall h, snd (find_municipalities W soup district_url) = Halt h ->
                     filter is_get (fst (main W argv)) = [HttpGet district_url]) /\
          (forall ms,
              find_municipalities W soup district_url = ret ms ->
              (forallb (scrapes W) ms = true ->
               filter is_get (fst (main W argv))
               = HttpGet district_url :: map get_of ms) /\
              (forall done m rest,
                  ms = done ++ m :: rest ->
                  forallb (scrapes W) done = true -> scrapes W m = false ->
                  filter is_get (fst (main W argv))
                  = HttpGet district_url :: map get_of (done ++ [m]) /\
                  exists h, snd (main W argv) = Halt h)))).
Proof.
  pose proof (no_requests_parse_args argv) as Hp. unfold no_requests in Hp.
  split.
  - intros h H. unfold main. now rewrite gets_bind, Hp, H.
  - intros durl out_csv Hargs.
    assert (Hg : filter is_get (fst (main W argv))
                 = HttpGet durl ::
                   match snd (fetch_soup W durl) with
                   | Ret soup =>
                       match snd (find_municipalities W soup durl) with
                       | Ret ms =>
                           filter is_get
                             (fst (for_each (enumerate1 ms)
                                            (scrape_step W (length ms)) ([], [])))
                       | Halt _ => []
                       end
                   | Halt _ => []
                   end).
    { unfold main. rewrite gets_bind, Hp, Hargs. cbn [snd ret app].
      rewrite gets_bind. cbn [print fst snd filter is_get app].
      rewrite gets_bind. cbn [print fst snd filter is_get app].
      rewrite gets_bind, fetch_soup_gets. cbn [app]. f_equal.
      destruct (snd (fetch_soup W durl)) as [soup|]; [|reflexivity].
      rewrite gets_bind.
      pose proof (no_requests_find_municipalities W soup durl) as Hm.
      unfold no_requests in Hm. rewrite Hm. cbn [app].
      destruct (snd (find_municipalities W soup durl)) as [ms|]; [|reflexivity].
      rewrite gets_bind. cbn [print fst snd filter is_get app].
      rewrite gets_bind. cbn [print fst snd filter is_get app].
      rewrite gets_bind.
      destruct (snd (for_each (enumerate1 ms) (scrape_step W (length ms)) ([], [])))
        as [[rows cols]|]; [|now rewrite app_nil_r].
      rewrite gets_bind.
      assert (Hw : filter is_get (fst (write_csv W rows cols out_csv)) = []).
      { unfold write_csv. destruct (can_open W out_csv); [|reflexivity].
        now destruct (write_rows _ _ _ _). }
      rewrite Hw. cbn [app].
      destruct (snd (write_csv W rows cols out_csv)); now rewrite app_nil_r. }
    split; [intros h H; now rewrite Hg, H|].
    intros t0 soup Hf. rewrite Hf in Hg. cbn [snd] in Hg.
    split; [intros h H; now rewrite Hg, H|].
    intros ms Hm. rewrite Hm in Hg. cbn [snd ret] in Hg.
    destruct (scrape_loop_requests W (length ms) (enumerate1 ms) ([], []))
      as [Hall Hstop].
    rewrite map_snd_enumerate1 in Hall, Hstop.
    split.
    + intros H. destruct (Hall H) as [E _]. now rewrite Hg, E.
    + intros done m rest Hms Hd Hfail.
      destruct (Hstop done m rest Hms Hd Hfail) as [E [h Hh]].
      split; [now rewrite Hg, E|].
      destruct (snd (main W argv)) as [[]|h'] eqn:Hr; [exfalso | now exists h'].
      destruct (main_ret_inv W argv Hr)
        as [url' [out' [t0' [soup' [ms' [t1 [rows [cols
             [Hp' [Hf' [Hm' [Hl _]]]]]]]]]]]].
      rewrite Hargs in Hp'. injection Hp' as <- <-.
      rewrite Hf in Hf'. injection Hf' as <- <-.
      rewrite Hm in Hm'. injection Hm' as <-.
      rewrite Hl in Hh. discriminate Hh.
Qed.

Lemma main_requests_witness :
  filter is_get (fst (main failing_web Sample.argv))
  = HttpGet Sample.base :: map get_of ([] ++ [sample_municipality]) /\
  exists h, snd (main failing_web Sample.argv) = Halt h.
Proof.
  assert (Hargs : parse_args Sample.argv = ret (Sample.base, u "out.csv"))
    by (vm_compute; reflexivity).
  assert (Hf : fetch_soup failing_web Sample.base
               = ([HttpGet Sample.base], Ret Sample.district_page))
    by (vm_compute; reflexivity).
  assert (Hm : find_municipalities failing_web Sample.district_page Sample.base
               = ret ([] ++ sample_municipality :: [second_municipality]))
    by (vm_compute; reflexivity).
  assert (Hd : forallb (scrapes failing_web) [] = true) by reflexivity.
  assert (Hfail : scrapes failing_web sample_municipality = false)
    by (vm_compute; reflexivity).
  exact (proj2 (proj2 (proj2 (proj2 (main_requests failing_web Sample.argv)
                                Sample.base (u "out.csv") Hargs)
                         [HttpGet Sample.base] Sample.district_page Hf)
                  ([] ++ sample_municipality :: [second_municipality]) Hm)
           [] sample_municipality [second_municipality] eq_refl Hd Hfail).
Defined.

Example requests_of_a_failed_run :
  filter is_get (fst (main Sample.web [u "main.py"; u "https://www.volby.cz/x";
                                       u "out.csv"]))
  = [HttpGet (u "https://www.volby.cz/x")].
Proof. vm_compute. reflexivity. Qed.
